(** * AutoTableTurf: the geometric game-state model and the detect/act loop

    A shallow embedding of
      - [tableturf/model/card.py]   (Pattern, Card),
      - [tableturf/model/stage.py]  (Stage: special cells and the fiery split),
      - [tableturf/manager/detection/card.py] (the hand detector [hands]),
      - [tableturf/manager/tableturf.py] (the stabilising wrapper
        [__multi_detect] and the rotation loop of [__move]),
    followed by the properties of the specification, each settled on the
    embedded code.

    Conventions.  A two-dimensional [numpy] integer array is a list of rows
    ([matrix]); every statement that needs it assumes the rows have one
    common length ([rectangular]).  Python exceptions and [logger.warn]
    calls are kept in a small error-and-log monad [M]. *)

From Stdlib Require Import List ZArith Lia Bool Arith QArith Permutation.
From Stdlib Require Import Sorted.
Import ListNotations.
Close Scope Q_scope.

Set Implicit Arguments.

(* ================================================================== *)
(** * Python effects: exceptions and the logger                        *)
(* ================================================================== *)

Definition matrix := list (list Z).

Inductive exn : Type :=
| IndexError.

Inductive result (A : Type) : Type :=
| Ok (a : A)
| Raise (e : exn).

Arguments Ok {A} a.
Arguments Raise {A} e.

(** What the program hands to [logger.warn]. *)
Inductive log_event : Type :=
| PatternTooLarge (grid : matrix)    (* "Pattern width/height > 8. grid=..." *)
| MultiDetectExceeded.               (* "tableturf.multi_detect: exceeded ..." *)

(** A computation yields the warnings logged so far and either a value or
    the exception that stopped it. *)
Definition M (A : Type) : Type := (list log_event * result A)%type.

Definition ret {A} (a : A) : M A := ([], Ok a).

Definition raise {A} (e : exn) : M A := ([], Raise e).

Definition warn (w : log_event) : M unit := ([w], Ok tt).

Definition bind {A B} (m : M A) (f : A -> M B) : M B :=
  match m with
  | (l, Ok a) => let (l', r) := f a in (l ++ l', r)
  | (l, Raise e) => (l, Raise e)
  end.

Notation "x <- c1 ;; c2" := (bind c1 (fun x => c2))
  (at level 61, c1 at next level, right associativity).
Notation "c1 ;;; c2" := (bind c1 (fun _ => c2))
  (at level 61, right associativity).

Fixpoint mapM {A B} (f : A -> M B) (l : list A) : M (list B) :=
  match l with
  | [] => ret []
  | x :: l' => y <- f x ;; ys <- mapM f l' ;; ret (y :: ys)
  end.

Definition logged {A} (m : M A) : list log_event := fst m.
Definition outcome {A} (m : M A) : result A := snd m.

(* ================================================================== *)
(** * The fragment of numpy the model uses                             *)
(* ================================================================== *)

Module Np.

Section Arrays.
Variable A : Type.
(** The filler of the list model for reads out of range; every read
    below is in range on a rectangular array. *)
Variable d : A.

(** [shape] of a two-dimensional array held as a list of rows. *)
Definition height (m : list (list A)) : nat := length m.
Definition width (m : list (list A)) : nat := length (hd [] m).

Definition rectangular (m : list (list A)) : bool :=
  forallb (fun r => Nat.eqb (length r) (width m)) m.

Definition has_shape (h w : nat) (m : list (list A)) : Prop :=
  length m = h /\ Forall (fun r => length r = w) m.

(** [m[i][j]] *)
Definition item (m : list (list A)) (i j : nat) : A :=
  nth j (nth i m []) d.

(** [m[idx[0], idx[1]]] for an index row produced by [argwhere] or
    kept by a bounds filter. *)
Definition item_at (m : list (list A)) (idx : Z * Z) : A :=
  item m (Z.to_nat (fst idx)) (Z.to_nat (snd idx)).

(** [a[mask]] with a boolean mask as long as [a]. *)
Fixpoint compress {B} (mask : list bool) (a : list B) : list B :=
  match mask, a with
  | b :: mask', x :: a' =>
      if b then x :: compress mask' a' else compress mask' a'
  | _, _ => []
  end.

(** [np.flip(m, 0)], [np.flip(m, 1)], [np.transpose(m)]. *)
Definition flip0 (m : list (list A)) : list (list A) := rev m.
Definition flip1 (m : list (list A)) : list (list A) := map (@rev A) m.

Definition transpose (m : list (list A)) : list (list A) :=
  map (fun j => map (fun r => nth j r d) m) (seq 0 (width m)).

(** [np.rot90(m, k)]: [k %= 4], then the four cases of numpy's source. *)
Definition rot90 (m : list (list A)) (k : Z) : list (list A) :=
  match (k mod 4)%Z with
  | 0%Z => m
  | 1%Z => transpose (flip1 m)
  | 2%Z => flip1 (flip0 m)
  | _ => flip1 (transpose m)
  end.

(** [np.argwhere(cond)]: the indexes of the true cells, row-major. *)
Fixpoint where_row (f : A -> bool) (i j : Z) (r : list A) : list (Z * Z) :=
  match r with
  | [] => []
  | x :: r' =>
      (if f x then [(i, j)] else []) ++ where_row f i (j + 1)%Z r'
  end.

Fixpoint argwhere_from (f : A -> bool) (i : Z) (m : list (list A))
  : list (Z * Z) :=
  match m with
  | [] => []
  | r :: m' => where_row f i 0%Z r ++ argwhere_from f (i + 1)%Z m'
  end.

Definition argwhere (f : A -> bool) (m : list (list A)) : list (Z * Z) :=
  argwhere_from f 0%Z m.

(** [np.all(a == b)] on two arrays with leading axes of lengths
    [length a] and [length b]: elementwise on equal lengths, broadcast
    when one side has length one, and (the numpy releases that still
    have [np.int], which the code uses) the scalar [False] on any
    other mismatch. *)
Definition all_eq (eqb : A -> A -> bool) (a b : list A) : bool :=
  if Nat.eqb (length a) (length b) then
    forallb (fun p => eqb (fst p) (snd p)) (combine a b)
  else match a, b with
       | [x], _ => forallb (fun y => eqb x y) b
       | _, [y] => forallb (fun x => eqb x y) a
       | _, _ => false
       end.

(** [a[mask] = v] on a two-dimensional array and mask. *)
Definition assign_where (mask : list (list bool)) (v : A)
           (a : list (list A)) : list (list A) :=
  map (fun rm : list A * list bool =>
         map (fun xm : A * bool => if snd xm then v else fst xm)
             (combine (fst rm) (snd rm)))
      (combine a mask).

(** [a[i] = x] on the leading axis, for [0 <= i < len(a)]. *)
Fixpoint set_item (i : nat) (x : A) (a : list A) : list A :=
  match a, i with
  | [], _ => []
  | _ :: a', O => x :: a'
  | y :: a', S i' => y :: set_item i' x a'
  end.

(** [a.reshape((-1, n))] of a flat array. *)
Fixpoint reshape_rows (rows n : nat) (a : list A) : list (list A) :=
  match rows with
  | O => []
  | S rows' => firstn n a :: reshape_rows rows' n (skipn n a)
  end.

End Arrays.

(** [np.any(b, axis=1)] and [np.any(b, axis=0)] of a boolean matrix. *)
Definition any_axis1 (b : list (list bool)) : list bool :=
  map (existsb (fun x => x)) b.

Definition any_axis0 (b : list (list bool)) : list bool :=
  map (fun j => existsb (fun r => nth j r false) b) (seq 0 (width b)).

(** [np.argmax] of a list of booleans: the first [True], else 0. *)
Fixpoint argmax (l : list bool) : nat :=
  match l with
  | [] => 0
  | true :: _ => 0
  | false :: l' => if existsb (fun x => x) l' then S (argmax l') else 0
  end.

(** [np.unique(rows, axis=0)]: the distinct rows in lexicographic order. *)
Definition row_ltb (a b : Z * Z) : bool :=
  Z.ltb (fst a) (fst b) || (Z.eqb (fst a) (fst b) && Z.ltb (snd a) (snd b)).

Fixpoint insert_row (x : Z * Z) (l : list (Z * Z)) : list (Z * Z) :=
  match l with
  | [] => [x]
  | y :: l' =>
      if row_ltb x y then x :: l
      else if row_ltb y x then y :: insert_row x l'
      else l
  end.

Definition unique_rows (l : list (Z * Z)) : list (Z * Z) :=
  fold_right insert_row [] l.

End Np.

(* ================================================================== *)
(** * tableturf/model                                                  *)
(* ================================================================== *)

(** Modelled from the spec: [tableturf/model/grid.py], the [Grid]
    enumeration of cell values, is not among the sources; the
    specification lists its members.  The integer [.value] of each member
    is a parameter of the development below. *)
Inductive Grid : Type :=
| Empty | Wall | MyInk | MySpecial | HisInk | HisSpecial.

(** The argument of [Pattern(...)], [Card(...)], [Stage(...)]: an array of
    [Grid] members or an array of their integer values. *)
Inductive ndarray : Type :=
| OfGrid (g : list (list Grid))
| OfInt (g : matrix).

Record Pattern : Type := mkPattern {
  p_grid : matrix;              (* self.__grid    *)
  p_squares : list Z;           (* self.__squares *)
  p_offsets : list (Z * Z);     (* self.__offsets *)
  p_size : nat                  (* self.__size    *)
}.

Record Card : Type := mkCard {
  c_sp_cost : Z;                (* self.__sp_cost  *)
  c_patterns : list Pattern;    (* self.__patterns *)
  c_size : nat                  (* self.__size     *)
}.

Record Stage : Type := mkStage {
  s_grid : matrix;                       (* self.__grid *)
  s_size : nat;                          (* self.__size *)
  s_fiery_grid : list (list bool);       (* self.__fiery_grid *)
  s_my_ink : list (Z * Z);
  s_my_sp : list (Z * Z);
  s_my_fiery_sp : list (Z * Z);
  s_my_unfiery_sp : list (Z * Z);
  s_my_neighborhoods : list (Z * Z);
  s_my_sp_neighborhoods : list (Z * Z);
  s_his_ink : list (Z * Z);
  s_his_sp : list (Z * Z);
  s_his_fiery_sp : list (Z * Z);
  s_his_unfiery_sp : list (Z * Z);
  s_his_neighborhoods : list (Z * Z);
  s_his_sp_neighborhoods : list (Z * Z)
}.

(** The placeholder read by [nth] past the end of a pattern list; a
    constructed Card always holds four patterns. *)
Definition no_pattern : Pattern := mkPattern [] [] [] 0.

(** [Stage.__NEIGHBOURHOOD_OFFSETS] *)
Definition NEIGHBOURHOOD_OFFSETS : list (Z * Z) :=
  [(-1, -1); (-1, 0); (-1, 1); (0, -1); (0, 1); (1, -1); (1, 0); (1, 1)]%Z.

Definition pair_eqb (a b : Z * Z) : bool :=
  Z.eqb (fst a) (fst b) && Z.eqb (snd a) (snd b).

Section Model.

(** [Grid.X.value]. *)
Variable value : Grid -> Z.

(** [np.vectorize(lambda x: x.value)(grid)] *)
Definition vectorize (g : list (list Grid)) : matrix := map (map value) g.

(** [grid[0][0]], the subject of the [isinstance] test that opens the
    constructors: it raises on an array without a first cell. *)
Definition first_cell (a : ndarray) : M unit :=
  match a with
  | OfGrid ((_ :: _) :: _) => ret tt
  | OfInt ((_ :: _) :: _) => ret tt
  | _ => raise IndexError
  end.

Definition values_of (a : ndarray) : matrix :=
  match a with
  | OfGrid g => vectorize g
  | OfInt g => g
  end.

(** ** Pattern *)

(** [inks = grid != Grid.Empty.value] *)
Definition inks (grid : matrix) : list (list bool) :=
  map (map (fun x => negb (Z.eqb x (value Empty)))) grid.

(** [grid[row_mask][:, col_mask]] *)
Definition trim (grid : matrix) : matrix :=
  let row_mask := Np.any_axis1 (inks grid) in
  let col_mask := Np.any_axis0 (inks grid) in
  map (Np.compress col_mask) (Np.compress row_mask grid).

Definition is_my (x : Z) : bool :=
  Z.eqb x (value MyInk) || Z.eqb x (value MySpecial).

(** [indexes[0]] *)
Definition first_index (indexes : list (Z * Z)) : M (Z * Z) :=
  match indexes with
  | [] => raise IndexError
  | i0 :: _ => ret i0
  end.

(** [Pattern.__init__] *)
Definition Pattern_init (a : ndarray) : M Pattern :=
  first_cell a ;;;
  let grid := values_of a in
  let g := trim grid in
  (if Nat.ltb 8 (Nat.min (Np.height g) (Np.width g))
   then warn (PatternTooLarge g) else ret tt) ;;;
  let indexes := Np.argwhere is_my g in
  let squares := map (Np.item_at 0%Z g) indexes in
  i0 <- first_index indexes ;;
  let offsets := map (fun i => (fst i - fst i0, snd i - snd i0)%Z) indexes in
  ret (mkPattern g squares offsets (length indexes)).

(** [Pattern.rotate] *)
Definition Pattern_rotate (p : Pattern) (rotate : Z) : M Pattern :=
  Pattern_init (OfInt (Np.rot90 0%Z (p_grid p) rotate)).

(** [Pattern.__eq__] on two Patterns. *)
Definition Pattern_eq (p q : Pattern) : bool :=
  Np.all_eq pair_eqb (p_offsets p) (p_offsets q)
  && Np.all_eq Z.eqb (p_squares p) (p_squares q).

(** ** Card *)

(** [np.rot90(grid, i)] on either kind of argument. *)
Definition rot90_arg (a : ndarray) (k : Z) : ndarray :=
  match a with
  | OfGrid g => OfGrid (Np.rot90 Empty g k)
  | OfInt g => OfInt (Np.rot90 0%Z g k)
  end.

(** [Card.__init__] *)
Definition Card_init (grid : ndarray) (sp_cost : Z) : M Card :=
  patterns <- mapM (fun i => Pattern_init (rot90_arg grid i)) [0; 1; 2; 3]%Z ;;
  ret (mkCard sp_cost patterns (p_size (nth 0 patterns no_pattern))).

(** [Card.get_pattern] *)
Definition get_pattern (c : Card) (rotate : Z) : Pattern :=
  nth (Z.to_nat (rotate mod 4)) (c_patterns c) no_pattern.

(** [Card.__eq__] on two Cards. *)
Definition Card_eq (a b : Card) : bool :=
  Pattern_eq (nth 0 (c_patterns a) no_pattern) (nth 0 (c_patterns b) no_pattern).

(** ** Stage *)

Section StageInit.
(** [self.__grid] while [Stage.__init__] runs. *)
Variable grid : matrix.

Definition neighborhoods (idx : Z * Z) : list (Z * Z) :=
  map (fun o => (fst o + fst idx, snd o + snd idx)%Z) NEIGHBOURHOOD_OFFSETS.

Definition within_grid (indexes : list (Z * Z)) : list (Z * Z) :=
  let m := Z.of_nat (Np.height grid) in
  let n := Z.of_nat (Np.width grid) in
  filter (fun i => (0 <=? fst i)%Z && (fst i <? m)%Z
                   && (0 <=? snd i)%Z && (snd i <? n)%Z) indexes.

Definition is_fiery (idx : Z * Z) : bool :=
  let nbhd := neighborhoods idx in
  let valid_nbhd := within_grid nbhd in
  forallb (fun i => negb (Z.eqb (Np.item_at 0%Z grid i) (value Empty)))
          valid_nbhd.

Definition split_sp (sp : list (Z * Z)) : list (Z * Z) * list (Z * Z) :=
  match sp with
  | [] => ([], [])
  | _ =>
      let is_sp_fiery := map is_fiery sp in
      (Np.compress is_sp_fiery sp, Np.compress (map negb is_sp_fiery) sp)
  end.

(** The rows of [np.full((8 - k, 2), -1)]. *)
Definition invalid_rows (k : nat) : list (Z * Z) := repeat (-1, -1)%Z (8 - k).

Definition ink_neighborhoods (idx : Z * Z) : list (Z * Z) :=
  let nbhd := within_grid (neighborhoods idx) in
  let valid_nbhd :=
    filter (fun i => Z.eqb (Np.item_at 0%Z grid i) (value Empty)) nbhd in
  valid_nbhd ++ invalid_rows (length valid_nbhd).

Definition collect_ink_neighborhoods (ink : list (Z * Z)) : list (Z * Z) :=
  within_grid (Np.unique_rows (flat_map ink_neighborhoods ink)).

Definition sp_neighborhoods (idx : Z * Z) : list (Z * Z) :=
  let nbhd := within_grid (neighborhoods idx) in
  let valid_nbhd :=
    filter (fun i => let v := Np.item_at 0%Z grid i in
                     Z.eqb v (value Empty) || Z.eqb v (value MyInk)
                     || Z.eqb v (value HisInk)) nbhd in
  valid_nbhd ++ invalid_rows (length valid_nbhd).

Definition collect_sp_neighborhoods (sp : list (Z * Z)) : list (Z * Z) :=
  within_grid (Np.unique_rows (flat_map sp_neighborhoods sp)).

(** [fiery_grid[idx[:, 0], idx[:, 1]] = True] *)
Definition set_true (fg : list (list bool)) (idx : list (Z * Z))
  : list (list bool) :=
  fold_left
    (fun fg i =>
       let r := Z.to_nat (fst i) in
       Np.set_item r (Np.set_item (Z.to_nat (snd i)) true (nth r fg [])) fg)
    idx fg.

Definition Stage_fields : Stage :=
  let size :=
    length (filter (fun x => negb (Z.eqb x (value Wall))) (concat grid)) in
  let my_ink :=
    Np.argwhere (fun x => Z.eqb x (value MyInk) || Z.eqb x (value MySpecial))
                grid in
  let my_sp := Np.argwhere (fun x => Z.eqb x (value MySpecial)) grid in
  let (my_fiery_sp, my_unfiery_sp) := split_sp my_sp in
  let my_neighborhoods := collect_ink_neighborhoods my_ink in
  let my_sp_neighborhoods := collect_sp_neighborhoods my_sp in
  let his_ink :=
    Np.argwhere (fun x => Z.eqb x (value HisInk) || Z.eqb x (value HisSpecial))
                grid in
  let his_sp := Np.argwhere (fun x => Z.eqb x (value HisSpecial)) grid in
  let (his_fiery_sp, his_unfiery_sp) := split_sp his_sp in
  let his_neighborhoods := collect_ink_neighborhoods his_ink in
  let his_sp_neighborhoods := collect_sp_neighborhoods his_sp in
  let fiery_grid :=
    set_true (set_true (map (map (fun _ => false)) grid) my_fiery_sp)
             his_fiery_sp in
  mkStage grid size fiery_grid
          my_ink my_sp my_fiery_sp my_unfiery_sp
          my_neighborhoods my_sp_neighborhoods
          his_ink his_sp his_fiery_sp his_unfiery_sp
          his_neighborhoods his_sp_neighborhoods.
End StageInit.

(** [Stage.__init__] *)
Definition Stage_init (a : ndarray) : M Stage :=
  first_cell a ;;;
  ret (Stage_fields (values_of a)).

End Model.

(* ================================================================== *)
(** * tableturf/manager/detection/card.py                              *)
(* ================================================================== *)

Module Detection.

Definition hsv : Type := (Z * Z * Z)%type.

Definition HANDS_GRID_ROI_WIDTH : Z := 14.
Definition HANDS_GRID_ROI_HEIGHT : Z := 14.

Definition MY_INK_LIGHTER_COLOR_HSV_UPPER_BOUND : hsv := (35, 255, 255)%Z.
Definition MY_INK_LIGHTER_COLOR_HSV_LOWER_BOUND : hsv := (30, 100, 150)%Z.
Definition MY_SPECIAL_LIGHTER_COLOR_HSV_UPPER_BOUND : hsv := (25, 255, 255)%Z.
Definition MY_SPECIAL_LIGHTER_COLOR_HSV_LOWER_BOUND : hsv := (20, 100, 150)%Z.
Definition MY_INK_DARKER_COLOR_HSV_UPPER_BOUND : hsv := (35, 255, 140)%Z.
Definition MY_INK_DARKER_COLOR_HSV_LOWER_BOUND : hsv := (27, 100, 100)%Z.
Definition MY_SPECIAL_DARKER_COLOR_HSV_UPPER_BOUND : hsv := (27, 255, 140)%Z.
Definition MY_SPECIAL_DARKER_COLOR_HSV_LOWER_BOUND : hsv := (15, 100, 100)%Z.

(** [GRID_PIXEL_RATIO = 0.3].  A ratio is a pixel count over 196; the
    comparison [ratio > 0.3] is kept in exact rationals (no count over
    196 is within rounding distance of 0.3). *)
Definition GRID_PIXEL_RATIO : Q := (3 # 10)%Q.

(** [ratios > GRID_PIXEL_RATIO] *)
Definition exceeds (r : Q) : bool := negb (Qle_bool r GRID_PIXEL_RATIO).

(** [np.maximum] on two ratios. *)
Definition maximum (a b : Q) : Q := if Qle_bool a b then b else a.

Section Hands.
Variable value : Grid -> Z.

(** A captured frame, and the count [np.sum(mask == 255)] of the pixels
    of its block at [top_left] that [cv2.inRange] finds between the two
    HSV bounds (OpenCV is outside the sources). *)
Variable frame : Type.
Variable in_range_count : frame -> Z * Z -> hsv -> hsv -> Z.

(** [tableturf.manager.detection.ui.hands_cursor] *)
Variable hands_cursor : frame -> Z.

(** The four ROI tables, shapes (4, 64, 2) and (4, 6, 2); they are
    built by [util.grid_roi_top_lefts], which is outside the sources. *)
Variable HANDS_GRID_NUMPY_ROI_TOP_LEFTS : list (list (Z * Z)).
Variable HANDS_COST_NUMPY_ROI_TOP_LEFTS : list (list (Z * Z)).
Variable FOCUS_GRID_NUMPY_ROI_TOP_LEFTS : list (list (Z * Z)).
Variable FOCUS_COST_NUMPY_ROI_TOP_LEFTS : list (list (Z * Z)).

(** The inner [__grid_ratios]. *)
Definition grid_ratios (img : frame) (top_left : Z * Z)
           (lower_bound upper_bound : hsv) : Q :=
  (inject_Z (in_range_count img top_left lower_bound upper_bound)
   / inject_Z (HANDS_GRID_ROI_WIDTH * HANDS_GRID_ROI_HEIGHT))%Q.

(** [rois = NORMAL.copy(); if 0 <= cursor < 4: rois[cursor] = FOCUS[cursor]] *)
Definition choose_rois (normal focus : list (list (Z * Z))) (cursor : Z)
  : list (list (Z * Z)) :=
  if (0 <=? cursor)%Z && (cursor <? 4)%Z
  then Np.set_item (Z.to_nat cursor) (nth (Z.to_nat cursor) focus []) normal
  else normal.

Definition ratios_of (img : frame) (rois : list (list (Z * Z)))
           (lower_bound upper_bound : hsv) : list (list Q) :=
  map (map (fun idx => grid_ratios img idx lower_bound upper_bound)) rois.

(** The four masked assignments that classify the cells (lines 83-87). *)
Definition classify (grid_ink_ratios grid_special_ratios
                     dark_grid_ink_ratios dark_grid_special_ratios
                     : list (list Q)) : matrix :=
  let grids := map (map (fun _ => 0%Z)) grid_ink_ratios in
  let grids :=
    Np.assign_where (map (map exceeds) grid_ink_ratios) (value MyInk) grids in
  let grids :=
    Np.assign_where (map (map exceeds) grid_special_ratios)
                    (value MySpecial) grids in
  let grids :=
    Np.assign_where (map (map exceeds) dark_grid_ink_ratios)
                    (value MyInk) grids in
  Np.assign_where (map (map exceeds) dark_grid_special_ratios)
                  (value MySpecial) grids.

Definition grid_rois_of (img : frame) (cursor : option Z) : list (list (Z * Z)) :=
  let cursor := match cursor with None => hands_cursor img | Some c => c end in
  choose_rois HANDS_GRID_NUMPY_ROI_TOP_LEFTS FOCUS_GRID_NUMPY_ROI_TOP_LEFTS cursor.

Definition cost_rois_of (img : frame) (cursor : option Z) : list (list (Z * Z)) :=
  let cursor := match cursor with None => hands_cursor img | Some c => c end in
  choose_rois HANDS_COST_NUMPY_ROI_TOP_LEFTS FOCUS_COST_NUMPY_ROI_TOP_LEFTS cursor.

(** The classified cells [grids] of shape (4, 64), before the reshape. *)
Definition hands_grids (img : frame) (cursor : option Z) : matrix :=
  let grid_rois := grid_rois_of img cursor in
  classify
    (ratios_of img grid_rois MY_INK_LIGHTER_COLOR_HSV_LOWER_BOUND
               MY_INK_LIGHTER_COLOR_HSV_UPPER_BOUND)
    (ratios_of img grid_rois MY_SPECIAL_LIGHTER_COLOR_HSV_LOWER_BOUND
               MY_SPECIAL_LIGHTER_COLOR_HSV_UPPER_BOUND)
    (ratios_of img grid_rois MY_INK_DARKER_COLOR_HSV_LOWER_BOUND
               MY_INK_DARKER_COLOR_HSV_UPPER_BOUND)
    (ratios_of img grid_rois MY_SPECIAL_DARKER_COLOR_HSV_LOWER_BOUND
               MY_SPECIAL_DARKER_COLOR_HSV_UPPER_BOUND).

(** [costs = np.sum(np.maximum(cost_ratios, dark_cost_ratios) > R, axis=1)] *)
Definition hands_costs (img : frame) (cursor : option Z) : list Z :=
  let cost_rois := cost_rois_of img cursor in
  let cost_ratios :=
    ratios_of img cost_rois MY_SPECIAL_LIGHTER_COLOR_HSV_LOWER_BOUND
              MY_SPECIAL_LIGHTER_COLOR_HSV_UPPER_BOUND in
  let dark_cost_ratios :=
    ratios_of img cost_rois MY_SPECIAL_DARKER_COLOR_HSV_LOWER_BOUND
              MY_SPECIAL_DARKER_COLOR_HSV_UPPER_BOUND in
  let cost_ratios :=
    map (fun p : list Q * list Q =>
           map (fun q : Q * Q => maximum (fst q) (snd q))
               (combine (fst p) (snd p)))
        (combine cost_ratios dark_cost_ratios) in
  map (fun r => Z.of_nat (length (filter exceeds r))) cost_ratios.

(** [hands]; the [debug] branch only draws overlays and is left out. *)
Definition hands (img : frame) (cursor : option Z) : M (list Card) :=
  let grids := map (Np.reshape_rows 8 8) (hands_grids img cursor) in
  let costs := hands_costs img cursor in
  mapM (fun i => Card_init value (OfInt (nth i grids [])) (nth i costs 0%Z))
       [0; 1; 2; 3].

End Hands.

End Detection.

(* ================================================================== *)
(** * tableturf/manager/tableturf.py                                   *)
(* ================================================================== *)

Module Manager.

(** ** The stabilising wrapper [__multi_detect] *)

Section MultiDetect.
(** What a detector returns, as far as the comparisons of lines 65-69
    are modelled.  A member is either
    - a value of [V], a class of values whose [==] with each other is a
      truth value, [veq]: ints, bools, or the objects the detectors of
      this program return (Cards and lists of Cards, Stages, Patterns);
    - a one-dimensional ndarray of integers.
    A sample is a member or a tuple of members. *)
Variable V : Type.
Variable veq : V -> V -> bool.      (* [a == b] on values of [V] *)

Inductive member : Type :=
| Value (v : V)
| Ndarray (a : list Z).

Inductive sample : Type :=
| Plain (x : member)
| Tuple (t : list member).

(** [a == b] on two one-dimensional ndarrays: the array of the
    elementwise results on equal lengths, or when one side has length one
    (broadcast); the scalar [False] on any other mismatch (the numpy
    releases that still have [np.int], which the code uses). *)
Definition ndarray_eq (a b : list Z) : list bool + bool :=
  if Nat.eqb (length a) (length b)
  then inl (map (fun p => Z.eqb (fst p) (snd p)) (combine a b))
  else match a, b with
       | [x], _ => inl (map (fun y => Z.eqb x y) b)
       | _, [y] => inl (map (fun x => Z.eqb x y) a)
       | _, _ => inr false
       end.

(** How the test of one poll ends. *)
Inductive verdict : Type :=
| Pass          (* the test holds: [return current]               *)
| Fail          (* the test does not hold: [previous = current]   *)
| Ambiguous     (* the test raises [ValueError]: "The truth value
                   of an array with more than one element is
                   ambiguous"                                      *)
| Unmodelled.   (* a comparison that is outside this model        *)

(** The truth test of [elif current == previous:] on the result of a
    comparison: an array of one element has the truth value of that
    element, an empty array is false (with a DeprecationWarning), any
    other array has none. *)
Definition truth (r : list bool + bool) : verdict :=
  match r with
  | inr b => if b then Pass else Fail
  | inl [] => Fail
  | inl [b] => if b then Pass else Fail
  | inl _ => Ambiguous
  end.

(** [TableTurfManager.__equal] (lines 52-57): [np.all(a == b)] on two
    ndarrays, [a == b] otherwise.  [None]: an ndarray against a value of
    [V], whose [==] is outside this model. *)
Definition equal (a b : member) : option bool :=
  match a, b with
  | Ndarray a, Ndarray b =>
      Some (match ndarray_eq a b with
            | inl results => forallb (fun x => x) results
            | inr result => result
            end)
  | Value a, Value b => Some (veq a b)
  | _, _ => None
  end.

(** [np.all([...])] on the results of [__equal], which are all truth
    values. *)
Definition all_members (results : list (option bool)) : verdict :=
  if forallb (fun r => match r with Some _ => true | None => false end) results
  then if forallb (fun r => match r with Some b => b | None => false end)
                  results
       then Pass else Fail
  else Unmodelled.

(** The test of lines 65-69 on [previous] and [current]: two tuples
    are compared member by member (lines 65-67), anything else with
    [current == previous] (line 68).  [==] between a tuple and a
    non-tuple, and between an ndarray and a value of [V], depends on the
    classes at hand (a numpy scalar compares elementwise with a tuple)
    and is outside this model. *)
Definition settled (previous current : sample) : verdict :=
  match previous, current with
  | Tuple p, Tuple c =>
      if Nat.eqb (length p) (length c)
      then all_members (map (fun ab => equal (fst ab) (snd ab)) (combine p c))
      else Fail
  | Plain (Value p), Plain (Value c) => if veq c p then Pass else Fail
  | Plain (Ndarray p), Plain (Ndarray c) => truth (ndarray_eq c p)
  | _, _ => Unmodelled
  end.

(** [detect_fn(self.__capture(), ...)]: the sample the [k]-th poll of
    this call obtains, [k = 0, 1, ...]. *)
Variable detect_fn : nat -> sample.

(** The state of the loop: how many polls were made, and the log. *)
Record detected : Type := mkDetected {
  d_value : sample;
  d_polls : nat;
  d_log : list log_event
}.

(** How a call of the wrapper ends: it returns, or the test of the
    [polls]-th poll raises [ValueError], or leaves the model. *)
Inductive detection : Type :=
| Returned (d : detected)
| RaisedValueError (polls : nat)
| Outside (polls : nat).

(** [for _ in range(max_loop): ...] with [polls] samples already
    taken, followed by the warning and [return previous]. *)
Fixpoint detect_loop (remaining polls : nat) (previous : sample) : detection :=
  match remaining with
  | O => Returned (mkDetected previous polls [MultiDetectExceeded])
  | S remaining' =>
      let current := detect_fn polls in
      match settled previous current with
      | Pass => Returned (mkDetected current (S polls) [])
      | Fail => detect_loop remaining' (S polls) current
      | Ambiguous => RaisedValueError (S polls)
      | Unmodelled => Outside (S polls)
      end
  end.

Definition multi_detect (max_loop : nat) : detection :=
  let previous := detect_fn 0 in
  detect_loop max_loop 1 previous.

End MultiDetect.

Arguments Ndarray {V}.
Arguments RaisedValueError {V}.
Arguments Outside {V}.

(** [max_loop=100] *)
Definition default_max_loop : nat := 100.

(** ** The rotation loop of [__move] (lines 205-218) *)

Section Rotate.
(** [action.rotate_card_marco] and [action.compare_pattern] (the
    [action] package is outside the sources). *)
Variable macro : Type.
Variable rotate_card_marco : Z -> macro.
Variable compare_pattern : Pattern -> Pattern -> bool.

(** The game as the loop meets it: reading the settled preview
    ([__multi_detect(detection.preview)]) and the effect of a macro sent
    through the controller. *)
Variable world : Type.
Variable preview : world -> Pattern * world.
Variable send : macro -> world -> world.

(** Lines 210-212. *)
Definition current_rotate (all_patterns : list Pattern) (actual : Pattern)
  : nat :=
  let current_rotate :=
    Np.argmax (map (fun pattern => Pattern_eq pattern actual) all_patterns) in
  if Nat.eqb current_rotate 0
     && negb (Pattern_eq (nth 0 all_patterns no_pattern) actual)
  then Np.argmax (map (fun pattern => compare_pattern pattern actual)
                      all_patterns)
  else current_rotate.

(** The integers an [np.int64] holds. *)
Definition int64 (z : Z) : bool := ((- 2 ^ 63 <=? z) && (z <? 2 ^ 63))%Z.

(** Line 213, [(target_rotate + 4 - current_rotate) % 4]:
    [target_rotate] is a Python int and [current_rotate] the [np.int64]
    that [np.argmax] returns.  While [target_rotate + 4] and the
    difference are within int64 this is integer arithmetic.  Beyond,
    numpy leaves the integers (float64 when an operand only fits
    uint64), which is outside this model: [None]. *)
Definition rotate_steps (target_rotate : Z) (current : nat) : option Z :=
  if int64 (target_rotate + 4)
     && int64 (target_rotate + 4 - Z.of_nat current)
  then Some ((target_rotate + 4 - Z.of_nat current) mod 4)%Z
  else None.

(** How the loop is found after [fuel] iterations: stopped at its
    [break], still running, or outside the model of line 213. *)
Inductive loop_result (A : Type) : Type :=
| Stopped (a : A)
| Running
| OutsideModel.
Arguments Running {A}.
Arguments OutsideModel {A}.

(** [while True: ...]; [fuel] bounds the number of iterations.  The
    result at the [break] is the macros sent, in order, and the world. *)
Fixpoint rotate_loop (fuel : nat) (target_rotate : Z)
         (all_patterns : list Pattern) (w : world)
  : loop_result (list macro * world) :=
  match fuel with
  | O => Running
  | S fuel' =>
      let (actual, w1) := preview w in
      match rotate_steps target_rotate (current_rotate all_patterns actual) with
      | None => OutsideModel
      | Some rotate =>
          if Z.eqb rotate 0 then Stopped ([], w1)
          else
            let macro := rotate_card_marco rotate in
            match rotate_loop fuel' target_rotate all_patterns (send macro w1) with
            | Stopped (sent, w') => Stopped (macro :: sent, w')
            | Running => Running
            | OutsideModel => OutsideModel
            end
      end
  end.

(** [if step.rotate > 0: ...] *)
Definition rotate_card (fuel : nat) (step_rotate : Z) (card : Card) (w : world)
  : loop_result (list macro * world) :=
  if (step_rotate >? 0)%Z then
    let all_patterns := map (get_pattern card) [0; 1; 2; 3]%Z in
    rotate_loop fuel step_rotate all_patterns w
  else Stopped ([], w).

End Rotate.

Arguments Running {A}.
Arguments OutsideModel {A}.

End Manager.

(* ================================================================== *)
(** * Notions used to state and prove the properties                   *)
(* ================================================================== *)

(** The test behind [inks], on one cell. *)
Definition not_Empty (value : Grid -> Z) (x : Z) : bool :=
  negb (Z.eqb x (value Empty)).

(** A grid is [packed] when it has the given positive shape and no row
    and no column of it is all Empty. *)
Definition packed (value : Grid -> Z) (h w : nat) (g : matrix) : Prop :=
  Np.has_shape h w g /\ 0 < h /\ 0 < w
  /\ (forall i, i < h ->
      exists j, j < w /\ not_Empty value (Np.item 0%Z g i j) = true)
  /\ (forall j, j < w ->
      exists i, i < h /\ not_Empty value (Np.item 0%Z g i j) = true).

Definition has_my_cell (value : Grid -> Z) (h w : nat) (g : matrix) : Prop :=
  exists i j, i < h /\ j < w /\ is_my value (Np.item 0%Z g i j) = true.

(** What lines 22-25 of [Pattern.__init__] store for a trimmed grid [g]
    on which [indexes] is not empty. *)
Definition pattern_of (value : Grid -> Z) (g : matrix) : Pattern :=
  let indexes := Np.argwhere (is_my value) g in
  let i0 := hd (0, 0)%Z indexes in
  mkPattern g (map (Np.item_at 0%Z g) indexes)
            (map (fun i => (fst i - fst i0, snd i - snd i0)%Z) indexes)
            (length indexes).

(** The warning of lines 18-19. *)
Definition size_warning (g : matrix) : list log_event :=
  if Nat.ltb 8 (Nat.min (Np.height g) (Np.width g))
  then [PatternTooLarge g] else [].

(** [p.rotate(1).rotate(1).rotate(1).rotate(1)] *)
Definition rotate_four_times (value : Grid -> Z) (p : Pattern) : M Pattern :=
  p1 <- Pattern_rotate value p 1 ;;
  p2 <- Pattern_rotate value p1 1 ;;
  p3 <- Pattern_rotate value p2 1 ;;
  Pattern_rotate value p3 1.

(** The minimal bounding box of the non-Empty cells, in the words of the
    specification: the rows from the first to the last one that holds a
    non-Empty cell, cut to the columns from the first to the last one that
    holds a non-Empty cell, every cell in between kept. *)
Fixpoint first_true (mask : list bool) : nat :=
  match mask with
  | [] => 0
  | true :: _ => 0
  | false :: mask' => S (first_true mask')
  end.

Definition span {B} (mask : list bool) (l : list B) : list B :=
  firstn (length mask - first_true mask - first_true (rev mask))
         (skipn (first_true mask) l).

Definition bounding_box (value : Grid -> Z) (grid : matrix) : matrix :=
  let row_mask := Np.any_axis1 (inks value grid) in
  let col_mask := Np.any_axis0 (inks value grid) in
  map (span col_mask) (span row_mask grid).

(** One assignment of values to the members of [Grid], used to run the
    model on concrete inputs. *)
Definition example_value (g : Grid) : Z :=
  match g with
  | Empty => 0 | MyInk => 1 | MySpecial => 2
  | HisInk => 3 | HisSpecial => 4 | Wall => 5
  end%Z.

(** ** The fiery predicate in the words of the specification *)

(** [nb] is one of the eight cells around [c]. *)
Definition neighbour8 (c nb : Z * Z) : Prop :=
  nb <> c /\ (Z.abs (fst nb - fst c) <= 1)%Z /\ (Z.abs (snd nb - snd c) <= 1)%Z.

Definition in_bounds (g : matrix) (i : Z * Z) : Prop :=
  (0 <= fst i < Z.of_nat (Np.height g))%Z
  /\ (0 <= snd i < Z.of_nat (Np.width g))%Z.

(** Every in-bounds neighbour of [c] is non-Empty. *)
Definition fiery_cell (value : Grid -> Z) (g : matrix) (c : Z * Z) : Prop :=
  forall nb, neighbour8 c nb -> in_bounds g nb ->
             Np.item_at 0%Z g nb <> value Empty.

(** At least one in-bounds neighbour of [c] is Empty. *)
Definition has_Empty_neighbour (value : Grid -> Z) (g : matrix) (c : Z * Z)
  : Prop :=
  exists nb, neighbour8 c nb /\ in_bounds g nb
             /\ Np.item_at 0%Z g nb = value Empty.

(** [c] is the index of a cell of [g] that holds [v]. *)
Definition cell_is (g : matrix) (v : Z) (c : Z * Z) : Prop :=
  (0 <= fst c < Z.of_nat (length g))%Z
  /\ (0 <= snd c < Z.of_nat (length (nth (Z.to_nat (fst c)) g [])))%Z
  /\ Np.item_at 0%Z g c = v.

(** [fiery] and [unfiery] split the special cells [sp] of one player by
    the fiery predicate. *)
Definition fiery_split (value : Grid -> Z) (g : matrix)
           (sp fiery unfiery : list (Z * Z)) : Prop :=
  (forall c, In c fiery <-> In c sp /\ fiery_cell value g c)
  /\ (forall c, In c unfiery <-> In c sp /\ has_Empty_neighbour value g c)
  /\ (forall c, In c fiery -> ~ In c unfiery)
  /\ Permutation (fiery ++ unfiery) sp.

(** ** Notions for the hand detector *)

(** The row lengths of a two-dimensional array. *)
Definition shape_of {A} (a : list (list A)) : list nat := map (@length A) a.

(** What the four assignments of lines 83-87 leave in one cell, from the
    four threshold tests of that cell. *)
Definition classify_cell (value : Grid -> Z)
           (ink special dark_ink dark_special : bool) : Z :=
  if dark_special then value MySpecial
  else if dark_ink then value MyInk
  else if special then value MySpecial
  else if ink then value MyInk
  else 0%Z.

(** A frame for concrete runs: the frame is the table of its counts. *)
Definition example_frame : Type := Z * Z -> Detection.hsv -> Z.

Definition example_count (img : example_frame) (top_left : Z * Z)
           (lower_bound upper_bound : Detection.hsv) : Z :=
  img top_left lower_bound.

Definition hsv_eqb (a b : Detection.hsv) : bool :=
  Z.eqb (fst (fst a)) (fst (fst b)) && Z.eqb (snd (fst a)) (snd (fst b))
  && Z.eqb (snd a) (snd b).

(** ROI tables of shape (4, 64) and (4, 6) with pairwise different blocks. *)
Definition example_rois (base : Z) (n : nat) : list (list (Z * Z)) :=
  map (fun i => map (fun k => (base + Z.of_nat i, Z.of_nat k)%Z) (seq 0 n))
      (seq 0 4).

(** In the block of slot 0, cell 0, sixty pixels of the special-lighter
    band and sixty of the ink-darker band; nothing else anywhere. *)
Definition mixed_cell_frame : example_frame :=
  fun top_left lower_bound =>
    if pair_eqb top_left (0, 0)%Z
       && (hsv_eqb lower_bound Detection.MY_SPECIAL_LIGHTER_COLOR_HSV_LOWER_BOUND
           || hsv_eqb lower_bound Detection.MY_INK_DARKER_COLOR_HSV_LOWER_BOUND)
    then 60%Z else 0%Z.

(** ** Concrete runs of the manager loops *)




(** A detector that returns the bare ndarray [array([k, 0])] at poll [k]. *)
Definition samples_bare : nat -> Manager.sample Z :=
  fun k => Manager.Plain (Manager.Ndarray [Z.of_nat k; 0%Z]).




(** A three-cell L-shaped card. *)
Definition L_grid : list (list Grid) := [[MyInk; Empty]; [MyInk; MyInk]].

Definition L_card : Card :=
  Eval vm_compute in
    match outcome (Card_init example_value (OfGrid L_grid) 2) with
    | Ok c => c
    | Raise _ => mkCard 0 [] 0
    end.

(** A game that previews the card in its current rotation [r] and turns
    it by the number of quarter turns a macro stands for. *)
Definition turning_preview (card : Card) (r : Z) : Pattern * Z :=
  (get_pattern card r, r).

Definition turning_send (quarter_turns : Z) (r : Z) : Z :=
  ((r + quarter_turns) mod 4)%Z.

(** The four patterns of [card] are pairwise different under
    [Pattern.__eq__], so that the exact match of line 210 tells the
    rotation shown. *)
Definition exact_rotations (card : Card) : bool :=
  forallb
    (fun i =>
       forallb (fun j => Bool.eqb (Pattern_eq (get_pattern card i)
                                              (get_pattern card j))
                                  (Z.eqb i j))
               [0; 1; 2; 3]%Z)
    [0; 1; 2; 3]%Z.

(** ** The readings of the rotation loop *)

Section Readings.
Variables macro world : Type.
Variable rotate_card_marco : Z -> macro.
Variable compare_pattern : Pattern -> Pattern -> bool.
Variable preview : world -> Pattern * world.
Variable send : macro -> world -> world.
Variable target : Z.
Variable card : Card.

(** The rotation index the loop detects in the world [w] (lines 209-212). *)
Definition detected_rotation (w : world) : nat :=
  Manager.current_rotate compare_pattern
                         (map (get_pattern card) [0; 1; 2; 3]%Z)
                         (fst (preview w)).

(** [steps = (target - current + 4) mod 4], in the words of the
    specification. *)
Definition steps_at (w : world) : Z :=
  ((target - Z.of_nat (detected_rotation w) + 4) mod 4)%Z.

(** The world the loop reads at its [k]-th iteration, [k = 0, 1, ...],
    when after every reading the rotate macro for its steps is sent. *)
Fixpoint reading (k : nat) (w : world) : world :=
  match k with
  | O => w
  | S k' => reading k' (send (rotate_card_marco (steps_at w)) (snd (preview w)))
  end.

End Readings.

Module Mask.

Definition all_true (mask : list bool) : bool := forallb (fun x => x) mask.

Definition count_true (mask : list bool) : nat :=
  length (filter (fun x => x) mask).

(** The position in [mask] of its [k]-th true entry. *)
Fixpoint sel (mask : list bool) (k : nat) : nat :=
  match mask with
  | [] => 0
  | true :: mask' => match k with O => 0 | S k' => S (sel mask' k') end
  | false :: mask' => S (sel mask' k)
  end.

End Mask.

(* ================================================================== *)
(** * Further notions: order of index rows                             *)
(* ================================================================== *)

(** Row-major (lexicographic) order on index rows. *)
Definition row_lt (a b : Z * Z) : Prop := Np.row_ltb a b = true.

(** [Pattern.__hash__] and [Card.__hash__].  The first is
    [hash(str(self.__offsets))]; what Python's [hash] makes of the printed
    offsets is the parameter [hash_str]. *)
Definition Pattern_hash (hash_str : list (Z * Z) -> Z) (p : Pattern) : Z :=
  hash_str (p_offsets p).

Definition Card_hash (hash_str : list (Z * Z) -> Z) (c : Card) : Z :=
  Pattern_hash hash_str (nth 0 (c_patterns c) no_pattern).

(** [Stage.__eq__] on two Stages: [np.all(self.__grid == other.__grid)].
    The grids of constructed Stages have a first cell, so both axes have
    positive length, where numpy's broadcasting of a two-dimensional
    comparison is the broadcasting of the rows of broadcast columns. *)
Definition Stage_eq (a b : Stage) : bool :=
  Np.all_eq (Np.all_eq Z.eqb) (s_grid a) (s_grid b).

(** One counterclockwise quarter turn, [np.rot90(m, 1)]. *)
Definition quarter_turn {A} (d : A) (m : list (list A)) : list (list A) :=
  Np.rot90 d m 1.

(** A shape with both sides positive. *)
Definition solid {A} (m : list (list A)) : Prop :=
  exists h w, Np.has_shape h w m /\ 0 < h /\ 0 < w.

(* ================================================================== *)
(** * More of tableturf/manager/tableturf.py                           *)
(* ================================================================== *)

Module Session.

(** Modelled from the spec: [tableturf/manager/data.py] ([Stats],
    [Result]) is not among the sources; these are the fields the manager
    reads and writes.  Times are rationals. *)
Record Stats : Type := mkStats {
  win : Z;
  battle : Z;
  time : Q;
  start_time : Q
}.

Record Result : Type := mkResult {
  my_ink : Z;
  his_ink : Z
}.

(** [Exit.__init__]: the three optional thresholds. *)
Record Exit : Type := mkExit {
  max_win : option Z;
  max_battle : option Z;
  max_time : option Z
}.

(** [Exit()] *)
Definition Exit_default : Exit := mkExit None None None.

(** [Exit.exit] *)
Definition exit (self : Exit) (stats : Stats) : bool :=
  if match max_win self with
     | Some m => Z.leb m (win stats)
     | None => false
     end then true
  else if match max_battle self with
          | Some m => Z.leb m (battle stats)
          | None => false
          end then true
  else if match max_time self with
          | Some m => Qle_bool (inject_Z m) (time stats)
          | None => false
          end then true
  else false.

(** [__get_result]: after the wait and a capture it returns
    [Result(0, 0)]. *)
Definition get_result : Result := mkResult 0 0.

(** [__update_stats], with [now] the clock reading it takes. *)
Definition update_stats (result : Result) (now : Q) (stats : Stats) : Stats :=
  let win' := if Z.ltb (his_ink result) (my_ink result)
              then (win stats + 1)%Z else win stats in
  mkStats win' (battle stats + 1)%Z (now - start_time stats)%Q (start_time stats).

(** The outer loop of [run], as far as [stats] goes: a match is played
    (deck selection, redraw and the twelve rounds do not touch [stats]),
    its result is read, the stats are updated and the exit policy is
    asked.  [clock n] is the clock at the end of the [n]-th match, [fuel]
    bounds the number of matches, [None] is a loop still running; the
    result carries the number of matches played. *)
Fixpoint run_matches (fuel : nat) (closer : Exit) (clock : nat -> Q)
         (played : nat) (stats : Stats) : option (Stats * nat) :=
  match fuel with
  | O => None
  | S fuel' =>
      let result := get_result in
      let stats' := update_stats result (clock played) stats in
      let close := exit closer stats' in
      if close then Some (stats', S played)
      else run_matches fuel' closer clock (S played) stats'
  end.



(** What [__close] does to the console, in order. *)
Inductive close_event : Type :=
| PressA                          (* [press_buttons([Button.A])] *)
| Macro (target current : Z)      (* [macro(move_replay_cursor_marco(target, current))] *)
| Sleep.                          (* [sleep(0.5)] *)

(** The [while True] loop of [__close] (lines 253-265).
    [replay_cursor n] is what the [n]-th stabilised reading of the replay
    cursor gives; [None] is a loop still running when [fuel] readings
    were made. *)
Fixpoint close_loop (fuel : nat) (replay_cursor : nat -> Z) (target : Z)
         (polls : nat) (count : Z) : option (list close_event) :=
  match fuel with
  | O => None
  | S fuel' =>
      let current := replay_cursor polls in
      if Z.eqb current target then Some []
      else
        let moved := if negb (Z.eqb current (-1))
                     then Macro target current else Sleep in
        let count' := ((count + 1) mod 6)%Z in
        let unlock := if Z.eqb count' 0 then [PressA] else [] in
        match close_loop fuel' replay_cursor target (S polls) count' with
        | Some rest => Some (moved :: unlock ++ rest)
        | None => None
        end
  end.

(** The console event of one reading that misses the target. *)
Definition moved_event (target current : Z) : close_event :=
  if negb (Z.eqb current (-1)) then Macro target current else Sleep.

Definition is_PressA (e : close_event) : bool :=
  match e with PressA => true | _ => false end.

(** What the loop of [__close] does over [n] readings that miss the
    target: for the [k]-th of them, [k = 0, 1, ...], the move or the
    sleep, followed by a press of A when [k + 1] is a multiple of 6. *)
Definition close_events (target : Z) (replay_cursor : nat -> Z) (n : nat)
  : list close_event :=
  flat_map (fun k => moved_event target (replay_cursor k)
                     :: (if Z.eqb ((Z.of_nat k + 1) mod 6) 0
                         then [PressA] else []))
           (seq 0 n).

(** [__close] *)
Definition close (fuel : nat) (replay_cursor : nat -> Z) (close : bool)
  : option (list close_event) :=
  let target := if close then 0%Z else 1%Z in
  match close_loop fuel replay_cursor target 0 0 with
  | Some events => Some ([PressA; PressA] ++ events ++ [PressA; PressA])
  | None => None
  end.

End Session.

(** A two-cell card that looks the same after a half turn. *)
Definition domino_card : Card :=
  Eval vm_compute in
    match outcome (Card_init example_value (OfGrid [[MyInk; MyInk]]) 1) with
    | Ok c => c
    | Raise _ => mkCard 0 [] 0
    end.

(** ** The threshold tests of [hands] on one block *)

Section Bands.
Variable frame : Type.
Variable in_range_count : frame -> Z * Z -> Detection.hsv -> Detection.hsv -> Z.
Variable img : frame.

(** [__grid_ratios(top_left, lower_bound, upper_bound) > GRID_PIXEL_RATIO] *)
Definition passes (lower_bound upper_bound : Detection.hsv) (top_left : Z * Z)
  : bool :=
  Detection.exceeds
    (Detection.grid_ratios in_range_count img top_left lower_bound upper_bound).

Definition ink_lighter : Z * Z -> bool :=
  passes Detection.MY_INK_LIGHTER_COLOR_HSV_LOWER_BOUND
         Detection.MY_INK_LIGHTER_COLOR_HSV_UPPER_BOUND.

Definition special_lighter : Z * Z -> bool :=
  passes Detection.MY_SPECIAL_LIGHTER_COLOR_HSV_LOWER_BOUND
         Detection.MY_SPECIAL_LIGHTER_COLOR_HSV_UPPER_BOUND.

Definition ink_darker : Z * Z -> bool :=
  passes Detection.MY_INK_DARKER_COLOR_HSV_LOWER_BOUND
         Detection.MY_INK_DARKER_COLOR_HSV_UPPER_BOUND.

Definition special_darker : Z * Z -> bool :=
  passes Detection.MY_SPECIAL_DARKER_COLOR_HSV_LOWER_BOUND
         Detection.MY_SPECIAL_DARKER_COLOR_HSV_UPPER_BOUND.

(** Some band passes on the block. *)
Definition any_band (top_left : Z * Z) : bool :=
  ink_lighter top_left || special_lighter top_left
  || ink_darker top_left || special_darker top_left.

(** A cost pip counts when a special band passes on its block. *)
Definition pip_lit (top_left : Z * Z) : bool :=
  special_lighter top_left || special_darker top_left.

(** What [hands] writes for the block, see [classify_cell]. *)
Definition classified (value : Grid -> Z) (top_left : Z * Z) : Z :=
  classify_cell value (ink_lighter top_left) (special_lighter top_left)
                (ink_darker top_left) (special_darker top_left).

End Bands.

(** A frame in which every block holds sixty pixels of the ink-lighter
    band and nothing else. *)
Definition full_hand_frame : example_frame :=
  fun _ lower_bound =>
    if hsv_eqb lower_bound Detection.MY_INK_LIGHTER_COLOR_HSV_LOWER_BOUND
    then 60%Z else 0%Z.

(** The filler Card of reads out of range. *)
Definition no_card : Card := mkCard 0 [] 0.


(* ================================================================== *)
(** * Facts about the monad                                            *)
(* ================================================================== *)

Lemma bind_Ok_inv {A B} (m : M A) (f : A -> M B) l b :
  bind m f = (l, Ok b) ->
  exists l1 a l2, m = (l1, Ok a) /\ f a = (l2, Ok b) /\ l = l1 ++ l2.
Proof.
  unfold bind. destruct m as [l1 [a | e]]; [| discriminate].
  destruct (f a) as [l2 r] eqn:Hf. intros H. inversion H; subst.
  exists l1, a, l2. auto.
Qed.

Lemma bind_Ok {A B} (m : M A) (f : A -> M B) l1 a l2 r :
  m = (l1, Ok a) -> f a = (l2, r) -> bind m f = (l1 ++ l2, r).
Proof. intros -> Hf. unfold bind. now rewrite Hf. Qed.

(* ================================================================== *)
(** * Facts about masks, shapes and cells                              *)
(* ================================================================== *)

Module NpFacts.
Import Np Mask.

Lemma sel_true mask : forall k,
  k < count_true mask ->
  sel mask k < length mask /\ nth (sel mask k) mask false = true.
Proof.
  induction mask as [| b mask IH]; intros k Hk.
  - cbn in Hk. lia.
  - destruct b; cbn in *.
    + destruct k; [split; [lia | reflexivity] |].
      destruct (IH k) as [H1 H2]; [unfold count_true; lia |]. split; [lia | assumption].
    + destruct (IH k Hk) as [H1 H2]. split; [lia | assumption].
Qed.

Lemma sel_onto mask : forall j,
  j < length mask -> nth j mask false = true ->
  exists k, k < count_true mask /\ sel mask k = j.
Proof.
  induction mask as [| b mask IH]; intros j Hj Hn.
  - cbn in Hj. lia.
  - destruct j as [| j].
    + cbn in Hn. subst b. exists 0. cbn. split; [lia | reflexivity].
    + cbn in Hj, Hn. destruct (IH j) as [k [Hk Hs]]; [lia | assumption |].
      destruct b.
      * exists (S k). cbn. unfold count_true in Hk. split; [lia | now rewrite Hs].
      * exists k. cbn. split; [assumption | now rewrite Hs].
Qed.

Lemma compress_length {B} mask : forall (l : list B),
  length l = length mask -> length (compress mask l) = count_true mask.
Proof.
  induction mask as [| b mask IH]; intros [| x l] Hl; try discriminate; [reflexivity |].
  cbn in *. destruct b; cbn; rewrite IH by lia; reflexivity.
Qed.

Lemma compress_nth {B} (d : B) mask : forall (l : list B) k,
  length l = length mask -> k < count_true mask ->
  nth k (compress mask l) d = nth (sel mask k) l d.
Proof.
  induction mask as [| b mask IH]; intros [| x l] k Hl Hk; try discriminate.
  - cbn in Hk. lia.
  - cbn in *. destruct b; cbn in *.
    + destruct k; [reflexivity |]. apply IH; [lia | unfold count_true; lia].
    + apply IH; [lia | assumption].
Qed.

Lemma compress_all_true {B} mask : forall (l : list B),
  all_true mask = true -> length l = length mask -> compress mask l = l.
Proof.
  induction mask as [| b mask IH]; intros [| x l] Ht Hl; try discriminate; [reflexivity |].
  cbn in *. apply andb_true_iff in Ht as [-> Ht]. f_equal. apply IH; [assumption | lia].
Qed.

Lemma compress_none {B} mask : forall (l : list B),
  count_true mask = 0 -> compress mask l = [].
Proof.
  induction mask as [| b mask IH]; intros [| x l] Hc; try reflexivity.
  destruct b; [discriminate |]. cbn. now apply IH.
Qed.

Lemma all_true_nth mask :
  all_true mask = true <-> forall j, j < length mask -> nth j mask false = true.
Proof.
  unfold all_true. rewrite forallb_forall. split.
  - intros H j Hj. apply H. now apply nth_In.
  - intros H x Hx. destruct (In_nth _ _ false Hx) as [j [Hj Hn]].
    rewrite <- Hn. now apply H.
Qed.

(** ** Shapes and cells *)

Section Cells.
Variable A : Type.
Variable d : A.

Lemma rectangular_shape (m : list (list A)) :
  rectangular m = true <-> has_shape (length m) (width m) m.
Proof.
  unfold rectangular, has_shape. rewrite forallb_forall, Forall_forall.
  split.
  - intros H. split; [reflexivity |]. intros r Hr. apply Nat.eqb_eq. now apply H.
  - intros [_ H] r Hr. apply Nat.eqb_eq. now apply H.
Qed.

Lemma has_shape_width h w (m : list (list A)) :
  has_shape h w m -> m <> [] -> width m = w.
Proof.
  intros [_ H] Hm. destruct m as [| r m]; [congruence |].
  unfold width. cbn. now inversion H.
Qed.

Lemma has_shape_row h w (m : list (list A)) i :
  has_shape h w m -> i < h -> length (nth i m []) = w.
Proof.
  intros [Hh H] Hi. rewrite Forall_forall in H. apply H. apply nth_In. lia.
Qed.

(** Two arrays of one shape with the same cells are the same array. *)
Lemma matrix_ext h w (m1 m2 : list (list A)) :
  has_shape h w m1 -> has_shape h w m2 ->
  (forall i j, i < h -> j < w -> item d m1 i j = item d m2 i j) ->
  m1 = m2.
Proof.
  intros S1 S2 H.
  apply (nth_ext _ _ [] []); [destruct S1, S2; congruence |].
  intros i Hi. destruct S1 as [L1 F1]. rewrite L1 in Hi.
  assert (R1 : length (nth i m1 []) = w) by (apply has_shape_row with (h := h); [split |]; assumption).
  assert (R2 : length (nth i m2 []) = w) by (apply has_shape_row with (h := h); assumption).
  apply (nth_ext _ _ d d); [congruence |].
  intros j Hj. rewrite R1 in Hj. now apply H.
Qed.

(** A cell of an array is one of the values it holds. *)
Lemma item_In h w (m : list (list A)) i j :
  has_shape h w m -> i < h -> j < w -> In (item d m i j) (concat m).
Proof.
  intros S Hi Hj. apply in_concat. exists (nth i m []). split.
  - apply nth_In. destruct S. lia.
  - apply nth_In. rewrite (has_shape_row S Hi). assumption.
Qed.

Lemma In_item h w (m : list (list A)) x :
  has_shape h w m -> In x (concat m) ->
  exists i j, i < h /\ j < w /\ item d m i j = x.
Proof.
  intros S Hx. apply in_concat in Hx as [r [Hr Hx]].
  destruct (In_nth _ _ [] Hr) as [i [Hi Hn]].
  destruct (In_nth _ _ d Hx) as [j [Hj Hm]].
  destruct S as [Hh HF]. exists i, j. split; [lia |]. split.
  - rewrite Forall_forall in HF. rewrite <- (HF r Hr). assumption.
  - unfold item. now rewrite Hn.
Qed.

End Cells.


Lemma compress_nil {B} mask : compress mask (@nil B) = [].
Proof. now destruct mask. Qed.

Lemma compress_incl {B} mask : forall (l : list B) x,
  In x (compress mask l) -> In x l.
Proof.
  induction mask as [| b mask IH]; intros [| y l] x Hx; try (now destruct Hx).
  cbn in Hx. destruct b.
  - destruct Hx as [-> | Hx]; [now left | right; now apply IH].
  - right. now apply IH.
Qed.

Lemma count_true_le mask : count_true mask <= length mask.
Proof. apply filter_length_le. Qed.

Lemma nth_map_in {A B} (f : A -> B) l i dA dB :
  i < length l -> nth i (map f l) dB = f (nth i l dA).
Proof.
  intros Hi. rewrite (nth_indep _ dB (f dA)) by (now rewrite length_map).
  apply map_nth.
Qed.

(** ** [np.rot90(m, 1)]: shape and cells *)

Section Rot.
Variable A : Type.
Variable d : A.

Lemma rot90_1 (m : list (list A)) : rot90 d m 1 = transpose d (flip1 m).
Proof. reflexivity. Qed.

Lemma rot90_shape h w (m : list (list A)) :
  has_shape h w m -> 0 < h -> has_shape w h (rot90 d m 1).
Proof.
  intros [Hh HF] Hpos. rewrite rot90_1. unfold transpose, flip1, has_shape.
  assert (Hw : width (map (@rev A) m) = w).
  { destruct m as [| r m]; [cbn in Hh; lia |]. unfold width. cbn.
    rewrite length_rev. now inversion HF. }
  rewrite Hw, length_map, length_seq. split; [reflexivity |].
  apply Forall_forall. intros r Hr. apply in_map_iff in Hr as [j [<- _]].
  now rewrite !length_map.
Qed.

Lemma rot90_item h w (m : list (list A)) i j :
  has_shape h w m -> i < w -> j < h ->
  item d (rot90 d m 1) i j = item d m j (w - 1 - i).
Proof.
  intros S Hi Hj. pose proof S as [Hh HF]. rewrite rot90_1.
  unfold transpose, flip1, item.
  assert (Hw : width (map (@rev A) m) = w).
  { destruct m as [| r m]; [cbn in Hh; lia |]. unfold width. cbn.
    rewrite length_rev. now inversion HF. }
  rewrite Hw.
  rewrite (nth_map_in _ _ 0 []) by (now rewrite length_seq).
  rewrite seq_nth by assumption. cbn [plus].
  rewrite map_map.
  rewrite (nth_map_in _ _ [] d) by lia.
  assert (Hr : length (nth j m []) = w) by (now apply has_shape_row with (h := h)).
  rewrite rev_nth by lia. rewrite Hr. f_equal. lia.
Qed.

(** Four quarter turns give the array back. *)
Lemma rot90_four h w (m : list (list A)) :
  has_shape h w m -> 0 < h -> 0 < w ->
  rot90 d (rot90 d (rot90 d (rot90 d m 1) 1) 1) 1 = m.
Proof.
  intros S Hh Hw.
  pose proof (rot90_shape S Hh) as S1.
  pose proof (rot90_shape S1 Hw) as S2.
  pose proof (rot90_shape S2 Hh) as S3.
  pose proof (rot90_shape S3 Hw) as S4.
  apply (matrix_ext d S4 S). intros i j Hi Hj.
  rewrite (rot90_item S3) by lia.
  rewrite (rot90_item S2) by lia.
  rewrite (rot90_item S1) by lia.
  rewrite (rot90_item S) by lia.
  f_equal; lia.
Qed.

(** ** [np.argwhere] *)

Lemma where_row_In (f : A -> bool) i : forall r j0 a b,
  In (a, b) (where_row f i j0 r) <->
  a = i /\ (j0 <= b < j0 + Z.of_nat (length r))%Z
  /\ f (nth (Z.to_nat (b - j0)) r d) = true.
Proof.
  induction r as [| x r IH]; intros j0 a b; cbn [where_row length].
  - split; [intros [] | intros [_ [H _]]; lia].
  - rewrite in_app_iff, IH. split.
    + intros [H | [-> [Hb Hf]]].
      * destruct (f x) eqn:Hx; [| destruct H].
        destruct H as [H | []]. inversion H; subst.
        split; [reflexivity |]. split; [lia |].
        now rewrite Z.sub_diag.
      * split; [reflexivity |]. split; [lia |].
        replace (Z.to_nat (b - j0)) with (S (Z.to_nat (b - (j0 + 1)))) by lia.
        assumption.
    + intros [-> [Hb Hf]].
      destruct (Z.eq_dec b j0) as [-> | Hne].
      * left. rewrite Z.sub_diag in Hf. cbn in Hf. rewrite Hf. now left.
      * right. split; [reflexivity |]. split; [lia |].
        replace (Z.to_nat (b - j0)) with (S (Z.to_nat (b - (j0 + 1)))) in Hf by lia.
        assumption.
Qed.

Lemma argwhere_from_In (f : A -> bool) : forall m i0 a b,
  In (a, b) (argwhere_from f i0 m) <->
  (i0 <= a < i0 + Z.of_nat (length m))%Z
  /\ (0 <= b < Z.of_nat (length (nth (Z.to_nat (a - i0)) m [])))%Z
  /\ f (item d m (Z.to_nat (a - i0)) (Z.to_nat b)) = true.
Proof.
  induction m as [| r m IH]; intros i0 a b; cbn [argwhere_from length].
  - split; [intros [] | intros [H _]; lia].
  - rewrite in_app_iff, IH, where_row_In. unfold item. split.
    + intros [[-> [Hb Hf]] | [Ha [Hb Hf]]].
      * rewrite Z.sub_diag. cbn. rewrite Z.sub_0_r in Hf.
        split; [lia |]. split; [lia | assumption].
      * replace (Z.to_nat (a - i0)) with (S (Z.to_nat (a - (i0 + 1)))) by lia.
        cbn. split; [lia |]. split; assumption.
    + intros [Ha [Hb Hf]].
      destruct (Z.eq_dec a i0) as [-> | Hne].
      * left. rewrite Z.sub_diag in Hb, Hf. cbn in Hb, Hf.
        split; [reflexivity |]. rewrite Z.sub_0_r. split; [lia | assumption].
      * right.
        replace (Z.to_nat (a - i0)) with (S (Z.to_nat (a - (i0 + 1)))) in Hb, Hf by lia.
        cbn in Hb, Hf. split; [lia |]. split; assumption.
Qed.

(** An index is listed by [argwhere] exactly when it is in range and
    its cell passes the test. *)
Lemma argwhere_In (f : A -> bool) m a b :
  In (a, b) (argwhere f m) <->
  (0 <= a < Z.of_nat (length m))%Z
  /\ (0 <= b < Z.of_nat (length (nth (Z.to_nat a) m [])))%Z
  /\ f (item d m (Z.to_nat a) (Z.to_nat b)) = true.
Proof.
  unfold argwhere. rewrite argwhere_from_In. rewrite Z.sub_0_r. cbn. tauto.
Qed.

Lemma argwhere_cell h w (f : A -> bool) m :
  has_shape h w m ->
  (argwhere f m <> [] <-> exists i j, i < h /\ j < w /\ f (item d m i j) = true).
Proof.
  intros S. split.
  - intros Hne. destruct (argwhere f m) as [| [a b] l] eqn:E; [congruence |].
    assert (Hin : In (a, b) (argwhere f m)) by (rewrite E; now left).
    apply argwhere_In in Hin as [Ha [Hb Hf]].
    exists (Z.to_nat a), (Z.to_nat b). destruct S as [Hh HF].
    split; [lia |]. split; [| assumption].
    rewrite (@has_shape_row A h w m (Z.to_nat a)) in Hb; [lia | now split | lia].
  - intros [i [j [Hi [Hj Hf]]]] E.
    assert (Hin : In (Z.of_nat i, Z.of_nat j) (argwhere f m)).
    { apply argwhere_In. rewrite !Nat2Z.id.
      rewrite (has_shape_row S Hi). destruct S. split; [lia |]. split; [lia | assumption]. }
    rewrite E in Hin. destruct Hin.
Qed.

End Rot.

End NpFacts.

(* ================================================================== *)
(** * Pattern: trimming, construction, rotation                        *)
(* ================================================================== *)

Module PatternFacts.
Import Np Mask NpFacts.

Section WithValues.
Variable value : Grid -> Z.

Local Abbreviation ne := (not_Empty value).
Local Abbreviation cell := (item 0%Z).

Lemma inks_length grid : length (inks value grid) = length grid.
Proof. apply length_map. Qed.

Lemma inks_width grid : width (inks value grid) = width grid.
Proof. destruct grid; [reflexivity |]. unfold width. cbn. apply length_map. Qed.

Lemma inks_row grid i :
  nth i (inks value grid) [] = map ne (nth i grid []).
Proof.
  unfold inks. change (@nil bool) with (map ne []).
  apply (map_nth (map ne)).
Qed.

Lemma inks_item h w grid i j :
  has_shape h w grid -> i < h -> j < w ->
  nth j (nth i (inks value grid) []) false = ne (cell grid i j).
Proof.
  intros S Hi Hj. rewrite inks_row. unfold item.
  apply nth_map_in. now rewrite (has_shape_row S Hi).
Qed.

(** [row_mask[i]] holds exactly when row [i] has a non-Empty cell. *)
Lemma any_axis1_spec h w grid i :
  has_shape h w grid -> i < h ->
  (nth i (any_axis1 (inks value grid)) false = true
   <-> exists j, j < w /\ ne (cell grid i j) = true).
Proof.
  intros S Hi. unfold any_axis1.
  rewrite (nth_map_in _ _ [] false) by (rewrite inks_length; destruct S; lia).
  rewrite existsb_exists. split.
  - intros [x [Hx ->]]. destruct (In_nth _ _ false Hx) as [j [Hj Hn]].
    rewrite inks_row, length_map, (has_shape_row S Hi) in Hj.
    exists j. split; [assumption |]. now rewrite <- (inks_item S Hi Hj).
  - intros [j [Hj Hn]]. exists true. split; [| reflexivity].
    rewrite <- Hn, <- (inks_item S Hi Hj). apply nth_In.
    now rewrite inks_row, length_map, (has_shape_row S Hi).
Qed.

(** [col_mask[j]] holds exactly when column [j] has a non-Empty cell. *)
Lemma any_axis0_spec h w grid j :
  has_shape h w grid -> 0 < h -> j < w ->
  (nth j (any_axis0 (inks value grid)) false = true
   <-> exists i, i < h /\ ne (cell grid i j) = true).
Proof.
  intros S Hh Hj. unfold any_axis0.
  assert (Hw : width grid = w).
  { apply (has_shape_width S). destruct S, grid; cbn in *; [lia | discriminate]. }
  rewrite inks_width, Hw.
  rewrite (nth_map_in _ _ 0 false) by (now rewrite length_seq).
  rewrite seq_nth by assumption. cbn [plus].
  rewrite existsb_exists. split.
  - intros [r [Hr Hn]]. destruct (In_nth _ _ [] Hr) as [i [Hi Hri]].
    rewrite inks_length in Hi. destruct S as [Hl HF]. rewrite Hl in Hi.
    exists i. split; [assumption |].
    rewrite <- (@inks_item h w grid i j) by (try split; assumption).
    now rewrite Hri.
  - intros [i [Hi Hn]]. exists (nth i (inks value grid) []). split.
    + apply nth_In. rewrite inks_length. destruct S. lia.
    + now rewrite (inks_item S Hi Hj).
Qed.

Lemma any_axis1_length grid : length (any_axis1 (inks value grid)) = length grid.
Proof. unfold any_axis1. now rewrite length_map, inks_length. Qed.

Lemma any_axis0_length grid : length (any_axis0 (inks value grid)) = width grid.
Proof. unfold any_axis0. now rewrite length_map, length_seq, inks_width. Qed.

(** ** The trimmed grid *)

Section Trim.
Variables (h w : nat) (grid : matrix).
Hypothesis S : has_shape h w grid.

Local Abbreviation row_mask := (any_axis1 (inks value grid)).
Local Abbreviation col_mask := (any_axis0 (inks value grid)).

Lemma row_mask_length : length row_mask = h.
Proof.  rewrite any_axis1_length. now destruct S. Qed.

Lemma col_mask_length : grid <> [] -> length col_mask = w.
Proof.
  intros Hne.  rewrite any_axis0_length.
  now apply (has_shape_width S).
Qed.

Lemma kept_rows_nonempty : 0 < count_true row_mask -> grid <> [].
Proof.
  intros Hc ->.  cbn in Hc. lia.
Qed.

Lemma trim_shape :
  has_shape (count_true row_mask) (count_true col_mask) (trim value grid).
Proof.
  unfold trim. split.
  - rewrite length_map. apply compress_length. now rewrite row_mask_length; destruct S.
  - apply Forall_forall. intros t Ht. apply in_map_iff in Ht as [r [<- Hr]].
    apply compress_incl in Hr. apply compress_length.
    destruct S as [_ HF]. rewrite Forall_forall in HF. rewrite (HF r Hr).
    symmetry. apply col_mask_length. intros ->. destruct Hr.
Qed.

Lemma trim_item k l :
  k < count_true row_mask -> l < count_true col_mask ->
  cell (trim value grid) k l = cell grid (sel row_mask k) (sel col_mask l).
Proof.
  intros Hk Hl. unfold trim, item.
  assert (Hne : grid <> []) by (apply kept_rows_nonempty; lia).
  rewrite <- (compress_nil col_mask) at 1. rewrite map_nth.
  rewrite (@compress_nth _ [] row_mask grid k)
    by (try assumption; rewrite row_mask_length; now destruct S).
  apply compress_nth; [| assumption].
  rewrite (col_mask_length Hne). apply (has_shape_row S).
  rewrite <- row_mask_length. now apply sel_true.
Qed.

(** Every kept row, and every kept column, holds a non-Empty cell. *)
Lemma trim_rows_inked k :
  k < count_true row_mask ->
  exists l, l < count_true col_mask /\ ne (cell (trim value grid) k l) = true.
Proof.
  intros Hk. assert (Hne : grid <> []) by (apply kept_rows_nonempty; lia).
  assert (Hh : 0 < h) by (destruct S, grid; cbn in *; [congruence | lia]).
  destruct (sel_true _ Hk) as [Hs Ht]. rewrite row_mask_length in Hs.
  apply (any_axis1_spec S Hs) in Ht as [j [Hj Hn]].
  assert (Hc : nth j col_mask false = true).
  { apply (any_axis0_spec S Hh Hj). now exists (sel row_mask k). }
  destruct (@sel_onto col_mask j) as [l [Hl Hsl]];
    [now rewrite (col_mask_length Hne) | assumption |].
  exists l. split; [assumption |]. rewrite trim_item by assumption.
  now rewrite Hsl.
Qed.

Lemma trim_cols_inked l :
  0 < count_true row_mask -> l < count_true col_mask ->
  exists k, k < count_true row_mask /\ ne (cell (trim value grid) k l) = true.
Proof.
  intros Hpos Hl. assert (Hne : grid <> []) by (now apply kept_rows_nonempty).
  assert (Hh : 0 < h) by (destruct S, grid; cbn in *; [congruence | lia]).
  destruct (sel_true _ Hl) as [Hs Ht]. rewrite (col_mask_length Hne) in Hs.
  apply (any_axis0_spec S Hh Hs) in Ht as [i [Hi Hn]].
  assert (Hr : nth i row_mask false = true).
  { apply (any_axis1_spec S Hi). now exists (sel col_mask l). }
  destruct (@sel_onto row_mask i) as [k [Hk Hsk]];
    [now rewrite row_mask_length | assumption |].
  exists k. split; [assumption |]. rewrite trim_item by assumption.
  now rewrite Hsk.
Qed.

End Trim.

Lemma packed_trim h w g : packed value h w g -> trim value g = g.
Proof.
  intros [S [Hh [Hw [Hr Hc]]]]. unfold trim.
  assert (Hne : g <> []) by (destruct S, g; cbn in *; [lia | discriminate]).
  assert (R : all_true (any_axis1 (inks value g)) = true).
  { apply all_true_nth. intros i Hi. rewrite (row_mask_length S) in Hi.
    apply (any_axis1_spec S Hi). now apply Hr. }
  assert (Cm : all_true (any_axis0 (inks value g)) = true).
  { apply all_true_nth. intros j Hj. rewrite (col_mask_length S Hne) in Hj.
    apply (any_axis0_spec S Hh Hj). now apply Hc. }
  rewrite (compress_all_true _ _ R) by (rewrite (row_mask_length S); now destruct S).
  transitivity (map (fun r : list Z => r) g); [| apply map_id].
  apply map_ext_in. intros r Hin.
  apply compress_all_true; [assumption |].
  rewrite (col_mask_length S Hne). destruct S as [_ HF].
  rewrite Forall_forall in HF. now apply HF.
Qed.

Lemma packed_rot90 h w g :
  packed value h w g -> packed value w h (rot90 0%Z g 1).
Proof.
  intros [S [Hh [Hw [Hr Hc]]]]. split; [now apply rot90_shape |].
  split; [assumption |]. split; [assumption |]. split.
  - intros i Hi. destruct (Hc (w - 1 - i)) as [k [Hk Hn]]; [lia |].
    exists k. split; [assumption |]. now rewrite (rot90_item 0%Z S).
  - intros j Hj. destruct (Hr j Hj) as [l [Hl Hn]].
    exists (w - 1 - l). split; [lia |].
    rewrite (rot90_item 0%Z S) by lia.
    replace (w - 1 - (w - 1 - l)) with l by lia. assumption.
Qed.

Lemma has_my_cell_rot90 h w g :
  has_shape h w g -> has_my_cell value h w g ->
  has_my_cell value w h (rot90 0%Z g 1).
Proof.
  intros S [i [j [Hi [Hj Hm]]]]. exists (w - 1 - j), i.
  split; [lia |]. split; [assumption |].
  rewrite (rot90_item 0%Z S) by lia.
  replace (w - 1 - (w - 1 - j)) with j by lia. assumption.
Qed.

End WithValues.


Section Construction.
Variable value : Grid -> Z.

(** [Pattern.__init__] once [grid[0][0]] has been read. *)
Lemma Pattern_init_unfold a :
  first_cell a = ([], Ok tt) ->
  Pattern_init value a =
    (size_warning (trim value (values_of value a)),
     match argwhere (is_my value) (trim value (values_of value a)) with
     | [] => Raise IndexError
     | _ => Ok (pattern_of value (trim value (values_of value a)))
     end).
Proof.
  intros H. unfold Pattern_init, size_warning, pattern_of. rewrite H.
  set (g := trim value (values_of value a)).
  destruct (Nat.ltb 8 (Nat.min (height g) (width g)));
    destruct (argwhere (is_my value) g) as [| i0 idx]; reflexivity.
Qed.

Lemma first_cell_cases a :
  first_cell a = ([], Ok tt) \/ first_cell a = ([], Raise IndexError).
Proof.
  destruct a as [[| [| x r] g] | [| [| x r] g]]; cbn; auto.
Qed.

Lemma Pattern_init_Ok_inv a l p :
  Pattern_init value a = (l, Ok p) ->
  first_cell a = ([], Ok tt)
  /\ argwhere (is_my value) (trim value (values_of value a)) <> []
  /\ p = pattern_of value (trim value (values_of value a)).
Proof.
  intros H. destruct (first_cell_cases a) as [Hf | Hf].
  - rewrite (Pattern_init_unfold _ Hf) in H. split; [assumption |].
    destruct (argwhere (is_my value) (trim value (values_of value a)));
      inversion H. split; [discriminate | reflexivity].
  - unfold Pattern_init in H. rewrite Hf in H. discriminate.
Qed.

Lemma first_cell_packed h w g : packed value h w g -> first_cell (OfInt g) = ([], Ok tt).
Proof.
  intros [[Hh HF] [Hpos [Hw _]]]. destruct g as [| r g]; [cbn in Hh; lia |].
  inversion HF; subst. destruct r; [cbn in Hw; lia | reflexivity].
Qed.

(** On a packed grid with a cell of mine nothing is trimmed and the
    constructor succeeds. *)
Lemma Pattern_init_packed h w g :
  packed value h w g -> has_my_cell value h w g ->
  Pattern_init value (OfInt g) = (size_warning g, Ok (pattern_of value g)).
Proof.
  intros P Hm. rewrite (Pattern_init_unfold _ (first_cell_packed P)).
  cbn [values_of]. rewrite (packed_trim P).
  destruct P as [S _]. apply (argwhere_cell 0%Z (is_my value) S) in Hm.
  destruct (argwhere (is_my value) g); [congruence | reflexivity].
Qed.

Lemma Pattern_rotate_packed h w p :
  packed value h w (p_grid p) -> has_my_cell value h w (p_grid p) ->
  Pattern_rotate value p 1 =
    (size_warning (rot90 0%Z (p_grid p) 1),
     Ok (pattern_of value (rot90 0%Z (p_grid p) 1))).
Proof.
  intros P Hm. unfold Pattern_rotate.
  apply (@Pattern_init_packed w h).
  - now apply packed_rot90.
  - destruct P as [S _]. now apply has_my_cell_rot90.
Qed.

(** What a constructed Pattern stores. *)
Lemma Pattern_init_stores a l p :
  rectangular (values_of value a) = true ->
  Pattern_init value a = (l, Ok p) ->
  exists h w, packed value h w (p_grid p) /\ has_my_cell value h w (p_grid p)
              /\ p = pattern_of value (p_grid p).
Proof.
  intros R H. apply Pattern_init_Ok_inv in H as [_ [Hidx ->]].
  set (G := values_of value a) in *.
  apply rectangular_shape in R.
  pose proof (trim_shape value R) as ST.
  set (h := count_true (any_axis1 (inks value G))) in *.
  set (w := count_true (any_axis0 (inks value G))) in *.
  exists h, w. cbn [p_grid pattern_of].
  pose proof Hidx as Hm. apply (argwhere_cell 0%Z (is_my value) ST) in Hm.
  assert (Hh : 0 < h) by (destruct Hm as [i [j [Hi _]]]; lia).
  assert (Hw : 0 < w) by (destruct Hm as [i [j [_ [Hj _]]]]; lia).
  split; [| split; [assumption | reflexivity]].
  split; [assumption |]. split; [assumption |]. split; [assumption |]. split.
  - intros i Hi. now apply (trim_rows_inked value R).
  - intros j Hj. now apply (trim_cols_inked value R).
Qed.

Lemma all_eq_refl {A} (eqb : A -> A -> bool) (a : list A) :
  (forall x, eqb x x = true) -> all_eq eqb a a = true.
Proof.
  intros Hr. unfold all_eq. rewrite Nat.eqb_refl.
  induction a as [| x a IH]; [reflexivity |]. cbn. now rewrite Hr, IH.
Qed.

Lemma Pattern_eq_refl p : Pattern_eq p p = true.
Proof.
  unfold Pattern_eq. rewrite !all_eq_refl; [reflexivity | apply Z.eqb_refl |].
  intros [x y]. unfold pair_eqb. cbn. now rewrite !Z.eqb_refl.
Qed.

Lemma rotate_four_times_packed h w p :
  packed value h w (p_grid p) -> has_my_cell value h w (p_grid p) ->
  exists l, rotate_four_times value p = (l, Ok (pattern_of value (p_grid p))).
Proof.
  intros P0 M0. unfold rotate_four_times.
  pose proof (Pattern_rotate_packed _ P0 M0) as H1.
  set (g0 := p_grid p) in *.
  set (g1 := rot90 0%Z g0 1) in *.
  assert (P1 : packed value w h g1) by (now apply packed_rot90).
  assert (M1 : has_my_cell value w h g1)
    by (destruct P0 as [S _]; now apply has_my_cell_rot90).
  pose proof (@Pattern_rotate_packed w h (pattern_of value g1) P1 M1) as H2.
  cbn [p_grid pattern_of] in H2. set (g2 := rot90 0%Z g1 1) in *.
  assert (P2 : packed value h w g2) by (now apply packed_rot90).
  assert (M2 : has_my_cell value h w g2)
    by (destruct P1 as [S _]; now apply has_my_cell_rot90).
  pose proof (@Pattern_rotate_packed h w (pattern_of value g2) P2 M2) as H3.
  cbn [p_grid pattern_of] in H3. set (g3 := rot90 0%Z g2 1) in *.
  assert (P3 : packed value w h g3) by (now apply packed_rot90).
  assert (M3 : has_my_cell value w h g3)
    by (destruct P2 as [S _]; now apply has_my_cell_rot90).
  pose proof (@Pattern_rotate_packed w h (pattern_of value g3) P3 M3) as H4.
  cbn [p_grid pattern_of] in H4.
  assert (E : rot90 0%Z g3 1 = g0).
  { subst g3 g2 g1. destruct P0 as [S [Hh [Hw _]]]. now apply (rot90_four 0%Z S). }
  rewrite E in H4.
  eexists. rewrite H1. cbn [bind]. rewrite H2. cbn [bind].
  rewrite H3. cbn [bind]. rewrite H4. reflexivity.
Qed.

End Construction.

End PatternFacts.

(* ================================================================== *)
(** * Pattern and Card: the properties of the specification            *)
(* ================================================================== *)

Module CardFacts.
Import Np Mask NpFacts PatternFacts.

Section WithValues.
Variable value : Grid -> Z.

Lemma all_empty_row_mask h w :
  count_true
    (any_axis1 (inks value (vectorize value (repeat (repeat Empty (S w)) (S h)))))
  = 0.
Proof.
  unfold vectorize, inks, any_axis1. rewrite !map_repeat.
  cbn [repeat map existsb]. rewrite Z.eqb_refl. cbn [negb orb].
  assert (E : existsb (fun x : bool => x) (repeat false w) = false)
    by (induction w; [reflexivity | assumption]).
  rewrite E. cbn. induction h; [reflexivity | assumption].
Qed.

Lemma trim_cells grid x :
  In x (concat (trim value grid)) -> In x (concat grid).
Proof.
  unfold trim. intros H. apply in_concat in H as [t [Ht Hx]].
  apply in_map_iff in Ht as [r [<- Hr]].
  apply compress_incl in Hr. apply compress_incl in Hx.
  apply in_concat. now exists r.
Qed.

(** A grid without a cell of mine stops the constructor, whatever
    else it holds. *)
Lemma Pattern_init_without_my_cell a :
  first_cell a = ([], Ok tt) ->
  (forall x, In x (concat (values_of value a)) -> is_my value x = false) ->
  outcome (Pattern_init value a) = Raise IndexError.
Proof.
  intros Hf Hn. rewrite (Pattern_init_unfold _ _ Hf). cbn [outcome snd].
  destruct (argwhere (is_my value) (trim value (values_of value a)))
    as [| [i j] idx] eqn:E; [reflexivity | exfalso].
  assert (Hin : In (i, j) (argwhere (is_my value)
                             (trim value (values_of value a))))
    by (rewrite E; now left).
  apply (argwhere_In 0%Z) in Hin as [Hi [Hj Hm]].
  rewrite Hn in Hm; [discriminate |].
  apply trim_cells, in_concat.
  exists (nth (Z.to_nat i) (trim value (values_of value a)) []).
  split; apply nth_In; lia.
Qed.

Lemma rot90_arg_0 a : rot90_arg a 0 = a.
Proof. now destruct a. Qed.

Lemma Card_init_Ok_inv a c l k :
  Card_init value a c = (l, Ok k) ->
  exists l0 p0,
    Pattern_init value a = (l0, Ok p0)
    /\ nth 0 (c_patterns k) no_pattern = p0
    /\ c_sp_cost k = c /\ length (c_patterns k) = 4.
Proof.
  unfold Card_init. cbn [mapM]. rewrite rot90_arg_0.
  destruct (Pattern_init value a) as [l0 [p0 | e0]]; [| discriminate].
  destruct (Pattern_init value (rot90_arg a 1)) as [l1 [p1 | e1]];
    [| discriminate].
  destruct (Pattern_init value (rot90_arg a 2)) as [l2 [p2 | e2]];
    [| discriminate].
  destruct (Pattern_init value (rot90_arg a 3)) as [l3 [p3 | e3]];
    [| discriminate].
  cbn. intros H. inversion H; subst. cbn. exists l0, p0. auto.
Qed.

(** The log of the constructor: one warning when both dimensions of
    the trimmed grid exceed 8, nothing otherwise. *)
Lemma Pattern_init_logged a :
  first_cell a = ([], Ok tt) ->
  logged (Pattern_init value a)
  = size_warning (trim value (values_of value a)).
Proof. intros H. now rewrite (Pattern_init_unfold _ _ H). Qed.

Lemma size_warning_spec g :
  size_warning g = [PatternTooLarge g] <-> 8 < height g /\ 8 < width g.
Proof.
  unfold size_warning.
  destruct (Nat.ltb 8 (Nat.min (height g) (width g))) eqn:E.
  - apply Nat.ltb_lt in E. split; [lia | reflexivity].
  - apply Nat.ltb_ge in E. split; [discriminate | lia].
Qed.

End WithValues.

End CardFacts.

Import Np Mask NpFacts PatternFacts CardFacts.

(** C1.  The claim is that [Pattern(...)] never fails, and that an all-Empty
    grid gives a Pattern of size 0.  On the code an all-Empty grid of any
    positive shape stops the constructor with [IndexError]: nothing is kept
    by the trim, [indexes] is empty and line 24 reads [indexes[0]]. *)
Theorem Pattern_init_all_empty_raises (value : Grid -> Z) (h w : nat) :
  outcome (Pattern_init value (OfGrid (repeat (repeat Empty (S w)) (S h))))
  = Raise IndexError.
Proof.
  rewrite Pattern_init_unfold by reflexivity. cbn [values_of outcome snd].
  unfold trim. rewrite (compress_none _ _ (all_empty_row_mask value h w)).
  reflexivity.
Qed.

(** C3.  The claim is that the stored grid is the minimal bounding box of
    the non-Empty cells, every cell inside it kept.  On the grid
    [[MyInk, Empty, MyInk]] the bounding box is the whole row, and the
    constructor stores [[MyInk, MyInk]]: the masks of lines 15-17 delete
    the all-Empty column in the middle as well. *)
Theorem Pattern_init_drops_inner_column (value : Grid -> Z) :
  value MyInk <> value Empty ->
  exists p,
    Pattern_init value (OfGrid [[MyInk; Empty; MyInk]]) = ([], Ok p)
    /\ p_grid p = [[value MyInk; value MyInk]]
    /\ bounding_box value (vectorize value [[MyInk; Empty; MyInk]])
       = [[value MyInk; value Empty; value MyInk]]
    /\ p_grid p <> bounding_box value (vectorize value [[MyInk; Empty; MyInk]]).
Proof.
  intros Hne. apply Z.eqb_neq in Hne.
  assert (Hg : trim value (vectorize value [[MyInk; Empty; MyInk]])
               = [[value MyInk; value MyInk]]).
  { unfold trim, inks, any_axis1, any_axis0. cbn.
    rewrite Hne, Z.eqb_refl. reflexivity. }
  assert (Hb : bounding_box value (vectorize value [[MyInk; Empty; MyInk]])
               = [[value MyInk; value Empty; value MyInk]]).
  { unfold bounding_box, inks, any_axis1, any_axis0. cbn.
    rewrite Hne, Z.eqb_refl. reflexivity. }
  rewrite Pattern_init_unfold by reflexivity. cbn [values_of]. rewrite Hg, Hb.
  unfold argwhere, is_my. cbn. rewrite Z.eqb_refl. cbn.
  eexists. split; [reflexivity |]. split; [reflexivity |].
  split; [reflexivity | discriminate].
Qed.

Lemma Pattern_init_drops_inner_column_witness :
  exists p,
    Pattern_init example_value (OfGrid [[MyInk; Empty; MyInk]]) = ([], Ok p)
    /\ p_grid p = [[1; 1]]%Z
    /\ bounding_box example_value (vectorize example_value [[MyInk; Empty; MyInk]])
       = [[1; 0; 1]]%Z
    /\ p_grid p
       <> bounding_box example_value (vectorize example_value [[MyInk; Empty; MyInk]]).
Proof.
  apply (Pattern_init_drops_inner_column example_value). discriminate.
Defined.

(** C7.  The claim is that a warning is logged whenever the trimmed grid
    is higher or wider than 8.  On one row of nine [MyInk] cells the
    trimmed grid is 1 x 9 and nothing is logged: line 18 tests the smaller
    of the two dimensions.  The Pattern itself is built whole. *)
Theorem Pattern_init_wide_row_no_warning (value : Grid -> Z) :
  value MyInk <> value Empty ->
  exists p,
    Pattern_init value (OfGrid [repeat MyInk 9]) = ([], Ok p)
    /\ p_grid p = [repeat (value MyInk) 9]
    /\ width (p_grid p) = 9 /\ p_size p = 9.
Proof.
  intros Hne. apply Z.eqb_neq in Hne.
  assert (Hg : trim value (vectorize value [repeat MyInk 9])
               = [repeat (value MyInk) 9]).
  { unfold trim, inks, any_axis1, any_axis0. cbn. rewrite Hne. reflexivity. }
  rewrite Pattern_init_unfold by reflexivity. cbn [values_of]. rewrite Hg.
  unfold pattern_of, argwhere, is_my. cbn. rewrite !Z.eqb_refl. cbn.
  eexists. split; [reflexivity |]. split; [reflexivity |].
  split; reflexivity.
Qed.

Lemma Pattern_init_wide_row_no_warning_witness :
  exists p,
    Pattern_init example_value (OfGrid [repeat MyInk 9]) = ([], Ok p)
    /\ p_grid p = [repeat 1%Z 9]
    /\ width (p_grid p) = 9 /\ p_size p = 9.
Proof.
  apply (Pattern_init_wide_row_no_warning example_value). discriminate.
Defined.

(** C4.  For every Pattern [p] (one that the constructor has built from a
    rectangular grid), four successive [rotate(1)] calls all succeed and
    end in a Pattern equal to [p] under [Pattern.__eq__]. *)
Theorem Pattern_rotate_four_times_eq (value : Grid -> Z) a l p :
  rectangular (values_of value a) = true ->
  Pattern_init value a = (l, Ok p) ->
  exists l' q,
    rotate_four_times value p = (l', Ok q) /\ Pattern_eq q p = true.
Proof.
  intros R H. destruct (Pattern_init_stores _ _ R H) as [h [w [P [Hm Hp]]]].
  destruct (rotate_four_times_packed p P Hm) as [l' Hr].
  exists l', (pattern_of value (p_grid p)). split; [assumption |].
  rewrite <- Hp. apply Pattern_eq_refl.
Qed.

Lemma Pattern_rotate_four_times_eq_witness :
  exists l' q,
    rotate_four_times example_value
      (pattern_of example_value [[1; 0]; [1; 2]]%Z) = (l', Ok q)
    /\ Pattern_eq q (pattern_of example_value [[1; 0]; [1; 2]]%Z) = true.
Proof.
  apply (@Pattern_rotate_four_times_eq example_value
           (OfGrid [[Empty; Empty; Empty]; [MyInk; Empty; Empty];
                    [MyInk; MySpecial; Empty]]) []);
    reflexivity.
Defined.

(* ================================================================== *)
(** * Stage: the fiery split                                           *)
(* ================================================================== *)

Module StageFacts.
Import Np Mask NpFacts.

Lemma compress_map_filter {B} (f : B -> bool) (l : list B) :
  compress (map f l) l = filter f l.
Proof.
  induction l as [| x l IH]; [reflexivity |]. cbn. destruct (f x); now rewrite IH.
Qed.

Lemma filter_split_perm {B} (f : B -> bool) (l : list B) :
  Permutation (filter f l ++ filter (fun x => negb (f x)) l) l.
Proof.
  induction l as [| x l IH]; [constructor |]. cbn. destruct (f x); cbn.
  - now constructor.
  - apply Permutation_sym, Permutation_cons_app, Permutation_sym, IH.
Qed.

Lemma forallb_false_exists {B} (f : B -> bool) (l : list B) :
  forallb f l = false <-> exists x, In x l /\ f x = false.
Proof.
  induction l as [| y l IH]; cbn.
  - split; [discriminate | intros [x [[] _]]].
  - rewrite andb_false_iff, IH. split.
    + intros [H | [x [Hx Hf]]]; [exists y; auto | exists x; auto].
    + intros [x [[-> | Hx] Hf]]; [now left | right; now exists x].
Qed.

Section WithValues.
Variable value : Grid -> Z.
Variable grid : matrix.

Lemma neighborhoods_spec c nb :
  In nb (neighborhoods c) <-> neighbour8 c nb.
Proof.
  destruct c as [a b], nb as [x y]. unfold neighborhoods, neighbour8.
  cbn [map NEIGHBOURHOOD_OFFSETS fst snd In]. split.
  - intros H. repeat (destruct H as [H | H]); try contradiction;
      pose proof (f_equal fst H) as Hx; pose proof (f_equal snd H) as Hy;
      cbn [fst snd] in Hx, Hy;
      (split; [intros E; pose proof (f_equal fst E) as E1;
               pose proof (f_equal snd E) as E2; cbn [fst snd] in E1, E2; lia
              | lia]).
  - intros [Hne [Hx Hy]].
    assert (Cx : x = (a - 1)%Z \/ x = a \/ x = (a + 1)%Z) by lia.
    assert (Cy : y = (b - 1)%Z \/ y = b \/ y = (b + 1)%Z) by lia.
    destruct Cx as [-> | [-> | ->]], Cy as [-> | [-> | ->]];
      try (exfalso; apply Hne; reflexivity);
      repeat first [ left; f_equal; lia | right ].
Qed.

Lemma within_grid_spec idx nb :
  In nb (within_grid grid idx) <-> In nb idx /\ in_bounds grid nb.
Proof.
  unfold within_grid, in_bounds. rewrite filter_In.
  rewrite !andb_true_iff, !Z.leb_le, !Z.ltb_lt. tauto.
Qed.

Lemma is_fiery_true c : is_fiery value grid c = true <-> fiery_cell value grid c.
Proof.
  unfold is_fiery, fiery_cell. rewrite forallb_forall. split.
  - intros H nb Hn Hb. specialize (H nb).
    rewrite within_grid_spec, neighborhoods_spec in H.
    specialize (H (conj Hn Hb)). apply negb_true_iff in H.
    now apply Z.eqb_neq.
  - intros H nb Hin. apply within_grid_spec in Hin as [Hn Hb].
    apply neighborhoods_spec in Hn. apply negb_true_iff, Z.eqb_neq. now apply H.
Qed.

Lemma is_fiery_false c :
  is_fiery value grid c = false <-> has_Empty_neighbour value grid c.
Proof.
  unfold is_fiery, has_Empty_neighbour. rewrite forallb_false_exists. split.
  - intros [nb [Hin Hf]]. apply within_grid_spec in Hin as [Hn Hb].
    apply neighborhoods_spec in Hn. apply negb_false_iff, Z.eqb_eq in Hf.
    now exists nb.
  - intros [nb [Hn [Hb He]]]. exists nb. split.
    + apply within_grid_spec. split; [now apply neighborhoods_spec | assumption].
    + apply negb_false_iff, Z.eqb_eq. assumption.
Qed.

Lemma split_sp_filter sp :
  split_sp value grid sp
  = (filter (is_fiery value grid) sp,
     filter (fun c => negb (is_fiery value grid c)) sp).
Proof.
  destruct sp as [| c sp]; [reflexivity |]. unfold split_sp.
  rewrite map_map, !compress_map_filter. reflexivity.
Qed.

Lemma split_sp_fiery_split sp :
  fiery_split value grid sp (fst (split_sp value grid sp))
              (snd (split_sp value grid sp)).
Proof.
  rewrite split_sp_filter. cbn [fst snd]. unfold fiery_split.
  split; [| split; [| split]].
  - intros c. rewrite filter_In, is_fiery_true. tauto.
  - intros c. rewrite filter_In, negb_true_iff, is_fiery_false. tauto.
  - intros c H1 H2. apply filter_In in H1 as [_ H1].
    apply filter_In in H2 as [_ H2]. rewrite H1 in H2. discriminate.
  - apply filter_split_perm.
Qed.

Lemma argwhere_cell_is v c :
  In c (argwhere (fun x => Z.eqb x v) grid) <-> cell_is grid v c.
Proof.
  destruct c as [a b]. rewrite (argwhere_In 0%Z). unfold cell_is, item_at.
  cbn [fst snd]. rewrite Z.eqb_eq. tauto.
Qed.

Lemma Stage_fields_sp :
  let st := Stage_fields value grid in
  s_grid st = grid
  /\ s_my_sp st = argwhere (fun x => Z.eqb x (value MySpecial)) grid
  /\ s_his_sp st = argwhere (fun x => Z.eqb x (value HisSpecial)) grid
  /\ (s_my_fiery_sp st, s_my_unfiery_sp st) = split_sp value grid (s_my_sp st)
  /\ (s_his_fiery_sp st, s_his_unfiery_sp st) = split_sp value grid (s_his_sp st).
Proof.
  unfold Stage_fields.
  destruct (split_sp value grid (argwhere (fun x => Z.eqb x (value MySpecial)) grid)) eqn:E1.
  destruct (split_sp value grid (argwhere (fun x => Z.eqb x (value HisSpecial)) grid)) eqn:E2.
  cbn. rewrite E1, E2. auto.
Qed.

End WithValues.

End StageFacts.

Import StageFacts.

(** C6.  In every constructed Stage, for me and for the opponent alike:
    the player's [sp] lists exactly the cells that hold the player's
    special value; a cell of [sp] is in [fiery_sp] exactly when each of its
    in-bounds 8-neighbours is non-Empty, and in [unfiery_sp] exactly when
    one of them is Empty; no cell is in both, and the two lists together
    are a rearrangement of [sp]. *)
Theorem Stage_fiery_split (value : Grid -> Z) a l st :
  Stage_init value a = (l, Ok st) ->
  (forall c, In c (s_my_sp st) <-> cell_is (s_grid st) (value MySpecial) c)
  /\ fiery_split value (s_grid st) (s_my_sp st)
                 (s_my_fiery_sp st) (s_my_unfiery_sp st)
  /\ (forall c, In c (s_his_sp st) <-> cell_is (s_grid st) (value HisSpecial) c)
  /\ fiery_split value (s_grid st) (s_his_sp st)
                 (s_his_fiery_sp st) (s_his_unfiery_sp st).
Proof.
  unfold Stage_init. intros H.
  destruct (first_cell a) as [l0 [[] | e]]; [| discriminate].
  cbn in H. inversion H; subst. clear H.
  destruct (Stage_fields_sp value (values_of value a)) as [Hg [Hm [Hh [Sm Sh]]]].
  rewrite Hg.
  pose proof (split_sp_fiery_split value (values_of value a)
                (s_my_sp (Stage_fields value (values_of value a)))) as Fm.
  pose proof (split_sp_fiery_split value (values_of value a)
                (s_his_sp (Stage_fields value (values_of value a)))) as Fh.
  rewrite <- Sm in Fm. rewrite <- Sh in Fh. cbn [fst snd] in Fm, Fh.
  split; [| split; [exact Fm | split; [| exact Fh]]].
  - intros c. rewrite Hm. apply argwhere_cell_is.
  - intros c. rewrite Hh. apply argwhere_cell_is.
Qed.

Lemma Stage_fiery_split_witness :
  exists st,
    Stage_init example_value
      (OfGrid [[MySpecial; MyInk; Empty];
               [Wall; HisInk; HisSpecial];
               [Empty; Empty; MyInk]]) = ([], Ok st)
    /\ s_my_fiery_sp st = [(0, 0)%Z] /\ s_his_unfiery_sp st = [(1, 2)%Z]
    /\ fiery_split example_value (s_grid st) (s_my_sp st)
                   (s_my_fiery_sp st) (s_my_unfiery_sp st)
    /\ fiery_split example_value (s_grid st) (s_his_sp st)
                   (s_his_fiery_sp st) (s_his_unfiery_sp st).
Proof.
  eexists. split; [reflexivity |]. split; [reflexivity |].
  split; [reflexivity |].
  split;
    eapply (@Stage_fiery_split example_value
              (OfGrid [[MySpecial; MyInk; Empty];
                       [Wall; HisInk; HisSpecial];
                       [Empty; Empty; MyInk]]) []);
    reflexivity.
Defined.

(* ================================================================== *)
(** * The hand detector                                                *)
(* ================================================================== *)

Module DetectionFacts.
Import Np Mask NpFacts Detection.

Lemma shape_of_length {A} (a : list (list A)) : length (shape_of a) = length a.
Proof. apply length_map. Qed.

Lemma shape_of_row {A} (a : list (list A)) i :
  nth i (shape_of a) 0 = length (nth i a []).
Proof. unfold shape_of. change 0 with (length (@nil A)). apply map_nth. Qed.

Lemma shape_of_map {A B} (f : A -> B) (a : list (list A)) :
  shape_of (map (map f) a) = shape_of a.
Proof.
  unfold shape_of. rewrite map_map. apply map_ext. intros r. apply length_map.
Qed.

Lemma same_shape_length {A B} (a : list (list A)) (b : list (list B)) :
  shape_of a = shape_of b -> length a = length b.
Proof. intros H. now rewrite <- (shape_of_length a), H, shape_of_length. Qed.

Lemma same_shape_row {A B} (a : list (list A)) (b : list (list B)) i :
  shape_of a = shape_of b -> length (nth i a []) = length (nth i b []).
Proof. intros H. now rewrite <- !shape_of_row, H. Qed.

Lemma assign_where_shape {A} mask (v : A) a :
  shape_of mask = shape_of a -> shape_of (assign_where mask v a) = shape_of a.
Proof.
  revert mask. induction a as [| r a IH]; intros [| m mask] H; try discriminate;
    [reflexivity |].
  unfold shape_of in *. cbn in *. injection H as Hr Ht.
  rewrite length_map, length_combine, Hr, Nat.min_id. f_equal.
  now apply IH.
Qed.

Lemma assign_where_item {A} (d : A) mask v a i k :
  shape_of mask = shape_of a ->
  i < length a -> k < length (nth i a []) ->
  item d (assign_where mask v a) i k
  = if nth k (nth i mask []) false then v else item d a i k.
Proof.
  intros H Hi Hk. unfold assign_where, item.
  pose proof (same_shape_length _ _ H) as HL.
  pose proof (same_shape_row _ _ i H) as HR.
  rewrite (nth_map_in _ _ ([], []) []) by (rewrite length_combine; lia).
  rewrite combine_nth by congruence. cbn [fst snd].
  rewrite (nth_map_in _ _ (d, false) d) by (rewrite length_combine; lia).
  rewrite combine_nth by congruence. reflexivity.
Qed.

Section WithFrame.
Variable value : Grid -> Z.
Variable frame : Type.
Variable in_range_count : frame -> Z * Z -> hsv -> hsv -> Z.

Lemma ratios_of_shape img rois lo up :
  shape_of (ratios_of in_range_count img rois lo up) = shape_of rois.
Proof. apply shape_of_map. Qed.

Lemma exceeds_ratios_item img rois lo up i k :
  i < length rois -> k < length (nth i rois []) ->
  nth k (nth i (map (map exceeds) (ratios_of in_range_count img rois lo up)) [])
      false
  = exceeds (grid_ratios in_range_count img (item (0, 0)%Z rois i k) lo up).
Proof.
  intros Hi Hk. unfold ratios_of, item. rewrite !map_map.
  rewrite (nth_map_in _ _ [] []) by assumption.
  rewrite map_map. now rewrite (nth_map_in _ _ (0, 0)%Z false).
Qed.

(** Each cell of [classify] is [classify_cell] of its four tests. *)
Lemma classify_item img rois b1 b2 b3 b4 b5 b6 b7 b8 i k :
  i < length rois -> k < length (nth i rois []) ->
  let tl := item (0, 0)%Z rois i k in
  item 0%Z
       (classify value
          (ratios_of in_range_count img rois b1 b2)
          (ratios_of in_range_count img rois b3 b4)
          (ratios_of in_range_count img rois b5 b6)
          (ratios_of in_range_count img rois b7 b8)) i k
  = classify_cell value
      (exceeds (grid_ratios in_range_count img tl b1 b2))
      (exceeds (grid_ratios in_range_count img tl b3 b4))
      (exceeds (grid_ratios in_range_count img tl b5 b6))
      (exceeds (grid_ratios in_range_count img tl b7 b8)).
Proof.
  intros Hi Hk tl. unfold classify.
  set (z := map (map (fun _ : Q => 0%Z)) (ratios_of in_range_count img rois b1 b2)).
  assert (Sz : shape_of z = shape_of rois)
    by (unfold z; now rewrite shape_of_map, ratios_of_shape).
  assert (Sm : forall lo up,
             shape_of (map (map exceeds) (ratios_of in_range_count img rois lo up))
             = shape_of rois)
    by (intros; now rewrite shape_of_map, ratios_of_shape).
  set (g1 := assign_where _ (value MyInk) z).
  assert (S1 : shape_of g1 = shape_of rois)
    by (unfold g1; rewrite assign_where_shape; [assumption | now rewrite Sm, Sz]).
  set (g2 := assign_where _ (value MySpecial) g1).
  assert (S2 : shape_of g2 = shape_of rois)
    by (unfold g2; rewrite assign_where_shape; [assumption | now rewrite Sm, S1]).
  set (g3 := assign_where _ (value MyInk) g2).
  assert (S3 : shape_of g3 = shape_of rois)
    by (unfold g3; rewrite assign_where_shape; [assumption | now rewrite Sm, S2]).
  assert (L : forall (g : matrix), shape_of g = shape_of rois ->
                i < length g /\ k < length (nth i g [])).
  { intros g Sg. rewrite (same_shape_length _ _ Sg), (same_shape_row _ _ i Sg).
    now split. }
  rewrite assign_where_item; [| now rewrite Sm, S3 | apply (L _ S3) ..].
  unfold g3. rewrite assign_where_item; [| now rewrite Sm, S2 | apply (L _ S2) ..].
  unfold g2. rewrite assign_where_item; [| now rewrite Sm, S1 | apply (L _ S1) ..].
  unfold g1. rewrite assign_where_item; [| now rewrite Sm, Sz | apply (L _ Sz) ..].
  rewrite !exceeds_ratios_item by assumption. fold tl.
  assert (Z0 : item 0%Z z i k = 0%Z).
  { unfold z, item, ratios_of. rewrite !map_map.
    rewrite (nth_map_in _ _ [] []) by assumption.
    rewrite map_map. now rewrite (nth_map_in _ _ (0, 0)%Z 0%Z). }
  rewrite Z0. unfold classify_cell. reflexivity.
Qed.

Variable hands_cursor : frame -> Z.
Variables HG HC FG FC : list (list (Z * Z)).


(** The classification of one cell by [hands]. *)
Lemma hands_grids_item img cursor i k :
  let rois := grid_rois_of hands_cursor HG FG img cursor in
  i < length rois -> k < length (nth i rois []) ->
  let tl := item (0, 0)%Z rois i k in
  item 0%Z (hands_grids value in_range_count hands_cursor HG FG img cursor) i k
  = classify_cell value
      (exceeds (grid_ratios in_range_count img tl
                  MY_INK_LIGHTER_COLOR_HSV_LOWER_BOUND
                  MY_INK_LIGHTER_COLOR_HSV_UPPER_BOUND))
      (exceeds (grid_ratios in_range_count img tl
                  MY_SPECIAL_LIGHTER_COLOR_HSV_LOWER_BOUND
                  MY_SPECIAL_LIGHTER_COLOR_HSV_UPPER_BOUND))
      (exceeds (grid_ratios in_range_count img tl
                  MY_INK_DARKER_COLOR_HSV_LOWER_BOUND
                  MY_INK_DARKER_COLOR_HSV_UPPER_BOUND))
      (exceeds (grid_ratios in_range_count img tl
                  MY_SPECIAL_DARKER_COLOR_HSV_LOWER_BOUND
                  MY_SPECIAL_DARKER_COLOR_HSV_UPPER_BOUND)).
Proof.
  intros rois Hi Hk tl. unfold hands_grids. now apply classify_item.
Qed.

(** What holds of the classification on every cell: it is Empty's
    value 0 when no band passes, MyInk or MySpecial when one does, and
    MySpecial when the special-darker band passes, or the
    special-lighter band passes and the ink-darker band does not. *)
Lemma classify_cell_unmatched :
  classify_cell value false false false false = 0%Z.
Proof. reflexivity. Qed.

Lemma classify_cell_matched ink special dark_ink dark_special :
  ink || special || dark_ink || dark_special = true ->
  classify_cell value ink special dark_ink dark_special = value MyInk
  \/ classify_cell value ink special dark_ink dark_special = value MySpecial.
Proof.
  destruct ink, special, dark_ink, dark_special; cbn; auto; discriminate.
Qed.

Lemma classify_cell_special ink special dark_ink dark_special :
  dark_special || (special && negb dark_ink) = true ->
  classify_cell value ink special dark_ink dark_special = value MySpecial.
Proof.
  destruct ink, special, dark_ink, dark_special; cbn; auto; discriminate.
Qed.

Lemma classify_cell_ink ink dark_ink :
  ink || dark_ink = true ->
  classify_cell value ink false dark_ink false = value MyInk.
Proof. destruct ink, dark_ink; cbn; auto; discriminate. Qed.

End WithFrame.

(** A frame with an empty hand slot stops [hands]: the Card of a slot
    without ink cannot be built. *)
Example hands_empty_slot_raises :
  outcome (hands example_value example_count (fun _ => 0%Z)
             (example_rois 0 64) (example_rois 200 6)
             (example_rois 100 64) (example_rois 300 6)
             mixed_cell_frame (Some (-1)%Z))
  = Raise IndexError.
Proof. vm_compute. reflexivity. Qed.

End DetectionFacts.

Import Detection DetectionFacts.

(** C2.  The claim is that MySpecial wins whenever an ink band and a
    special band both pass the threshold for a cell.  When the cell passes
    the special-lighter test and the ink-darker test but not the
    special-darker test, [hands] leaves MyInk in it: the ink-darker
    assignment of line 86 comes after the special-lighter one of line 85
    and overwrites it. *)
Theorem hands_ink_darker_overrides_special_lighter
        (value : Grid -> Z) (frame : Type)
        (in_range_count : frame -> Z * Z -> hsv -> hsv -> Z)
        (hands_cursor : frame -> Z) (HG FG : list (list (Z * Z)))
        (img : frame) (cursor : option Z) (i k : nat) :
  let rois := grid_rois_of hands_cursor HG FG img cursor in
  let tl := item (0, 0)%Z rois i k in
  i < length rois -> k < length (nth i rois []) ->
  exceeds (grid_ratios in_range_count img tl
             MY_SPECIAL_LIGHTER_COLOR_HSV_LOWER_BOUND
             MY_SPECIAL_LIGHTER_COLOR_HSV_UPPER_BOUND) = true ->
  exceeds (grid_ratios in_range_count img tl
             MY_INK_DARKER_COLOR_HSV_LOWER_BOUND
             MY_INK_DARKER_COLOR_HSV_UPPER_BOUND) = true ->
  exceeds (grid_ratios in_range_count img tl
             MY_SPECIAL_DARKER_COLOR_HSV_LOWER_BOUND
             MY_SPECIAL_DARKER_COLOR_HSV_UPPER_BOUND) = false ->
  item 0%Z (hands_grids value in_range_count hands_cursor HG FG img cursor) i k
  = value MyInk.
Proof.
  intros rois tl Hi Hk Hs Hdi Hds.
  rewrite hands_grids_item by assumption. fold rois. fold tl.
  rewrite Hs, Hdi, Hds. reflexivity.
Qed.

Lemma hands_ink_darker_overrides_special_lighter_witness :
  item 0%Z
       (hands_grids example_value example_count (fun _ => (-1)%Z)
                    (example_rois 0 64) (example_rois 100 64)
                    mixed_cell_frame (Some (-1)%Z)) 0 0
  = 1%Z.
Proof.
  apply (@hands_ink_darker_overrides_special_lighter
           example_value example_frame example_count (fun _ => (-1)%Z)
           (example_rois 0 64) (example_rois 100 64)
           mixed_cell_frame (Some (-1)%Z) 0 0);
    first [ reflexivity | cbn; lia ].
Defined.



(* ================================================================== *)
(** * The manager: stabilised detection and rotation                   *)
(* ================================================================== *)

Module ManagerFacts.
Import Manager.


Section MultiDetect.
Variable V : Type.
Variable veq : V -> V -> bool.








Variable detect_fn : nat -> sample V.




(** What the way the loop ends tells about the polls made. *)
Lemma detect_loop_history remaining : forall polls,
  1 <= polls ->
  match detect_loop veq detect_fn remaining polls (detect_fn (polls - 1)) with
  | Returned d =>
      polls <= d_polls d <= polls + remaining
      /\ d_value d = detect_fn (d_polls d - 1)
      /\ (forall j, polls <= j < d_polls d - 1 ->
                    settled veq (detect_fn (j - 1)) (detect_fn j) = Fail)
      /\ ((d_log d = [] /\ polls < d_polls d
           /\ settled veq (detect_fn (d_polls d - 2)) (detect_fn (d_polls d - 1))
              = Pass)
          \/ (d_log d = [MultiDetectExceeded] /\ d_polls d = polls + remaining
              /\ forall j, polls <= j < polls + remaining ->
                   settled veq (detect_fn (j - 1)) (detect_fn j) = Fail))
  | RaisedValueError n =>
      polls < n <= polls + remaining
      /\ settled veq (detect_fn (n - 2)) (detect_fn (n - 1)) = Ambiguous
      /\ (forall j, polls <= j < n - 1 ->
                    settled veq (detect_fn (j - 1)) (detect_fn j) = Fail)
  | Outside n =>
      polls < n <= polls + remaining
      /\ settled veq (detect_fn (n - 2)) (detect_fn (n - 1)) = Unmodelled
      /\ (forall j, polls <= j < n - 1 ->
                    settled veq (detect_fn (j - 1)) (detect_fn j) = Fail)
  end.
Proof.
  induction remaining as [| n IH]; intros polls Hp; cbn [detect_loop].
  - cbn. split; [lia |]. split; [reflexivity |]. split; [intros; lia |].
    right. split; [reflexivity |]. split; [lia |]. intros; lia.
  - assert (P2 : S polls - 2 = polls - 1) by lia.
    assert (P1 : S polls - 1 = polls) by lia.
    destruct (settled veq (detect_fn (polls - 1)) (detect_fn polls)) eqn:E.
    + cbn [d_polls d_value d_log]. rewrite P2, P1.
      split; [lia |]. split; [reflexivity |]. split; [intros; lia |].
      left. split; [reflexivity |]. split; [lia | exact E].
    + specialize (IH (S polls) ltac:(lia)). rewrite P1 in IH.
      assert (F : forall k, (forall j, S polls <= j < k ->
                    settled veq (detect_fn (j - 1)) (detect_fn j) = Fail) ->
                  forall j, polls <= j < k ->
                    settled veq (detect_fn (j - 1)) (detect_fn j) = Fail).
      { intros k H j Hj. destruct (Nat.eq_dec j polls) as [-> | Hne];
          [exact E | apply H; lia]. }
      destruct (detect_loop veq detect_fn n (S polls) (detect_fn polls))
        as [d | m | m].
      * destruct IH as [B [Hv [Hn Hc]]].
        split; [lia |]. split; [exact Hv |]. split; [now apply F |].
        destruct Hc as [[L [Lt P]] | [L [Eq P]]].
        -- left. split; [exact L |]. split; [lia | exact P].
        -- right. split; [exact L |]. split; [lia |].
           apply F. intros j Hj. apply P. lia.
      * destruct IH as [B [Ha Hn]].
        split; [lia |]. split; [exact Ha | now apply F].
      * destruct IH as [B [Ha Hn]].
        split; [lia |]. split; [exact Ha | now apply F].
    + rewrite P2, P1. split; [lia |]. split; [exact E | intros; lia].
    + rewrite P2, P1. split; [lia |]. split; [exact E | intros; lia].
Qed.

(** Bare ndarrays of one length, two elements or more: the test of the
    second poll raises. *)
Lemma multi_detect_bare_ndarrays a b max_loop :
  detect_fn 0 = Plain (Ndarray a) -> detect_fn 1 = Plain (Ndarray b) ->
  length a = length b -> 2 <= length a ->
  multi_detect veq detect_fn (S max_loop) = RaisedValueError 2.
Proof.
  intros H0 H1 L La. unfold multi_detect. cbn [detect_loop].
  rewrite H0, H1. cbn [settled]. unfold ndarray_eq.
  rewrite <- L, Nat.eqb_refl.
  destruct a as [| x [| x' a]]; try (cbn in La; lia).
  destruct b as [| y [| y' b]]; try discriminate.
  reflexivity.
Qed.

End MultiDetect.

(** ** The rotation loop *)

Lemma argmax_lt (l : list bool) : l <> [] -> Np.argmax l < length l.
Proof.
  induction l as [| b l IH]; [congruence |]. intros _.
  destruct b; cbn; [lia |].
  destruct (existsb (fun x => x) l) eqn:E; [| lia].
  assert (l <> []) by (intros ->; discriminate).
  specialize (IH H). lia.
Qed.

Section Loop.
Variables macro world : Type.
Variable rotate_card_marco : Z -> macro.
Variable compare_pattern : Pattern -> Pattern -> bool.
Variable preview : world -> Pattern * world.
Variable send : macro -> world -> world.
Variable target : Z.
Variable card : Card.
Hypothesis target_positive : (0 < target)%Z.
Hypothesis target_int64 : (target + 4 < 2 ^ 63)%Z.

Lemma current_rotate_lt actual :
  current_rotate compare_pattern (map (get_pattern card) [0; 1; 2; 3]%Z) actual
  < 4.
Proof.
  unfold current_rotate.
  destruct (_ && _);
    match goal with
    | |- Np.argmax ?l < 4 =>
        change 4 with (length l); apply argmax_lt; discriminate
    end.
Qed.

(** Within int64, line 213 is the formula of the specification. *)
Lemma rotate_steps_in_range current :
  current < 4 ->
  rotate_steps target current
  = Some ((target - Z.of_nat current + 4) mod 4)%Z.
Proof.
  intros Hc. unfold rotate_steps, int64.
  replace (- 2 ^ 63 <=? target + 4)%Z with true
    by (symmetry; apply Z.leb_le; lia).
  replace (target + 4 <? 2 ^ 63)%Z with true
    by (symmetry; apply Z.ltb_lt; lia).
  replace (- 2 ^ 63 <=? target + 4 - Z.of_nat current)%Z with true
    by (symmetry; apply Z.leb_le; lia).
  replace (target + 4 - Z.of_nat current <? 2 ^ 63)%Z with true
    by (symmetry; apply Z.ltb_lt; lia).
  cbn [andb]. do 2 f_equal. lia.
Qed.

Local Abbreviation steps :=
  (steps_at compare_pattern preview target card).
Local Abbreviation world_at :=
  (reading rotate_card_marco compare_pattern preview send target card).
Local Abbreviation loop fuel w :=
  (rotate_loop rotate_card_marco compare_pattern preview send fuel target
               (map (get_pattern card) [0; 1; 2; 3]%Z) w).

Lemma steps_bounds w : (0 <= steps w < 4)%Z.
Proof. unfold steps_at. apply Z.mod_pos_bound. lia. Qed.

(** One iteration. *)
Lemma rotate_loop_step fuel w :
  loop (S fuel) w
  = if Z.eqb (steps w) 0 then Stopped ([], snd (preview w))
    else match loop fuel (send (rotate_card_marco (steps w)) (snd (preview w))) with
         | Stopped (sent, w') => Stopped (rotate_card_marco (steps w) :: sent, w')
         | Running => Running
         | OutsideModel => OutsideModel
         end.
Proof.
  cbn [rotate_loop]. unfold steps_at, detected_rotation.
  destruct (preview w) as [actual w1]. cbn [fst snd].
  now rewrite (rotate_steps_in_range (current_rotate_lt actual)).
Qed.

(** The loop stops at the first reading whose steps are 0, having sent
    the macros of the readings before, one each. *)
Lemma rotate_loop_stops fuel : forall w n,
  n < fuel ->
  (forall k, k < n -> steps (world_at k w) <> 0%Z) ->
  steps (world_at n w) = 0%Z ->
  loop fuel w
  = Stopped (map (fun k => rotate_card_marco (steps (world_at k w))) (seq 0 n),
             snd (preview (world_at n w))).
Proof.
  induction fuel as [| fuel IH]; intros w n Hn Hne Hz; [lia |].
  rewrite rotate_loop_step. destruct n as [| n].
  - cbn [reading] in Hz. rewrite Hz. reflexivity.
  - pose proof (Hne 0 ltac:(lia)) as H0. cbn [reading] in H0.
    replace (Z.eqb (steps w) 0) with false
      by (symmetry; now apply Z.eqb_neq).
    rewrite (IH (send (rotate_card_marco (steps w)) (snd (preview w))) n);
      [| lia | intros k Hk; apply (Hne (S k)); lia | exact Hz].
    cbn [seq map reading]. rewrite <- seq_shift, map_map. reflexivity.
Qed.

(** It goes on as long as no reading has steps 0. *)
Lemma rotate_loop_runs fuel : forall w,
  (forall k, k < fuel -> steps (world_at k w) <> 0%Z) ->
  loop fuel w = Running.
Proof.
  induction fuel as [| fuel IH]; intros w Hne; [reflexivity |].
  rewrite rotate_loop_step.
  pose proof (Hne 0 ltac:(lia)) as H0. cbn [reading] in H0.
  replace (Z.eqb (steps w) 0) with false by (symmetry; now apply Z.eqb_neq).
  rewrite IH; [reflexivity |]. intros k Hk. apply (Hne (S k)). lia.
Qed.

Lemma rotate_card_loop fuel w :
  rotate_card rotate_card_marco compare_pattern preview send fuel target card w
  = loop fuel w.
Proof.
  unfold rotate_card.
  replace (target >? 0)%Z with true by (symmetry; apply Z.gtb_lt; lia).
  reflexivity.
Qed.

End Loop.

(** ** The rotation loop against a game that turns the card *)

Section Turning.
Variable macro : Type.
Variable rotate_card_marco : Z -> macro.
(** The number of quarter turns the game makes of a macro. *)
Variable quarter_turns_of : macro -> Z.
Hypothesis rotate_card_marco_turns :
  forall n, quarter_turns_of (rotate_card_marco n) = n.
Variable compare_pattern : Pattern -> Pattern -> bool.
Variable card : Card.
Hypothesis exact : exact_rotations card = true.

Lemma current_rotate_exact r :
  (0 <= r < 4)%Z ->
  current_rotate compare_pattern (map (get_pattern card) [0; 1; 2; 3]%Z)
                 (get_pattern card r)
  = Z.to_nat r.
Proof.
  intros Hr. pose proof exact as H. unfold exact_rotations in H.
  cbn [forallb] in H. rewrite !andb_true_iff in H.
  repeat match goal with
         | H : _ /\ _ |- _ => destruct H
         | H : Bool.eqb _ _ = true |- _ => apply eqb_prop in H
         end.
  cbn [Z.eqb Pos.eqb] in *.
  unfold current_rotate. cbn [map nth].
  assert (C : (r = 0 \/ r = 1 \/ r = 2 \/ r = 3)%Z) by lia.
  destruct C as [-> | [-> | [-> | ->]]];
    repeat match goal with
           | H : Pattern_eq _ _ = _ |- _ => rewrite H; clear H
           end;
    reflexivity.
Qed.

Lemma steps_turning target r :
  (0 <= r < 4)%Z ->
  steps_at compare_pattern (turning_preview card) target card r
  = ((target - r + 4) mod 4)%Z.
Proof.
  intros Hr. unfold steps_at, detected_rotation, turning_preview. cbn [fst].
  rewrite (current_rotate_exact Hr), Z2Nat.id by lia. reflexivity.
Qed.

(** From any rotation shown, the loop reaches the target with at most
    one macro, and stops. *)
Lemma rotate_card_turning target r fuel :
  (0 < target < 4)%Z -> (0 <= r < 4)%Z ->
  rotate_card rotate_card_marco compare_pattern
              (turning_preview card)
              (fun m => turning_send (quarter_turns_of m)) (2 + fuel)
              target card r
  = Stopped (if Z.eqb r target then []
             else [rotate_card_marco ((target - r + 4) mod 4)%Z], target).
Proof.
  intros Ht Hr.
  assert (T63 : (target + 4 < 2 ^ 63)%Z) by lia.
  rewrite rotate_card_loop by lia.
  destruct (Z.eqb_spec r target) as [-> | Hne].
  - rewrite (@rotate_loop_stops macro Z rotate_card_marco compare_pattern
               (turning_preview card) (fun m => turning_send (quarter_turns_of m))
               target card ltac:(lia) T63 (2 + fuel) target 0);
      [reflexivity | lia | intros; lia |].
    cbn [reading]. rewrite steps_turning by lia.
    replace (target - target + 4)%Z with 4%Z by lia. reflexivity.
  - assert (S0 : steps_at compare_pattern (turning_preview card) target card r
                 = ((target - r + 4) mod 4)%Z) by (now apply steps_turning).
    assert (N0 : ((target - r + 4) mod 4 <> 0)%Z)
      by (Z.div_mod_to_equations; lia).
    assert (R1 : reading rotate_card_marco compare_pattern
                         (turning_preview card)
                         (fun m => turning_send (quarter_turns_of m))
                         target card 1 r = target).
    { cbn [reading turning_preview snd]. rewrite S0, rotate_card_marco_turns.
      unfold turning_send. Z.div_mod_to_equations. lia. }
    rewrite (@rotate_loop_stops macro Z rotate_card_marco compare_pattern
               (turning_preview card) (fun m => turning_send (quarter_turns_of m))
               target card ltac:(lia) T63 (2 + fuel) r 1).
    + cbn [seq map]. rewrite R1. cbn [reading]. rewrite S0. reflexivity.
    + lia.
    + intros k Hk. assert (k = 0) as -> by lia. cbn [reading]. now rewrite S0.
    + rewrite R1, steps_turning by lia.
      replace (target - target + 4)%Z with 4%Z by lia. reflexivity.
Qed.

End Turning.

Example L_card_exact : exact_rotations L_card = true.
Proof. reflexivity. Qed.

End ManagerFacts.

Import Manager ManagerFacts.




(** C9.  Inside int64, for a target rotation above 0: the rotation loop
    takes [steps = (target - current + 4) mod 4], between 0 and 3, from
    the rotation index it detects at each reading; it stops at the first
    reading whose steps are 0, having sent exactly one rotate macro per
    reading before, the macro for the steps of that reading, and it goes
    on as long as no reading has steps 0.  Against a game that turns the
    card by the quarter turns of each macro, for a card whose four
    patterns differ, shown in rotation 0 with target rotation 2, the loop
    sends one macro, the rotate macro for 2 quarter turns, and stops with
    rotation 2 shown. *)
Theorem rotate_loop_steps
        (macro : Type) (rotate_card_marco : Z -> macro)
        (compare_pattern : Pattern -> Pattern -> bool) :
  (forall (world : Type) (preview : world -> Pattern * world)
          (send : macro -> world -> world) (target : Z) (card : Card),
      (0 < target)%Z -> (target + 4 < 2 ^ 63)%Z ->
      (forall w,
          (0 <= steps_at compare_pattern preview target card w < 4)%Z)
      /\ (forall fuel w n,
             n < fuel ->
             (forall k, k < n ->
                steps_at compare_pattern preview target card
                         (reading rotate_card_marco compare_pattern preview
                                  send target card k w) <> 0%Z) ->
             steps_at compare_pattern preview target card
                      (reading rotate_card_marco compare_pattern preview
                               send target card n w) = 0%Z ->
             rotate_card rotate_card_marco compare_pattern preview send
                         fuel target card w
             = Stopped
                 (map (fun k =>
                         rotate_card_marco
                           (steps_at compare_pattern preview target card
                              (reading rotate_card_marco compare_pattern
                                       preview send target card k w)))
                      (seq 0 n),
                  snd (preview (reading rotate_card_marco compare_pattern
                                        preview send target card n w))))
      /\ (forall fuel w,
             (forall k, k < fuel ->
                steps_at compare_pattern preview target card
                         (reading rotate_card_marco compare_pattern preview
                                  send target card k w) <> 0%Z) ->
             rotate_card rotate_card_marco compare_pattern preview send
                         fuel target card w
             = Running))
  /\ (forall (quarter_turns_of : macro -> Z) (card : Card) (fuel : nat),
         (forall n, quarter_turns_of (rotate_card_marco n) = n) ->
         exact_rotations card = true ->
         rotate_card rotate_card_marco compare_pattern
                     (turning_preview card)
                     (fun m => turning_send (quarter_turns_of m))
                     (2 + fuel) 2 card 0%Z
         = Stopped ([rotate_card_marco 2%Z], 2%Z))
  /\ Card_init example_value (OfGrid L_grid) 2 = ([], Ok L_card)
  /\ exact_rotations L_card = true.
Proof.
  split; [| split; [| split]].
  - intros world preview send target card Ht T63.
    split; [| split].
    + intros w. apply steps_bounds.
    + intros fuel w n Hn Hne Hz.
      rewrite rotate_card_loop by assumption.
      now apply rotate_loop_stops.
    + intros fuel w Hne.
      rewrite rotate_card_loop by assumption.
      now apply rotate_loop_runs.
  - intros quarter_turns_of card fuel Hq He.
    exact (@rotate_card_turning macro rotate_card_marco quarter_turns_of Hq
             compare_pattern card He 2%Z 0%Z fuel ltac:(lia) ltac:(lia)).
  - reflexivity.
  - reflexivity.
Qed.

Lemma rotate_loop_steps_witness :
  rotate_card (fun quarter_turns : Z => quarter_turns) (fun _ _ => false)
              (turning_preview L_card) turning_send 5 2 L_card 0%Z
  = Stopped ([2%Z], 2%Z)
  /\ rotate_card (fun quarter_turns : Z => quarter_turns) (fun _ _ => false)
                 (turning_preview domino_card) turning_send 5 2 domino_card 0%Z
     = Running.
Proof.
  destruct (@rotate_loop_steps Z (fun quarter_turns => quarter_turns)
              (fun _ _ => false)) as [G [P _]].
  split.
  - exact (P (fun quarter_turns => quarter_turns) L_card 3
             (fun n => eq_refl) eq_refl).
  - destruct (G Z (turning_preview domino_card) turning_send 2%Z domino_card
                ltac:(lia) ltac:(lia)) as [_ [_ R]].
    apply (R 5 0%Z). intros k Hk.
    do 5 (destruct k as [| k]; [vm_compute; discriminate |]). lia.
Defined.

(** For the L-shaped card shown in rotation 0, with target rotation 2,
    the loop does not send two macros: it sends one, for 2 quarter
    turns. *)
Lemma rotate_loop_sends_one_macro :
  ~ (exists sent w,
        rotate_card (fun quarter_turns : Z => quarter_turns) (fun _ _ => false)
                    (turning_preview L_card) turning_send 5 2 L_card 0%Z
        = Stopped (sent, w)
        /\ length sent = 2).
Proof.
  intros [sent [w [E L]]]. vm_compute in E. inversion E; subst.
  discriminate L.
Qed.

(* ================================================================== *)
(** * More about the numpy fragment                                    *)
(* ================================================================== *)

Module NpMore.
Import Np Mask NpFacts.

Lemma row_lt_iff a b :
  row_lt a b <-> (fst a < fst b \/ (fst a = fst b /\ snd a < snd b))%Z.
Proof.
  unfold row_lt, row_ltb.
  rewrite orb_true_iff, andb_true_iff, !Z.ltb_lt, Z.eqb_eq. tauto.
Qed.

Lemma row_lt_trans a b c : row_lt a b -> row_lt b c -> row_lt a c.
Proof. rewrite !row_lt_iff. lia. Qed.

Lemma row_lt_irrefl a : ~ row_lt a a.
Proof. rewrite row_lt_iff. lia. Qed.

Lemma StronglySorted_app {A} (R : A -> A -> Prop) (l1 l2 : list A) :
  StronglySorted R l1 -> StronglySorted R l2 ->
  (forall x y, In x l1 -> In y l2 -> R x y) ->
  StronglySorted R (l1 ++ l2).
Proof.
  intros S1 S2 H. induction S1 as [| x l1 S1 IH Hx]; [assumption |].
  cbn. constructor.
  - apply IH. intros a b Ha Hb. apply H; [now right | assumption].
  - apply Forall_app. split; [assumption |].
    apply Forall_forall. intros y Hy. apply H; [now left | assumption].
Qed.

Lemma StronglySorted_NoDup {A} (R : A -> A -> Prop) (l : list A) :
  (forall x, ~ R x x) -> StronglySorted R l -> NoDup l.
Proof.
  intros Hirr S. induction S as [| x l S IH Hx]; constructor; [| assumption].
  intros Hin. rewrite Forall_forall in Hx. apply (Hirr x). now apply Hx.
Qed.

Section Argwhere.
Variable A : Type.
Variable d : A.
Variable f : A -> bool.

Lemma where_row_sorted i : forall r j0,
  StronglySorted row_lt (where_row f i j0 r).
Proof.
  induction r as [| x r IH]; intros j0; cbn [where_row]; [constructor |].
  apply StronglySorted_app; [| apply IH |].
  - destruct (f x); repeat constructor.
  - intros a b Ha Hb. destruct (f x); [| destruct Ha].
    destruct Ha as [<- | []]. destruct b as [bi bj].
    apply (where_row_In d) in Hb as [-> [Hb _]].
    apply row_lt_iff. cbn. lia.
Qed.

Lemma argwhere_from_sorted : forall m i0,
  StronglySorted row_lt (argwhere_from f i0 m).
Proof.
  induction m as [| r m IH]; intros i0; cbn [argwhere_from]; [constructor |].
  apply StronglySorted_app; [apply where_row_sorted | apply IH |].
  intros [ai aj] [bi bj] Ha Hb.
  apply (where_row_In d) in Ha as [-> _].
  apply (argwhere_from_In d) in Hb as [Hb _].
  apply row_lt_iff. cbn. lia.
Qed.

(** [np.argwhere] lists its indexes in row-major order, each once. *)
Lemma argwhere_sorted m : StronglySorted row_lt (argwhere f m).
Proof. apply argwhere_from_sorted. Qed.

Lemma argwhere_NoDup m : NoDup (argwhere f m).
Proof.
  apply (StronglySorted_NoDup (R := row_lt)); [apply row_lt_irrefl |].
  apply argwhere_sorted.
Qed.

Lemma where_row_length i : forall r j0,
  length (where_row f i j0 r) = length (filter f r).
Proof.
  induction r as [| x r IH]; intros j0; cbn; [reflexivity |].
  rewrite length_app, IH. destruct (f x); reflexivity.
Qed.

Lemma argwhere_from_length : forall m i0,
  length (argwhere_from f i0 m) = length (filter f (concat m)).
Proof.
  induction m as [| r m IH]; intros i0; cbn; [reflexivity |].
  now rewrite length_app, filter_app, length_app, where_row_length, IH.
Qed.

(** [argwhere] lists as many indexes as there are cells passing the test. *)
Lemma argwhere_length m : length (argwhere f m) = length (filter f (concat m)).
Proof. apply argwhere_from_length. Qed.

Lemma argwhere_pass m idx :
  In idx (argwhere f m) -> f (item_at d m idx) = true.
Proof.
  destruct idx as [a b]. intros H. apply (argwhere_In d) in H. tauto.
Qed.

End Argwhere.

End NpMore.

(* ================================================================== *)
(** * More about Pattern                                               *)
(* ================================================================== *)

Module PatternMore.
Import Np Mask NpFacts NpMore PatternFacts.

Section WithValues.
Variable value : Grid -> Z.

Lemma shift_sorted (i0 : Z * Z) (l : list (Z * Z)) :
  StronglySorted row_lt l ->
  StronglySorted row_lt
    (map (fun i => (fst i - fst i0, snd i - snd i0)%Z) l).
Proof.
  induction 1 as [| x l S IH Hx]; cbn; constructor; [assumption |].
  rewrite Forall_forall in *. intros y Hy.
  apply in_map_iff in Hy as [z [<- Hz]]. specialize (Hx z Hz).
  rewrite row_lt_iff in *. cbn. lia.
Qed.

Lemma pattern_of_offsets g i0 idx :
  argwhere (is_my value) g = i0 :: idx ->
  p_offsets (pattern_of value g)
  = (0, 0)%Z :: map (fun i => (fst i - fst i0, snd i - snd i0)%Z) idx.
Proof.
  intros E. unfold pattern_of. rewrite E. cbn. now rewrite !Z.sub_diag.
Qed.

End WithValues.

End PatternMore.

Import NpMore PatternMore.

Lemma built_offsets (value : Grid -> Z) a l p :
  Pattern_init value a = (l, Ok p) ->
  hd_error (p_offsets p) = Some (0, 0)%Z
  /\ StronglySorted row_lt (p_offsets p)
  /\ NoDup (p_offsets p).
Proof.
  intros H. apply Pattern_init_Ok_inv in H as [_ [Hne ->]].
  set (g := trim value (values_of value a)) in *.
  assert (S : StronglySorted row_lt (p_offsets (pattern_of value g))).
  { unfold pattern_of. cbn [p_offsets]. apply shift_sorted.
    apply (argwhere_sorted 0%Z). }
  split; [| split; [exact S |]].
  - destruct (argwhere (is_my value) g) as [| i0 idx] eqn:E; [congruence |].
    now rewrite (pattern_of_offsets _ _ E).
  - apply (StronglySorted_NoDup (R := row_lt)); [apply row_lt_irrefl | exact S].
Qed.

(** X1.  In every constructed Pattern [offsets[0]] is (0, 0), and the
    offsets are strictly increasing in row-major order, so no offset
    occurs twice. *)
Theorem Pattern_offsets_origin (value : Grid -> Z) a l p :
  Pattern_init value a = (l, Ok p) ->
  hd_error (p_offsets p) = Some (0, 0)%Z
  /\ StronglySorted row_lt (p_offsets p)
  /\ NoDup (p_offsets p).
Proof. exact (@built_offsets value a l p). Qed.

Lemma Pattern_offsets_origin_witness :
  hd_error (p_offsets (pattern_of example_value [[1; 0]; [1; 2]]%Z))
  = Some (0, 0)%Z
  /\ StronglySorted row_lt
       (p_offsets (pattern_of example_value [[1; 0]; [1; 2]]%Z))
  /\ NoDup (p_offsets (pattern_of example_value [[1; 0]; [1; 2]]%Z)).
Proof.
  apply (@Pattern_offsets_origin example_value
           (OfGrid [[Empty; Empty; Empty]; [MyInk; Empty; Empty];
                    [MyInk; MySpecial; Empty]]) []).
  reflexivity.
Defined.

Lemma built_size_squares (value : Grid -> Z) a l p :
  Pattern_init value a = (l, Ok p) ->
  p_size p = length (p_squares p)
  /\ p_size p = length (p_offsets p)
  /\ 1 <= p_size p
  /\ p_size p = length (filter (is_my value) (concat (p_grid p)))
  /\ Forall (fun x => x = value MyInk \/ x = value MySpecial) (p_squares p)
  /\ exists i0,
       hd_error (argwhere (is_my value) (p_grid p)) = Some i0
       /\ map (fun o => item_at 0%Z (p_grid p)
                                (fst i0 + fst o, snd i0 + snd o)%Z)
              (p_offsets p)
          = p_squares p.
Proof.
  intros H. apply Pattern_init_Ok_inv in H as [_ [Hne ->]].
  set (g := trim value (values_of value a)) in *.
  unfold pattern_of. cbn [p_size p_squares p_offsets p_grid].
  rewrite !length_map.
  destruct (argwhere (is_my value) g) as [| i0 idx] eqn:E; [congruence |].
  split; [reflexivity |]. split; [reflexivity |].
  split; [cbn; lia |]. split; [rewrite <- E; apply argwhere_length |].
  split.
  - apply Forall_forall. intros x Hx. apply in_map_iff in Hx as [i [<- Hi]].
    rewrite <- E in Hi. apply (argwhere_pass 0%Z) in Hi.
    unfold is_my in Hi. apply orb_true_iff in Hi.
    rewrite !Z.eqb_eq in Hi. exact Hi.
  - exists i0. split; [reflexivity |]. cbn [hd]. rewrite map_map.
    apply map_ext. intros [x y]. cbn [fst snd]. f_equal. f_equal; lia.
Qed.

(** X2.  In every constructed Pattern [size] is the number of squares and
    of offsets, it is at least 1, it counts the MyInk/MySpecial cells of
    the stored grid, every square holds the value of MyInk or of
    MySpecial, and the n-th square is the cell of the stored grid that
    lies at the n-th offset from the first such cell. *)
Theorem Pattern_size_squares (value : Grid -> Z) a l p :
  Pattern_init value a = (l, Ok p) ->
  p_size p = length (p_squares p)
  /\ p_size p = length (p_offsets p)
  /\ 1 <= p_size p
  /\ p_size p = length (filter (is_my value) (concat (p_grid p)))
  /\ Forall (fun x => x = value MyInk \/ x = value MySpecial) (p_squares p)
  /\ exists i0,
       hd_error (argwhere (is_my value) (p_grid p)) = Some i0
       /\ map (fun o => item_at 0%Z (p_grid p)
                                (fst i0 + fst o, snd i0 + snd o)%Z)
              (p_offsets p)
          = p_squares p.
Proof. exact (@built_size_squares value a l p). Qed.

Lemma Pattern_size_squares_witness :
  let p := pattern_of example_value [[1; 0]; [1; 2]]%Z in
  p_size p = length (p_squares p)
  /\ p_size p = length (p_offsets p)
  /\ 1 <= p_size p
  /\ p_size p = length (filter (is_my example_value) (concat (p_grid p)))
  /\ Forall (fun x => x = example_value MyInk \/ x = example_value MySpecial)
            (p_squares p)
  /\ exists i0,
       hd_error (argwhere (is_my example_value) (p_grid p)) = Some i0
       /\ map (fun o => item_at 0%Z (p_grid p)
                                (fst i0 + fst o, snd i0 + snd o)%Z)
              (p_offsets p)
          = p_squares p.
Proof.
  apply (@Pattern_size_squares example_value
           (OfGrid [[Empty; Empty; Empty]; [MyInk; Empty; Empty];
                    [MyInk; MySpecial; Empty]]) []).
  reflexivity.
Defined.

Module PatternMore2.
Import Np Mask NpFacts NpMore PatternFacts PatternMore CardFacts.

Section WithValues.
Variable value : Grid -> Z.

Lemma is_my_not_Empty x :
  value MyInk <> value Empty -> value MySpecial <> value Empty ->
  is_my value x = true -> not_Empty value x = true.
Proof.
  intros H1 H2 Hm. unfold is_my in Hm. unfold not_Empty.
  apply orb_true_iff in Hm. rewrite !Z.eqb_eq in Hm.
  apply negb_true_iff, Z.eqb_neq. destruct Hm; congruence.
Qed.

(** A cell of mine survives the trim. *)
Lemma trim_keeps_my_cell h w grid :
  value MyInk <> value Empty -> value MySpecial <> value Empty ->
  has_shape h w grid -> has_my_cell value h w grid ->
  argwhere (is_my value) (trim value grid) <> [].
Proof.
  intros H1 H2 S [i [j [Hi [Hj Hm]]]].
  pose proof (is_my_not_Empty _ H1 H2 Hm) as Hn.
  assert (Hh : 0 < h) by lia.
  assert (Hne : grid <> []) by (destruct S, grid; cbn in *; [lia | discriminate]).
  assert (Hr : nth i (any_axis1 (inks value grid)) false = true)
    by (apply (any_axis1_spec value S Hi); now exists j).
  assert (Hc : nth j (any_axis0 (inks value grid)) false = true)
    by (apply (any_axis0_spec value S Hh Hj); now exists i).
  destruct (@sel_onto (any_axis1 (inks value grid)) i) as [k [Hk Hsk]];
    [now rewrite (row_mask_length value S) | assumption |].
  destruct (@sel_onto (any_axis0 (inks value grid)) j) as [l' [Hl Hsl]];
    [now rewrite (col_mask_length value S Hne) | assumption |].
  apply (argwhere_cell 0%Z (is_my value) (trim_shape value S)).
  exists k, l'. split; [assumption |]. split; [assumption |].
  rewrite (trim_item value S) by assumption. now rewrite Hsk, Hsl.
Qed.

Lemma rectangular_first_cell a x :
  rectangular (values_of value a) = true ->
  In x (concat (values_of value a)) ->
  first_cell a = ([], Ok tt).
Proof.
  intros R Hx.
  assert (W : 0 < width (values_of value a)).
  { apply in_concat in Hx as [r [Hr Hx]].
    unfold rectangular in R. rewrite forallb_forall in R.
    specialize (R r Hr). apply Nat.eqb_eq in R. rewrite <- R.
    destruct r; [destruct Hx | cbn; lia]. }
  destruct a as [[| [| y r] g] | [| [| y r] g]]; cbn in W; try lia; reflexivity.
Qed.

End WithValues.

Section Eq.

Lemma list_eqb_iff {A} (eqb : A -> A -> bool) (a : list A) :
  (forall x y, eqb x y = true <-> x = y) ->
  forall b, length a = length b ->
  (forallb (fun p => eqb (fst p) (snd p)) (combine a b) = true <-> a = b).
Proof.
  intros Hs. induction a as [| x a IH]; intros [| y b] Hl; try discriminate.
  - split; reflexivity.
  - cbn. rewrite andb_true_iff, Hs, IH by (cbn in Hl; lia).
    split; [intros [-> ->]; reflexivity | intros E; inversion E; auto].
Qed.

(** On two non-empty arrays without repeated rows, [np.all(a == b)] holds
    exactly when they are the same array: broadcasting a single row
    against several cannot make them all equal. *)
Lemma all_eq_NoDup {A} (eqb : A -> A -> bool) (a b : list A) :
  (forall x y, eqb x y = true <-> x = y) ->
  NoDup a -> NoDup b -> a <> [] -> b <> [] ->
  (all_eq eqb a b = true <-> a = b).
Proof.
  intros Hs Na Nb Ha Hb. unfold all_eq.
  destruct (Nat.eqb (length a) (length b)) eqn:E.
  - apply Nat.eqb_eq in E. now apply list_eqb_iff.
  - apply Nat.eqb_neq in E. split; [| intros ->; congruence].
    intros H. exfalso.
    destruct a as [| x [| x' a]]; [congruence | |].
    + destruct b as [| y [| y' b]]; [congruence | cbn in E; lia |].
      cbn in H. rewrite !andb_true_iff, !Hs in H. destruct H as [<- [<- _]].
      inversion Nb; subst. apply H1. now left.
    + destruct b as [| y [| y' b]]; [congruence | | discriminate].
      cbn in H. rewrite !andb_true_iff, !Hs in H. destruct H as [-> [-> _]].
      inversion Na; subst. apply H1. now left.
Qed.

Lemma pair_eqb_iff x y : pair_eqb x y = true <-> x = y.
Proof.
  destruct x, y. unfold pair_eqb. cbn.
  rewrite andb_true_iff, !Z.eqb_eq. split; [intros [-> ->] | intros E; inversion E]; auto.
Qed.

End Eq.

End PatternMore2.

Import PatternMore2.

(** X3.  [Pattern(grid)] on a rectangular grid succeeds exactly when the
    grid holds a MyInk or MySpecial cell (the two values being different
    from Empty's), and otherwise stops with [IndexError]; there is no other
    outcome. *)
Theorem Pattern_init_succeeds_iff (value : Grid -> Z) a :
  value MyInk <> value Empty -> value MySpecial <> value Empty ->
  Np.rectangular (values_of value a) = true ->
  ((exists x, In x (concat (values_of value a)) /\ is_my value x = true) ->
   Pattern_init value a
   = (size_warning (trim value (values_of value a)),
      Ok (pattern_of value (trim value (values_of value a)))))
  /\ ((forall x, In x (concat (values_of value a)) -> is_my value x = false) ->
      outcome (Pattern_init value a) = Raise IndexError).
Proof.
  intros H1 H2 R. split.
  - intros [x [Hx Hm]].
    rewrite (Pattern_init_unfold _ _ (rectangular_first_cell _ _ _ R Hx)).
    pose proof R as S. apply NpFacts.rectangular_shape in S.
    destruct (@NpFacts.In_item _ 0%Z _ _ _ _ S Hx) as [i [j [Hi [Hj E]]]].
    assert (Hc : has_my_cell value (length (values_of value a))
                             (Np.width (values_of value a)) (values_of value a))
      by (exists i, j; rewrite E; auto).
    pose proof (trim_keeps_my_cell H1 H2 S Hc) as Hne.
    destruct (Np.argwhere (is_my value) (trim value (values_of value a)));
      [congruence | reflexivity].
  - intros Hn. destruct (first_cell_cases a) as [Hf | Hf].
    + now apply Pattern_init_without_my_cell.
    + unfold Pattern_init. now rewrite Hf.
Qed.

Lemma Pattern_init_succeeds_iff_witness :
  Pattern_init example_value (OfGrid [[Wall; MyInk]; [Empty; HisInk]])
  = ([], Ok (pattern_of example_value [[5; 1]; [0; 3]]%Z))
  /\ outcome (Pattern_init example_value (OfGrid [[Wall; HisInk]]))
     = Raise IndexError.
Proof.
  split.
  - apply (@Pattern_init_succeeds_iff example_value
             (OfGrid [[Wall; MyInk]; [Empty; HisInk]]));
      [discriminate | discriminate | reflexivity |].
    exists 1%Z. split; [cbn; auto | reflexivity].
  - apply (@Pattern_init_succeeds_iff example_value (OfGrid [[Wall; HisInk]]));
      [discriminate | discriminate | reflexivity |].
    intros x [<- | [<- | []]]; reflexivity.
Defined.

Lemma built_stored_grid (value : Grid -> Z) a l p :
  Np.rectangular (values_of value a) = true ->
  Pattern_init value a = (l, Ok p) ->
  trim value (p_grid p) = p_grid p
  /\ Pattern_init value (OfInt (p_grid p)) = (size_warning (p_grid p), Ok p).
Proof.
  intros R H. destruct (Pattern_init_stores _ _ R H) as [h [w [P [Hm Hp]]]].
  split; [now apply (packed_trim (h := h) (w := w)) |].
  rewrite Hp at 3. now apply (Pattern_init_packed (h := h) (w := w)).
Qed.

(** X4.  Building a Pattern again from the grid a Pattern stores gives
    the same Pattern: the stored grid is already trimmed. *)
Theorem Pattern_init_stored_grid (value : Grid -> Z) a l p :
  Np.rectangular (values_of value a) = true ->
  Pattern_init value a = (l, Ok p) ->
  trim value (p_grid p) = p_grid p
  /\ Pattern_init value (OfInt (p_grid p)) = (size_warning (p_grid p), Ok p).
Proof. exact (@built_stored_grid value a l p). Qed.

Lemma Pattern_init_stored_grid_witness :
  trim example_value [[1; 0]; [1; 2]]%Z = [[1; 0]; [1; 2]]%Z
  /\ Pattern_init example_value (OfInt [[1; 0]; [1; 2]]%Z)
     = ([], Ok (pattern_of example_value [[1; 0]; [1; 2]]%Z)).
Proof.
  apply (@Pattern_init_stored_grid example_value
           (OfGrid [[Empty; Empty; Empty]; [MyInk; Empty; Empty];
                    [MyInk; MySpecial; Empty]]) []
           (pattern_of example_value [[1; 0]; [1; 2]]%Z)); reflexivity.
Defined.

Lemma built_eq_iff (value : Grid -> Z) a1 l1 p a2 l2 q :
  Pattern_init value a1 = (l1, Ok p) ->
  Pattern_init value a2 = (l2, Ok q) ->
  (Pattern_eq p q = true
   <-> p_offsets p = p_offsets q /\ p_squares p = p_squares q)
  /\ (forall hash_str,
         Pattern_eq p q = true ->
         Pattern_hash hash_str p = Pattern_hash hash_str q).
Proof.
  intros Hp Hq.
  destruct (@built_offsets value a1 l1 p Hp) as [Op [_ Np]].
  destruct (@built_offsets value a2 l2 q Hq) as [Oq [_ Nq]].
  destruct (@built_size_squares value a1 l1 p Hp) as [Sp [Sp' _]].
  destruct (@built_size_squares value a2 l2 q Hq) as [Sq [Sq' _]].
  assert (E : Pattern_eq p q = true
              <-> p_offsets p = p_offsets q /\ p_squares p = p_squares q).
  { unfold Pattern_eq. rewrite andb_true_iff.
    rewrite (all_eq_NoDup pair_eqb pair_eqb_iff Np Nq)
      by (intros E; rewrite E in *; discriminate).
    split.
    - intros [Ho Hs]. split; [assumption |].
      unfold Np.all_eq in Hs.
      assert (L : length (p_squares p) = length (p_squares q)) by congruence.
      rewrite L, Nat.eqb_refl in Hs.
      now apply (list_eqb_iff Z.eqb _ Z.eqb_eq).
    - intros [Ho Hs]. split; [assumption |]. rewrite Hs.
      apply PatternFacts.all_eq_refl, Z.eqb_refl. }
  split; [exact E |].
  intros hash_str H. apply E in H as [Ho _]. unfold Pattern_hash. now rewrite Ho.
Qed.

(** X5.  On constructed Patterns [==] holds exactly when the two have the
    same offsets and the same squares; numpy's broadcasting of a
    one-square Pattern against a larger one never makes them equal.
    Equal Patterns have equal hashes. *)
Theorem Pattern_eq_iff (value : Grid -> Z) a1 l1 p a2 l2 q :
  Pattern_init value a1 = (l1, Ok p) ->
  Pattern_init value a2 = (l2, Ok q) ->
  (Pattern_eq p q = true
   <-> p_offsets p = p_offsets q /\ p_squares p = p_squares q)
  /\ (forall hash_str,
         Pattern_eq p q = true ->
         Pattern_hash hash_str p = Pattern_hash hash_str q).
Proof. exact (@built_eq_iff value a1 l1 p a2 l2 q). Qed.

Lemma Pattern_eq_iff_witness :
  (Pattern_eq (pattern_of example_value [[1]]%Z)
              (pattern_of example_value [[1; 1]]%Z) = true
   <-> p_offsets (pattern_of example_value [[1]]%Z)
       = p_offsets (pattern_of example_value [[1; 1]]%Z)
       /\ p_squares (pattern_of example_value [[1]]%Z)
          = p_squares (pattern_of example_value [[1; 1]]%Z))
  /\ (forall hash_str,
         Pattern_eq (pattern_of example_value [[1]]%Z)
                    (pattern_of example_value [[1; 1]]%Z) = true ->
         Pattern_hash hash_str (pattern_of example_value [[1]]%Z)
         = Pattern_hash hash_str (pattern_of example_value [[1; 1]]%Z)).
Proof.
  apply (@Pattern_eq_iff example_value
           (OfGrid [[MyInk]]) [] (pattern_of example_value [[1]]%Z)
           (OfGrid [[MyInk; MyInk]]) [] (pattern_of example_value [[1; 1]]%Z));
    reflexivity.
Defined.

(* ================================================================== *)
(** * Quarter turns: composition, cells kept, trimming                 *)
(* ================================================================== *)

Module RotFacts.
Import Np Mask NpFacts NpMore PatternFacts.

Lemma count_true_rev mask : count_true (rev mask) = count_true mask.
Proof.
  unfold count_true. induction mask as [| b mask IH]; [reflexivity |].
  cbn [rev]. rewrite filter_app, length_app, IH. cbn. destruct b; cbn; lia.
Qed.

Lemma sel_app m1 : forall m2 k,
  sel (m1 ++ m2) k
  = if Nat.ltb k (count_true m1) then sel m1 k
    else length m1 + sel m2 (k - count_true m1).
Proof.
  induction m1 as [| b m1 IH]; intros m2 k.
  - cbn. now rewrite Nat.sub_0_r.
  - destruct b; cbn [app sel].
    + destruct k as [| k]; [reflexivity |]. rewrite IH.
      change (count_true (true :: m1)) with (S (count_true m1)).
      change (Nat.ltb (S k) (S (count_true m1))) with (Nat.ltb k (count_true m1)).
      destruct (Nat.ltb k (count_true m1)); cbn; reflexivity.
    + rewrite IH. change (count_true (false :: m1)) with (count_true m1).
      destruct (Nat.ltb k (count_true m1)); cbn; reflexivity.
Qed.

(** The [k]-th true entry from the end is the [k]-th of the reversed mask. *)
Lemma sel_rev mask : forall k,
  k < count_true mask ->
  sel (rev mask) k = length mask - 1 - sel mask (count_true mask - 1 - k).
Proof.
  induction mask as [| b mask IH]; intros k Hk; [cbn in Hk; lia |].
  cbn [rev]. rewrite sel_app, count_true_rev, length_rev.
  destruct b.
  - change (count_true (true :: mask)) with (S (count_true mask)) in *.
    destruct (Nat.ltb k (count_true mask)) eqn:E.
    + apply Nat.ltb_lt in E. rewrite IH by assumption.
      replace (S (count_true mask) - 1 - k) with (S (count_true mask - 1 - k)) by lia.
      cbn [sel length].
      pose proof (sel_true mask (k := count_true mask - 1 - k)) as [B _]; [lia |].
      lia.
    + apply Nat.ltb_ge in E.
      replace (k - count_true mask) with 0 by lia.
      replace (S (count_true mask) - 1 - k) with 0 by lia.
      cbn. lia.
  - change (count_true (false :: mask)) with (count_true mask) in *.
    assert (E : Nat.ltb k (count_true mask) = true) by (apply Nat.ltb_lt; lia).
    rewrite E, IH by assumption. cbn [sel length].
    pose proof (sel_true mask (k := count_true mask - 1 - k)) as [B _]; [lia |].
    lia.
Qed.

Section Turns.
Variable A : Type.
Variable d : A.

Local Abbreviation turn := (quarter_turn d).

Lemma rot90_mod (m : list (list A)) k k' :
  (k mod 4 = k' mod 4)%Z -> rot90 d m k = rot90 d m k'.
Proof. intros E. unfold rot90. now rewrite E. Qed.

Lemma rot90_nil k : rot90 d [] k = [].
Proof. unfold rot90. destruct (k mod 4)%Z as [| [[|p|] | [|p|] |] |]; reflexivity. Qed.

Lemma rot90_0 (m : list (list A)) : rot90 d m 0 = m.
Proof. reflexivity. Qed.

Lemma flip_shape h w (m : list (list A)) :
  has_shape h w m -> has_shape h w (flip1 (flip0 m)).
Proof.
  intros [Hh HF]. unfold flip1, flip0. split.
  - now rewrite length_map, length_rev.
  - apply Forall_forall. intros r Hr. apply in_map_iff in Hr as [r' [<- Hr']].
    rewrite length_rev. rewrite Forall_forall in HF. apply HF.
    now apply in_rev.
Qed.

Lemma flip_item h w (m : list (list A)) i j :
  has_shape h w m -> i < h -> j < w ->
  item d (flip1 (flip0 m)) i j = item d m (h - 1 - i) (w - 1 - j).
Proof.
  intros S Hi Hj. pose proof S as [Hh HF]. unfold flip1, flip0, item.
  rewrite (nth_map_in _ _ [] []) by (rewrite length_rev; lia).
  rewrite (rev_nth m) by lia. rewrite Hh.
  assert (R : length (nth (h - Datatypes.S i) m []) = w)
    by (apply (has_shape_row S); lia).
  rewrite rev_nth by lia. rewrite R.
  replace (h - Datatypes.S i) with (h - 1 - i) by lia.
  replace (w - Datatypes.S j) with (w - 1 - j) by lia. reflexivity.
Qed.

(** [np.rot90(m, 2)] is two quarter turns. *)
Lemma rot90_2 h w (m : list (list A)) :
  has_shape h w m -> 0 < h -> 0 < w -> rot90 d m 2 = turn (turn m).
Proof.
  intros S Hh Hw. unfold quarter_turn. change (rot90 d m 2) with (flip1 (flip0 m)).
  pose proof (rot90_shape d S Hh) as S1.
  pose proof (rot90_shape d S1 Hw) as S2.
  apply (matrix_ext d (flip_shape S) S2). intros i j Hi Hj.
  rewrite (flip_item S) by assumption.
  rewrite (rot90_item d S1) by lia. rewrite (rot90_item d S) by lia.
  f_equal; lia.
Qed.

Lemma transpose_shape h w (m : list (list A)) :
  has_shape h w m -> 0 < h -> has_shape w h (transpose d m).
Proof.
  intros S Hh. assert (W : width m = w).
  { apply (has_shape_width S). destruct S, m; cbn in *; [lia | discriminate]. }
  unfold transpose. rewrite W. split; [now rewrite length_map, length_seq |].
  apply Forall_forall. intros r Hr. apply in_map_iff in Hr as [j [<- _]].
  rewrite length_map. now destruct S.
Qed.

Lemma transpose_item h w (m : list (list A)) i j :
  has_shape h w m -> i < w -> j < h ->
  item d (transpose d m) i j = item d m j i.
Proof.
  intros S Hi Hj. assert (W : width m = w).
  { apply (has_shape_width S). destruct S, m; cbn in *; [lia | discriminate]. }
  unfold transpose, item. rewrite W.
  rewrite (nth_map_in _ _ 0 []) by (now rewrite length_seq).
  rewrite seq_nth by assumption. cbn [plus].
  rewrite (nth_map_in _ _ [] d) by (destruct S; lia). reflexivity.
Qed.

(** [np.rot90(m, 3)] is three quarter turns. *)
Lemma rot90_3 h w (m : list (list A)) :
  has_shape h w m -> 0 < h -> 0 < w -> rot90 d m 3 = turn (turn (turn m)).
Proof.
  intros S Hh Hw. unfold quarter_turn. change (rot90 d m 3) with (flip1 (transpose d m)).
  pose proof (rot90_shape d S Hh) as S1.
  pose proof (rot90_shape d S1 Hw) as S2.
  pose proof (rot90_shape d S2 Hh) as S3.
  pose proof (transpose_shape S Hh) as ST.
  assert (SF : has_shape w h (flip1 (transpose d m))).
  { destruct ST as [L F]. split; [unfold flip1; now rewrite length_map |].
    apply Forall_forall. intros r Hr. apply in_map_iff in Hr as [r' [<- Hr']].
    rewrite length_rev. rewrite Forall_forall in F. now apply F. }
  apply (matrix_ext d SF S3). intros i j Hi Hj.
  rewrite (rot90_item d S2) by lia. rewrite (rot90_item d S1) by lia.
  rewrite (rot90_item d S) by lia.
  unfold flip1, item.
  rewrite (nth_map_in _ _ [] []) by (destruct ST; lia).
  assert (R : length (nth i (transpose d m) []) = h)
    by (apply (has_shape_row ST); lia).
  rewrite rev_nth by lia. rewrite R.
  fold (item d (transpose d m) i (h - Datatypes.S j)).
  rewrite (transpose_item S) by lia. unfold item. f_equal; [lia | f_equal; lia].
Qed.

Lemma solid_turn m : solid m -> solid (turn m).
Proof.
  intros [h [w [S [Hh Hw]]]]. exists w, h. split; [| split; assumption].
  now apply rot90_shape.
Qed.

Lemma solid_iter n m : solid m -> solid (Nat.iter n turn m).
Proof.
  intros S. induction n as [| n IH]; [assumption |].
  change (Nat.iter (Datatypes.S n) turn m) with (turn (Nat.iter n turn m)).
  now apply solid_turn.
Qed.

Lemma turn_four m : solid m -> turn (turn (turn (turn m))) = m.
Proof. intros [h [w [S [Hh Hw]]]]. unfold quarter_turn. now apply (rot90_four d S). Qed.

(** [np.rot90(m, k)] is [k mod 4] quarter turns. *)
Lemma rot90_iter m k :
  solid m -> rot90 d m k = Nat.iter (Z.to_nat (k mod 4)) turn m.
Proof.
  intros [h [w [S [Hh Hw]]]].
  assert (C : (k mod 4 = 0 \/ k mod 4 = 1 \/ k mod 4 = 2 \/ k mod 4 = 3)%Z)
    by (pose proof (Z.mod_pos_bound k 4); lia).
  destruct C as [E | [E | [E | E]]]; rewrite E.
  - rewrite (rot90_mod m k 0) by (now rewrite E). reflexivity.
  - rewrite (rot90_mod m k 1) by (now rewrite E). reflexivity.
  - rewrite (rot90_mod m k 2) by (now rewrite E).
    change (Nat.iter (Z.to_nat 2) turn m) with (turn (turn m)).
    now apply (rot90_2 S).
  - rewrite (rot90_mod m k 3) by (now rewrite E).
    change (Nat.iter (Z.to_nat 3) turn m) with (turn (turn (turn m))).
    now apply (rot90_3 S).
Qed.

Lemma iter_turn_mod m n :
  solid m -> Nat.iter n turn m = Nat.iter (n mod 4) turn m.
Proof.
  intros S. induction n as [n IH] using lt_wf_ind.
  destruct (Nat.lt_ge_cases n 4) as [L | G]; [now rewrite Nat.mod_small |].
  replace (Nat.iter n turn m)
    with (Nat.iter (n - 4) turn (Nat.iter 4 turn m))
    by (rewrite <- Nat.iter_add; f_equal; lia).
  change (Nat.iter 4 turn m) with (turn (turn (turn (turn m)))).
  rewrite turn_four by assumption.
  rewrite IH by lia. f_equal.
  replace n with ((n - 4) + 1 * 4) at 2 by lia. now rewrite Nat.Div0.mod_add.
Qed.

(** Turning [b] times what was turned [a] times is turning [a + b] times. *)
Lemma rot90_rot90 m a b :
  solid m -> rot90 d (rot90 d m a) b = rot90 d m (a + b).
Proof.
  intros S. rewrite (rot90_iter a S).
  rewrite (rot90_iter b (solid_iter _ S)), (rot90_iter (a + b) S).
  rewrite <- Nat.iter_add.
  rewrite (iter_turn_mod (Z.to_nat (b mod 4) + Z.to_nat (a mod 4)) S).
  f_equal.
  pose proof (Z.mod_pos_bound a 4) as Ba. pose proof (Z.mod_pos_bound b 4) as Bb.
  pose proof (Z.mod_pos_bound (a + b) 4) as Bc.
  apply Nat2Z.inj. rewrite Nat2Z.inj_mod, Nat2Z.inj_add, !Z2Nat.id by lia.
  change (Z.of_nat 4) with 4%Z. rewrite (Z.add_comm (b mod 4)).
  now rewrite <- Z.add_mod by lia.
Qed.

(** ** A quarter turn rearranges the cells *)

Lemma concat_heads {B} (hd_of : nat -> B) (tl_of : nat -> list B) js :
  Permutation (concat (map (fun j => hd_of j :: tl_of j) js))
              (map hd_of js ++ concat (map tl_of js)).
Proof.
  induction js as [| j js IH]; [constructor |]. cbn. constructor.
  rewrite IH. apply Permutation_app_swap_app.
Qed.

Lemma map_nth_seq (r : list A) :
  map (fun j => nth j r d) (seq 0 (length r)) = r.
Proof.
  apply (nth_ext _ _ d d); [now rewrite length_map, length_seq |].
  intros n Hn. rewrite length_map, length_seq in Hn.
  rewrite (nth_map_in _ _ 0 d) by (now rewrite length_seq).
  now rewrite seq_nth.
Qed.

Lemma concat_columns w : forall (m : list (list A)),
  Forall (fun r => length r = w) m ->
  Permutation
    (concat (map (fun j => map (fun r => nth j r d) m) (seq 0 w)))
    (concat m).
Proof.
  induction m as [| r m IH]; intros HF.
  - cbn. induction (seq 0 w); [constructor | assumption].
  - inversion HF as [| ? ? Hr HF']; subst. cbn [map concat].
    rewrite (concat_heads (fun j => nth j r d)
                          (fun j => map (fun r' => nth j r' d) m)).
    rewrite map_nth_seq. apply Permutation_app_head. now apply IH.
Qed.

Lemma concat_flip1 (m : list (list A)) :
  Permutation (concat (flip1 m)) (concat m).
Proof.
  unfold flip1. induction m as [| r m IH]; [constructor |]. cbn.
  apply Permutation_app; [apply Permutation_sym, Permutation_rev | assumption].
Qed.

(** A quarter turn keeps every cell, each as often as before. *)
Lemma turn_cells h w (m : list (list A)) :
  has_shape h w m -> 0 < h -> Permutation (concat (turn m)) (concat m).
Proof.
  intros S Hh. unfold quarter_turn. rewrite rot90_1. unfold transpose.
  assert (W : width (flip1 m) = w).
  { destruct S as [L F], m as [| r m]; [cbn in L; lia |].
    unfold width. cbn. rewrite length_rev. now inversion F. }
  rewrite W. rewrite concat_columns; [apply concat_flip1 |].
  apply Forall_forall. intros r Hr. unfold flip1 in Hr.
  apply in_map_iff in Hr as [r' [<- Hr']]. rewrite length_rev.
  destruct S as [_ F]. rewrite Forall_forall in F. now apply F.
Qed.

Lemma rot90_cells m k :
  solid m -> Permutation (concat (rot90 d m k)) (concat m).
Proof.
  intros S. rewrite (rot90_iter k S).
  induction (Z.to_nat (k mod 4)) as [| n IH]; [reflexivity |].
  change (Nat.iter (Datatypes.S n) turn m) with (turn (Nat.iter n turn m)).
  rewrite <- IH.
  destruct (solid_iter n S) as [h [w [Sn [Hh _]]]].
  now apply (turn_cells Sn).
Qed.

End Turns.

(** ** A quarter turn and a map over the cells *)

Lemma map_rot90 {A B} (dA : A) (dB : B) (f : A -> B) (m : list (list A)) k :
  rectangular m = true ->
  map (map f) (rot90 dA m k) = rot90 dB (map (map f) m) k.
Proof.
  intros R. apply rectangular_shape in R. destruct R as [_ F].
  rewrite Forall_forall in F.
  assert (T : forall m' : list (list A),
             (forall r, In r m' -> length r = width m') ->
             map (map f) (transpose dA m') = transpose dB (map (map f) m')).
  { intros m' F'. unfold transpose. rewrite map_map.
    assert (W : width (map (map f) m') = width m')
      by (destruct m'; [reflexivity | unfold width; cbn; apply length_map]).
    rewrite W. apply map_ext_in. intros j Hj. apply in_seq in Hj.
    rewrite !map_map. apply map_ext_in. intros r Hr.
    symmetry. apply nth_map_in. rewrite (F' r Hr). lia. }
  assert (Fl : forall m' : list (list A),
             map (map f) (flip1 m') = flip1 (map (map f) m')).
  { intros m'. unfold flip1. rewrite !map_map. apply map_ext.
    intros r. apply map_rev. }
  unfold rot90. destruct (k mod 4)%Z as [| [[|p|] | [|p|] |] |];
    try reflexivity;
    try (rewrite Fl; apply f_equal, T; assumption).
  - unfold flip0, flip1. rewrite <- (map_rev (map f) m), !map_map.
    apply map_ext. intros r. apply map_rev.
  - rewrite T, Fl; [reflexivity |].
    intros r Hr. unfold flip1 in Hr. apply in_map_iff in Hr as [r' [<- Hr']].
    rewrite length_rev, (F r' Hr').
    destruct m; [destruct Hr' |]. unfold width. cbn. now rewrite length_rev.
Qed.

End RotFacts.

(* ================================================================== *)
(** * Trimming and quarter turns; the four patterns of a Card          *)
(* ================================================================== *)

Module CardMore.
Import Np Mask NpFacts NpMore PatternFacts PatternMore PatternMore2 CardFacts
       RotFacts.

Lemma filter_length_perm {A} (f : A -> bool) (l l' : list A) :
  Permutation l l' -> length (filter f l) = length (filter f l').
Proof.
  induction 1 as [| x l l' P IH | x y l | l l' l'' P1 IH1 P2 IH2]; cbn.
  - reflexivity.
  - destruct (f x); cbn; now rewrite IH.
  - destruct (f x), (f y); reflexivity.
  - now rewrite IH1.
Qed.

Lemma solid_rectangular {A} (m : list (list A)) : solid m -> rectangular m = true.
Proof.
  intros [h [w [S [Hh Hw]]]]. apply rectangular_shape.
  assert (Hne : m <> []) by (destruct S, m; cbn in *; [lia | discriminate]).
  rewrite (has_shape_width S Hne). destruct S as [L F]. now split.
Qed.

Lemma first_cell_solid (value : Grid -> Z) a :
  first_cell a = ([], Ok tt) ->
  rectangular (values_of value a) = true ->
  solid (values_of value a).
Proof.
  intros Hf R. apply rectangular_shape in R.
  exists (length (values_of value a)), (width (values_of value a)).
  split; [assumption |].
  destruct a as [[| [| x r] g] | [| [| x r] g]]; try discriminate;
    cbn; unfold width; cbn; lia.
Qed.

Section WithValues.
Variable value : Grid -> Z.

Local Abbreviation turn := (quarter_turn 0%Z).
Local Abbreviation row_mask g := (any_axis1 (inks value g)).
Local Abbreviation col_mask g := (any_axis0 (inks value g)).

Section Turn.
Variables (h w : nat) (grid : matrix).
Hypothesis S : has_shape h w grid.
Hypothesis Hh : 0 < h.
Hypothesis Hw : 0 < w.

Lemma grid_nonempty : grid <> [].
Proof. destruct S, grid; cbn in *; [lia | discriminate]. Qed.

(** The row mask of the turned grid is the column mask read backwards;
    its column mask is the row mask. *)
Lemma row_mask_turn : row_mask (rot90 0%Z grid 1) = rev (col_mask grid).
Proof.
  pose proof (rot90_shape 0%Z S Hh) as S1.
  pose proof (col_mask_length value S grid_nonempty) as Lc.
  apply (nth_ext _ _ false false).
  - rewrite length_rev, Lc. apply (row_mask_length value S1).
  - intros i Hi. rewrite (row_mask_length value S1) in Hi.
    rewrite rev_nth by lia. rewrite Lc.
    apply Bool.eq_iff_eq_true.
    rewrite (any_axis1_spec value S1 Hi).
    rewrite (any_axis0_spec value S Hh) by lia.
    split; intros [j [Hj Hn]]; exists j; (split; [assumption |]).
    + rewrite (rot90_item 0%Z S) in Hn by assumption.
      replace (w - Datatypes.S i) with (w - 1 - i) by lia. exact Hn.
    + rewrite (rot90_item 0%Z S) by assumption.
      replace (w - 1 - i) with (w - Datatypes.S i) by lia. exact Hn.
Qed.

Lemma col_mask_turn : col_mask (rot90 0%Z grid 1) = row_mask grid.
Proof.
  pose proof (rot90_shape 0%Z S Hh) as S1.
  assert (N1 : rot90 0%Z grid 1 <> [])
    by (destruct S1 as [L _]; intros E; rewrite E in L; cbn in L; lia).
  apply (nth_ext _ _ false false).
  - rewrite (col_mask_length value S1 N1). symmetry. apply (row_mask_length value S).
  - intros j Hj. rewrite (col_mask_length value S1 N1) in Hj.
    apply Bool.eq_iff_eq_true.
    rewrite (any_axis0_spec value S1 Hw Hj).
    rewrite (any_axis1_spec value S Hj).
    split.
    + intros [i [Hi Hn]]. exists (w - 1 - i). split; [lia |].
      now rewrite (rot90_item 0%Z S) in Hn.
    + intros [i [Hi Hn]]. exists (w - 1 - i). split; [lia |].
      rewrite (rot90_item 0%Z S) by lia.
      replace (w - 1 - (w - 1 - i)) with i by lia. exact Hn.
Qed.

(** Rows are kept exactly when columns are. *)
Lemma kept_rows_cols :
  0 < count_true (row_mask grid) <-> 0 < count_true (col_mask grid).
Proof.
  pose proof (row_mask_length value S) as Lr.
  pose proof (col_mask_length value S grid_nonempty) as Lc.
  split; intros H.
  - destruct (sel_true _ H) as [B T]. rewrite Lr in B.
    apply (any_axis1_spec value S B) in T as [j [Hj Hn]].
    assert (C : nth j (col_mask grid) false = true)
      by (apply (any_axis0_spec value S Hh Hj); eauto).
    destruct (@sel_onto (col_mask grid) j) as [k [Hk _]]; [lia | assumption | lia].
  - destruct (sel_true _ H) as [B T]. rewrite Lc in B.
    apply (any_axis0_spec value S Hh B) in T as [i [Hi Hn]].
    assert (C : nth i (row_mask grid) false = true)
      by (apply (any_axis1_spec value S Hi); eauto).
    destruct (@sel_onto (row_mask grid) i) as [k [Hk _]]; [lia | assumption | lia].
Qed.

Lemma trim_solid_or_nil :
  solid (trim value grid) \/ trim value grid = [].
Proof.
  destruct (Nat.eq_dec (count_true (row_mask grid)) 0) as [E | E].
  - right. unfold trim. now rewrite (compress_none _ _ E).
  - left. exists (count_true (row_mask grid)), (count_true (col_mask grid)).
    split; [apply (trim_shape value S) |]. split; [lia |].
    apply kept_rows_cols. lia.
Qed.

(** Trimming the turned grid is turning the trimmed grid. *)
Lemma trim_turn :
  trim value (rot90 0%Z grid 1) = rot90 0%Z (trim value grid) 1.
Proof.
  pose proof (rot90_shape 0%Z S Hh) as S1.
  pose proof (trim_shape value S) as ST.
  pose proof (trim_shape value S1) as ST1.
  rewrite row_mask_turn, col_mask_turn, count_true_rev in ST1.
  pose proof (col_mask_length value S grid_nonempty) as Lc.
  pose proof (row_mask_length value S) as Lr.
  pose proof kept_rows_cols as K.
  set (cr := count_true (row_mask grid)) in *.
  set (cc := count_true (col_mask grid)) in *.
  destruct (Nat.eq_dec cr 0) as [E | E].
  - assert (Ec : cc = 0) by lia.
    assert (T0 : trim value grid = [])
      by (unfold trim; now rewrite (compress_none _ _ E)).
    rewrite T0, rot90_nil. unfold trim. rewrite row_mask_turn.
    rewrite compress_none; [reflexivity |]. now rewrite count_true_rev.
  - assert (Ec : 0 < cc) by lia.
    assert (Er : 0 < cr) by lia.
    pose proof (rot90_shape 0%Z ST Er) as STT.
    apply (matrix_ext 0%Z ST1 STT). intros k l Hk Hl.
    rewrite (rot90_item 0%Z ST) by assumption.
    rewrite (trim_item value S) by (fold cr cc; lia).
    rewrite (trim_item value S1)
      by (rewrite ?row_mask_turn, ?col_mask_turn, ?count_true_rev; assumption).
    rewrite row_mask_turn, col_mask_turn.
    destruct (sel_true (col_mask grid) (k := cc - 1 - k)) as [B1 _];
      [fold cc; lia |].
    destruct (sel_true (row_mask grid) (k := l)) as [B2 _]; [assumption |].
    assert (Sr : sel (rev (col_mask grid)) k
                 = w - 1 - sel (col_mask grid) (cc - 1 - k))
      by (rewrite sel_rev by assumption; fold cc; now rewrite Lc).
    rewrite (rot90_item 0%Z S) by lia.
    rewrite Sr. f_equal. lia.
Qed.

End Turn.

Lemma solid_trim_turn grid :
  solid grid -> trim value (turn grid) = turn (trim value grid).
Proof.
  intros [h [w [S [Hh Hw]]]]. unfold quarter_turn. now apply (trim_turn S).
Qed.

Lemma trim_iter_turn grid n :
  solid grid ->
  trim value (Nat.iter n turn grid) = Nat.iter n turn (trim value grid).
Proof.
  intros S. induction n as [| n IH]; [reflexivity |].
  change (Nat.iter (Datatypes.S n) turn grid) with (turn (Nat.iter n turn grid)).
  rewrite solid_trim_turn by (now apply solid_iter).
  now rewrite IH.
Qed.

Lemma iter_turn_nil n : Nat.iter n turn [] = [].
Proof.
  induction n as [| n IH]; [reflexivity |].
  change (Nat.iter (Datatypes.S n) turn []) with (turn (Nat.iter n turn [])).
  rewrite IH. apply rot90_nil.
Qed.

(** [Pattern] trims after the turn; trimming first gives the same grid. *)
Lemma trim_rot90 grid k :
  solid grid ->
  trim value (rot90 0%Z grid k) = rot90 0%Z (trim value grid) k.
Proof.
  intros S. rewrite (rot90_iter 0%Z k S), trim_iter_turn by assumption.
  destruct S as [h [w [S [Hh Hw]]]].
  destruct (trim_solid_or_nil S Hh Hw) as [T | T].
  - now rewrite (rot90_iter 0%Z k T).
  - rewrite T, iter_turn_nil. symmetry. apply rot90_nil.
Qed.

Lemma values_of_rot90_arg a k :
  rectangular (values_of value a) = true ->
  values_of value (rot90_arg a k) = rot90 0%Z (values_of value a) k.
Proof.
  destruct a as [g | g]; cbn [values_of rot90_arg]; [| reflexivity].
  intros R. unfold vectorize. apply map_rot90.
  unfold vectorize in R. apply rectangular_shape in R.
  apply rectangular_shape. destruct R as [_ F]. split; [reflexivity |].
  rewrite Forall_forall in *. intros r Hr.
  specialize (F (map value r) (in_map _ _ _ Hr)). rewrite length_map in F.
  rewrite F. destruct g; [destruct Hr |]. unfold width. cbn. apply length_map.
Qed.

Lemma rot90_arg_mod a k k' :
  (k mod 4 = k' mod 4)%Z -> rot90_arg a k = rot90_arg a k'.
Proof.
  intros E. destruct a; cbn [rot90_arg]; f_equal; now apply rot90_mod.
Qed.

(** What [Card.__init__] stores. *)
Lemma Card_init_patterns a c l k :
  Card_init value a c = (l, Ok k) ->
  exists l0 l1 l2 l3 p0 p1 p2 p3,
    Pattern_init value (rot90_arg a 0) = (l0, Ok p0)
    /\ Pattern_init value (rot90_arg a 1) = (l1, Ok p1)
    /\ Pattern_init value (rot90_arg a 2) = (l2, Ok p2)
    /\ Pattern_init value (rot90_arg a 3) = (l3, Ok p3)
    /\ k = mkCard c [p0; p1; p2; p3] (p_size p0).
Proof.
  unfold Card_init. cbn [mapM].
  destruct (Pattern_init value (rot90_arg a 0)) as [l0 [p0 | e0]]; [| discriminate].
  destruct (Pattern_init value (rot90_arg a 1)) as [l1 [p1 | e1]]; [| discriminate].
  destruct (Pattern_init value (rot90_arg a 2)) as [l2 [p2 | e2]]; [| discriminate].
  destruct (Pattern_init value (rot90_arg a 3)) as [l3 [p3 | e3]]; [| discriminate].
  cbn. intros H. inversion H; subst.
  exists l0, l1, l2, l3, p0, p1, p2, p3. auto 6.
Qed.

Lemma Card_get_pattern a c l k r :
  Card_init value a c = (l, Ok k) ->
  exists l', Pattern_init value (rot90_arg a r) = (l', Ok (get_pattern k r)).
Proof.
  intros H.
  destruct (Card_init_patterns _ _ H)
    as [l0 [l1 [l2 [l3 [p0 [p1 [p2 [p3 [H0 [H1 [H2 [H3 ->]]]]]]]]]]]].
  unfold get_pattern. cbn [c_patterns].
  rewrite (rot90_arg_mod a r (r mod 4)) by (now rewrite Z.mod_mod).
  assert (C : (r mod 4 = 0 \/ r mod 4 = 1 \/ r mod 4 = 2 \/ r mod 4 = 3)%Z)
    by (pose proof (Z.mod_pos_bound r 4); lia).
  destruct C as [E | [E | [E | E]]]; rewrite E; eauto.
Qed.

End WithValues.

End CardMore.

Import RotFacts CardMore.

(** X6.  For a constructed Card and every integer [r], negative ones
    included, [get_pattern(r)] is the Pattern that
    [Pattern(np.rot90(grid, r))] builds, and [get_pattern(r + 4)] is
    [get_pattern(r)]. *)
Theorem Card_get_pattern_rotation (value : Grid -> Z) a c l k (r : Z) :
  Card_init value a c = (l, Ok k) ->
  outcome (Pattern_init value (rot90_arg a r)) = Ok (get_pattern k r)
  /\ get_pattern k (r + 4) = get_pattern k r.
Proof.
  intros H. split.
  - destruct (@Card_get_pattern value a c l k r H) as [l' E]. now rewrite E.
  - unfold get_pattern. f_equal. f_equal.
    rewrite <- (Z.mul_1_l 4) at 1. apply Z.mod_add. lia.
Qed.

Lemma Card_get_pattern_rotation_witness :
  outcome (Pattern_init example_value (rot90_arg (OfGrid L_grid) (-3)))
  = Ok (get_pattern L_card (-3))
  /\ get_pattern L_card (-3 + 4) = get_pattern L_card (-3).
Proof.
  apply (@Card_get_pattern_rotation example_value (OfGrid L_grid) 2%Z [] L_card).
  reflexivity.
Defined.

Module CardMore2.
Import Np Mask NpFacts NpMore PatternFacts PatternMore PatternMore2 CardFacts
       RotFacts CardMore.

Section WithValues.
Variable value : Grid -> Z.

Lemma solid_rot90 {A} (d : A) (m : list (list A)) k :
  solid m -> solid (rot90 d m k).
Proof. intros S. rewrite (rot90_iter d k S). now apply solid_iter. Qed.

Section BuiltCard.
Variables (a : ndarray) (c : Z) (l : list log_event) (k : Card).
Hypothesis R : rectangular (values_of value a) = true.
Hypothesis H : Card_init value a c = (l, Ok k).

Lemma built_solid : solid (values_of value a).
Proof.
  destruct (@Card_init_patterns value a c l k H)
    as [l0 [l1 [l2 [l3 [p0 [p1 [p2 [p3 [H0 _]]]]]]]]].
  rewrite rot90_arg_0 in H0. apply Pattern_init_Ok_inv in H0 as [Hf _].
  now apply first_cell_solid.
Qed.

(** The grid stored for rotation [r] is the trimmed input, turned. *)
Lemma built_pattern r :
  get_pattern k r
  = pattern_of value (rot90 0%Z (trim value (values_of value a)) r)
  /\ argwhere (is_my value) (rot90 0%Z (trim value (values_of value a)) r) <> [].
Proof.
  destruct (@Card_get_pattern value a c l k r H) as [l' E].
  apply Pattern_init_Ok_inv in E as [_ [Hn ->]].
  rewrite (values_of_rot90_arg _ _ r R) in *.
  rewrite (trim_rot90 value r built_solid) in *. now split.
Qed.

Lemma built_trim_solid : solid (trim value (values_of value a)).
Proof.
  destruct built_solid as [h [w [S [Hh Hw]]]].
  destruct (trim_solid_or_nil value S Hh Hw) as [T | T]; [assumption |].
  destruct (built_pattern 0) as [_ N]. rewrite T in N. now cbn in N.
Qed.

Lemma built_rectangular r :
  rectangular (values_of value (rot90_arg a r)) = true.
Proof.
  rewrite (values_of_rot90_arg _ _ r R).
  apply solid_rectangular, solid_rot90, built_solid.
Qed.

Lemma built_size r :
  p_size (get_pattern k r)
  = length (filter (is_my value) (concat (trim value (values_of value a)))).
Proof.
  destruct (built_pattern r) as [-> _]. unfold pattern_of. cbn [p_size].
  rewrite (argwhere_length). apply filter_length_perm.
  apply rot90_cells, built_trim_solid.
Qed.

End BuiltCard.

Lemma filter_none {B} (f : B -> bool) (r : list B) :
  (forall x, In x r -> f x = false) -> filter f r = [].
Proof.
  induction r as [| x r IH]; intros K; [reflexivity |]. cbn.
  rewrite (K x) by (now left). apply IH. intros y Hy. apply K. now right.
Qed.

(** Trimming removes no cell of mine. *)
Lemma compress_keeps {B} (d : B) (f : B -> bool) mask : forall (r : list B),
  length r = length mask ->
  (forall j, j < length r -> f (nth j r d) = true -> nth j mask false = true) ->
  filter f (compress mask r) = filter f r.
Proof.
  induction mask as [| b mask IH]; intros [| x r] L K; try discriminate;
    [reflexivity |].
  cbn in L. assert (E : filter f (compress mask r) = filter f r).
  { apply IH; [lia |]. intros j Hj Hf. apply (K (Datatypes.S j)); [cbn; lia | exact Hf]. }
  cbn [compress]. destruct b; cbn [filter]; rewrite E; [reflexivity |].
  destruct (f x) eqn:Fx; [| reflexivity].
  specialize (K 0 ltac:(cbn; lia) Fx). discriminate.
Qed.

Lemma trim_my_cells grid :
  value MyInk <> value Empty -> value MySpecial <> value Empty ->
  rectangular grid = true ->
  filter (is_my value) (concat (trim value grid))
  = filter (is_my value) (concat grid).
Proof.
  intros H1 H2 R. apply rectangular_shape in R.
  set (h := length grid) in *. set (w := width grid) in *.
  unfold trim.
  assert (Rows : forall rows : list (list Z),
             (forall r, In r rows -> In r grid) ->
             filter (is_my value)
                    (concat (map (compress (any_axis0 (inks value grid))) rows))
             = filter (is_my value) (concat rows)).
  { intros rows. induction rows as [| r rows IH]; intros Sub; [reflexivity |].
    cbn [map concat]. rewrite !filter_app, IH by (intros; apply Sub; now right).
    f_equal. assert (Hr : In r grid) by (apply Sub; now left).
    destruct (In_nth _ _ [] Hr) as [i [Hi <-]]. fold h in Hi.
    assert (Hne : grid <> []) by (intros E; rewrite E in Hr; destruct Hr).
    apply (compress_keeps 0%Z).
    - rewrite (has_shape_row R Hi). symmetry. apply (col_mask_length value R Hne).
    - intros j Hj Hf. rewrite (has_shape_row R Hi) in Hj.
      apply (any_axis0_spec value R (ltac:(lia) : 0 < h) Hj).
      exists i. split; [assumption |]. now apply is_my_not_Empty. }
  rewrite (Rows _ (fun r Hr => compress_incl _ _ _ Hr)).
  clear Rows.
  assert (E : any_axis1 (inks value grid)
              = map (fun r => existsb (fun x => x) (map (not_Empty value) r)) grid).
  { unfold any_axis1, inks. rewrite map_map. reflexivity. }
  rewrite E, StageFacts.compress_map_filter. clear E R h w.
  induction grid as [| r g IH]; [reflexivity |].
  cbn [filter concat].
  destruct (existsb (fun x => x) (map (not_Empty value) r)) eqn:Ex.
  - cbn [concat]. now rewrite !filter_app, IH.
  - rewrite filter_app, IH.
    assert (N : filter (is_my value) r = []).
    { apply filter_none. intros x Hx.
      destruct (is_my value x) eqn:M; [| reflexivity].
      assert (T : existsb (fun x => x) (map (not_Empty value) r) = true).
      { apply existsb_exists. exists true. split; [| reflexivity].
        apply in_map_iff. exists x. split; [| assumption].
        now apply is_my_not_Empty. }
      congruence. }
    now rewrite N.
Qed.

End WithValues.

End CardMore2.

Import CardMore2.

(** X7.  For a Card built from a rectangular grid, turning the pattern of
    rotation [r] by [j] quarter turns gives the pattern of rotation
    [r + j], for all integers [r] and [j]: [get_pattern(r).rotate(j)] is
    [get_pattern(r + j)]. *)
Theorem Card_patterns_rotate (value : Grid -> Z) a c l k (r j : Z) :
  Np.rectangular (values_of value a) = true ->
  Card_init value a c = (l, Ok k) ->
  outcome (Pattern_rotate value (get_pattern k r) j) = Ok (get_pattern k (r + j)).
Proof.
  intros R H.
  destruct (@built_pattern value a c l k R H r) as [Er _].
  destruct (@built_pattern value a c l k R H (r + j)) as [Erj _].
  destruct (@Card_get_pattern value a c l k (r + j) H) as [l' E].
  pose proof (@built_stored_grid value (rot90_arg a (r + j)) l'
                (get_pattern k (r + j))
                (@built_rectangular value a c l k R H (r + j)) E)
    as [_ St].
  unfold Pattern_rotate. rewrite Er at 1. cbn [p_grid pattern_of].
  rewrite (rot90_rot90 0%Z r j (@built_trim_solid value a c l k R H)).
  rewrite Erj in St at 1 2. cbn [p_grid pattern_of] in St.
  now rewrite St.
Qed.

Lemma Card_patterns_rotate_witness :
  outcome (Pattern_rotate example_value (get_pattern L_card 3) (-2))
  = Ok (get_pattern L_card (3 + -2)).
Proof.
  apply (@Card_patterns_rotate example_value (OfGrid L_grid) 2%Z [] L_card);
    reflexivity.
Defined.

(** X8.  For a Card built from a rectangular grid, every one of the four
    patterns has the size of the Card, and that size is the number of
    MyInk and MySpecial cells of the grid the Card was built from (the two
    values being different from Empty's). *)
Theorem Card_size_all_rotations (value : Grid -> Z) a c l k (r : Z) :
  value MyInk <> value Empty -> value MySpecial <> value Empty ->
  Np.rectangular (values_of value a) = true ->
  Card_init value a c = (l, Ok k) ->
  p_size (get_pattern k r) = c_size k
  /\ c_size k
     = length (filter (is_my value) (concat (values_of value a))).
Proof.
  intros H1 H2 R H.
  assert (S0 : c_size k = p_size (get_pattern k 0)).
  { destruct (@Card_init_patterns value a c l k H)
      as [l0 [l1 [l2 [l3 [p0 [p1 [p2 [p3 [_ [_ [_ [_ ->]]]]]]]]]]]].
    reflexivity. }
  rewrite S0, !(@built_size value a c l k R H). split; [reflexivity |].
  f_equal. now apply trim_my_cells.
Qed.

Lemma Card_size_all_rotations_witness :
  p_size (get_pattern L_card 3) = c_size L_card
  /\ c_size L_card
     = length (filter (is_my example_value)
                      (concat (values_of example_value (OfGrid L_grid)))).
Proof.
  apply (@Card_size_all_rotations example_value (OfGrid L_grid) 2%Z [] L_card);
    first [ discriminate | reflexivity ].
Defined.

Module CardMore3.
Import Np Mask NpFacts NpMore PatternFacts PatternMore PatternMore2 CardFacts
       RotFacts CardMore CardMore2.

Section WithValues.
Variable value : Grid -> Z.

Lemma Card_init_raises a c l0 e :
  Pattern_init value a = (l0, Raise e) ->
  Card_init value a c = (l0, Raise e).
Proof.
  intros H. unfold Card_init. cbn [mapM]. rewrite rot90_arg_0, H. reflexivity.
Qed.

Lemma Pattern_init_result a :
  (exists l p, Pattern_init value a = (l, Ok p))
  \/ (exists l, Pattern_init value a = (l, Raise IndexError)).
Proof.
  destruct (first_cell_cases a) as [Hf | Hf].
  - rewrite (Pattern_init_unfold _ _ Hf).
    destruct (argwhere _ _); [right | left]; eauto.
  - right. unfold Pattern_init. rewrite Hf. cbn. eauto.
Qed.

End WithValues.

Lemma built_card_iff (value : Grid -> Z) a c :
  value MyInk <> value Empty -> value MySpecial <> value Empty ->
  Np.rectangular (values_of value a) = true ->
  ((exists x, In x (concat (values_of value a)) /\ is_my value x = true) ->
   exists l k, Card_init value a c = (l, Ok k)
               /\ c_sp_cost k = c /\ length (c_patterns k) = 4)
  /\ ((forall x, In x (concat (values_of value a)) -> is_my value x = false) ->
      outcome (Card_init value a c) = Raise IndexError).
Proof.
  intros H1 H2 R. split.
  - intros [x [Hx Hm]].
    pose proof (rectangular_first_cell value a x R Hx) as Hf.
    pose proof (first_cell_solid value a Hf R) as S.
    assert (P : forall i, exists l p,
                 Pattern_init value (rot90_arg a i) = (l, Ok p)).
    { intros i.
      assert (Ri : Np.rectangular (values_of value (rot90_arg a i)) = true).
      { rewrite (values_of_rot90_arg _ _ i R).
        apply solid_rectangular, solid_rot90, S. }
      destruct (@Pattern_init_result value (rot90_arg a i))
        as [E | [l E]]; [exact E | exfalso].
      assert (Hn : forall y, In y (concat (values_of value (rot90_arg a i))) ->
                             is_my value y = false).
      { intros y Hy. destruct (is_my value y) eqn:My; [exfalso | reflexivity].
        pose proof (rectangular_first_cell value _ y Ri Hy) as Hfi.
        rewrite (Pattern_init_unfold _ _ Hfi) in E.
        assert (Hc : has_my_cell value
                       (length (values_of value (rot90_arg a i)))
                       (Np.width (values_of value (rot90_arg a i)))
                       (values_of value (rot90_arg a i))).
        { apply NpFacts.rectangular_shape in Ri.
          destruct (@NpFacts.In_item _ 0%Z _ _ _ _ Ri Hy) as [u [v [Hu [Hv Eq]]]].
          exists u, v. rewrite Eq. auto. }
        apply NpFacts.rectangular_shape in Ri.
        pose proof (trim_keeps_my_cell H1 H2 Ri Hc) as Ne.
        destruct (Np.argwhere _ _); [congruence | discriminate]. }
      assert (Hxi : In x (concat (values_of value (rot90_arg a i)))).
      { rewrite (values_of_rot90_arg _ _ i R).
        apply (Permutation_in x (Permutation_sym (rot90_cells 0%Z i S))), Hx. }
      rewrite (Hn x Hxi) in Hm. discriminate. }
    destruct (P 0%Z) as [l0 [p0 E0]]. destruct (P 1%Z) as [l1 [p1 E1]].
    destruct (P 2%Z) as [l2 [p2 E2]]. destruct (P 3%Z) as [l3 [p3 E3]].
    unfold Card_init. cbn [mapM]. rewrite E0, E1, E2, E3. cbn.
    eexists. eexists. split; [reflexivity |]. split; reflexivity.
  - intros Hn. destruct (first_cell_cases a) as [Hf | Hf].
    + pose proof (Pattern_init_without_my_cell value a Hf Hn) as E.
      destruct (Pattern_init value a) as [l0 r] eqn:Ep. cbn in E. subst r.
      now rewrite (@Card_init_raises value a c l0 IndexError Ep).
    + assert (Ep : Pattern_init value a = ([], Raise IndexError))
        by (unfold Pattern_init; now rewrite Hf).
      now rewrite (@Card_init_raises value a c [] IndexError Ep).
Qed.

End CardMore3.

Import CardMore3.

(** C8.  [Card.__eq__] is decided by the two rotation-0 Patterns and by
    nothing else: on constructed Cards it is [Pattern.__eq__] of the two
    rotation-0 patterns, so it holds exactly when these have the same
    offsets and the same squares.  Hence two Cards with the same
    rotation-0 pattern, in particular two Cards built from grids with the
    same trimmed layout, compare equal whatever their [sp_cost]s are. *)
Theorem Card_eq_ignores_sp_cost (value : Grid -> Z) a1 a2 c1 c2 l1 l2 k1 k2 :
  Card_init value a1 c1 = (l1, Ok k1) ->
  Card_init value a2 c2 = (l2, Ok k2) ->
  c_sp_cost k1 = c1 /\ c_sp_cost k2 = c2
  /\ Card_eq k1 k2 = Pattern_eq (get_pattern k1 0) (get_pattern k2 0)
  /\ (Card_eq k1 k2 = true
      <-> p_offsets (get_pattern k1 0) = p_offsets (get_pattern k2 0)
          /\ p_squares (get_pattern k1 0) = p_squares (get_pattern k2 0))
  /\ (get_pattern k1 0 = get_pattern k2 0 -> Card_eq k1 k2 = true)
  /\ (trim value (values_of value a1) = trim value (values_of value a2) ->
      get_pattern k1 0 = get_pattern k2 0 /\ Card_eq k1 k2 = true).
Proof.
  intros H1 H2.
  apply Card_init_Ok_inv in H1 as [la [pa [Ha [Na [Ca _]]]]].
  apply Card_init_Ok_inv in H2 as [lb [pb [Hb [Nb [Cb _]]]]].
  change (nth 0 (c_patterns k1) no_pattern) with (get_pattern k1 0) in Na.
  change (nth 0 (c_patterns k2) no_pattern) with (get_pattern k2 0) in Nb.
  assert (E0 : Card_eq k1 k2 = Pattern_eq (get_pattern k1 0) (get_pattern k2 0))
    by reflexivity.
  assert (Same : get_pattern k1 0 = get_pattern k2 0 -> Card_eq k1 k2 = true)
    by (intros E; rewrite E0, E; apply Pattern_eq_refl).
  split; [assumption |]. split; [assumption |]. split; [exact E0 |].
  split; [| split; [exact Same |]].
  - rewrite E0, Na, Nb.
    apply (@built_eq_iff value a1 la pa a2 lb pb Ha Hb).
  - intros Ht.
    assert (E : get_pattern k1 0 = get_pattern k2 0).
    { rewrite Na, Nb.
      apply Pattern_init_Ok_inv in Ha as [_ [_ ->]].
      apply Pattern_init_Ok_inv in Hb as [_ [_ ->]].
      now rewrite Ht. }
    split; [exact E | now apply Same].
Qed.

Lemma Card_eq_ignores_sp_cost_witness :
  Card_eq L_card (mkCard 5 (c_patterns L_card) (c_size L_card)) = true
  /\ c_sp_cost L_card <> c_sp_cost (mkCard 5 (c_patterns L_card) (c_size L_card))
  /\ Card_eq L_card domino_card = false.
Proof.
  split; [| split].
  - destruct (@Card_eq_ignores_sp_cost example_value
                (OfGrid L_grid)
                (OfGrid [[Empty; Empty; Empty]; [Empty; MyInk; Empty];
                         [Empty; MyInk; MyInk]]) 2%Z 5%Z [] []
                L_card (mkCard 5 (c_patterns L_card) (c_size L_card))
                eq_refl eq_refl) as [_ [_ [_ [_ [_ H]]]]].
    apply H. reflexivity.
  - discriminate.
  - destruct (@Card_eq_ignores_sp_cost example_value
                (OfGrid L_grid) (OfGrid [[MyInk; MyInk]]) 2%Z 1%Z [] []
                L_card domino_card eq_refl eq_refl) as [_ [_ [_ [I _]]]].
    destruct (Card_eq L_card domino_card) eqn:E; [| reflexivity].
    destruct (proj1 I eq_refl) as [O _]. discriminate O.
Defined.

(** X9.  [Card(grid, sp_cost)] on a rectangular grid succeeds exactly when
    the grid holds a MyInk or MySpecial cell (the two values being
    different from Empty's): then all four patterns are built; otherwise
    the constructor stops with [IndexError]. *)
Theorem Card_init_succeeds_iff (value : Grid -> Z) a c :
  value MyInk <> value Empty -> value MySpecial <> value Empty ->
  Np.rectangular (values_of value a) = true ->
  ((exists x, In x (concat (values_of value a)) /\ is_my value x = true) ->
   exists l k, Card_init value a c = (l, Ok k)
               /\ c_sp_cost k = c /\ length (c_patterns k) = 4)
  /\ ((forall x, In x (concat (values_of value a)) -> is_my value x = false) ->
      outcome (Card_init value a c) = Raise IndexError).
Proof. exact (@built_card_iff value a c). Qed.

Lemma Card_init_succeeds_iff_witness :
  (exists l k, Card_init example_value (OfGrid L_grid) 2 = (l, Ok k)
               /\ c_sp_cost k = 2%Z /\ length (c_patterns k) = 4)
  /\ outcome (Card_init example_value (OfGrid [[Empty; HisInk]]) 2)
     = Raise IndexError.
Proof.
  split.
  - apply (@Card_init_succeeds_iff example_value (OfGrid L_grid) 2%Z);
      [discriminate | discriminate | reflexivity |].
    exists 1%Z. split; [cbn; auto | reflexivity].
  - apply (@Card_init_succeeds_iff example_value (OfGrid [[Empty; HisInk]]) 2%Z);
      [discriminate | discriminate | reflexivity |].
    intros x [<- | [<- | []]]; reflexivity.
Defined.

(** X10.  On constructed Cards [==] is an equivalence (reflexive,
    symmetric, transitive), and Cards that compare equal have equal
    hashes. *)
Theorem Card_eq_equivalence (value : Grid -> Z)
        a1 c1 l1 k1 a2 c2 l2 k2 a3 c3 l3 k3 :
  Card_init value a1 c1 = (l1, Ok k1) ->
  Card_init value a2 c2 = (l2, Ok k2) ->
  Card_init value a3 c3 = (l3, Ok k3) ->
  Card_eq k1 k1 = true
  /\ Card_eq k1 k2 = Card_eq k2 k1
  /\ (Card_eq k1 k2 = true -> Card_eq k2 k3 = true -> Card_eq k1 k3 = true)
  /\ (forall hash_str,
         Card_eq k1 k2 = true -> Card_hash hash_str k1 = Card_hash hash_str k2).
Proof.
  intros H1 H2 H3.
  apply Card_init_Ok_inv in H1 as [m1 [p1 [P1 [N1 _]]]].
  apply Card_init_Ok_inv in H2 as [m2 [p2 [P2 [N2 _]]]].
  apply Card_init_Ok_inv in H3 as [m3 [p3 [P3 [N3 _]]]].
  unfold Card_eq, Card_hash. rewrite N1, N2, N3.
  destruct (@built_eq_iff value a1 m1 p1 a2 m2 p2 P1 P2) as [E12 Hh].
  destruct (@built_eq_iff value a2 m2 p2 a1 m1 p1 P2 P1) as [E21 _].
  destruct (@built_eq_iff value a2 m2 p2 a3 m3 p3 P2 P3) as [E23 _].
  destruct (@built_eq_iff value a1 m1 p1 a3 m3 p3 P1 P3) as [E13 _].
  split; [apply Pattern_eq_refl |]. split; [| split].
  - apply Bool.eq_iff_eq_true. rewrite E12, E21.
    split; intros [-> ->]; auto.
  - rewrite E12, E23, E13. intros [-> ->] [-> ->]. auto.
  - exact Hh.
Qed.

Lemma Card_eq_equivalence_witness :
  Card_eq L_card L_card = true
  /\ Card_eq L_card (mkCard 5 (c_patterns L_card) (c_size L_card))
     = Card_eq (mkCard 5 (c_patterns L_card) (c_size L_card)) L_card
  /\ (Card_eq L_card (mkCard 5 (c_patterns L_card) (c_size L_card)) = true ->
      Card_eq (mkCard 5 (c_patterns L_card) (c_size L_card)) L_card = true ->
      Card_eq L_card L_card = true)
  /\ (forall hash_str,
         Card_eq L_card (mkCard 5 (c_patterns L_card) (c_size L_card)) = true ->
         Card_hash hash_str L_card
         = Card_hash hash_str (mkCard 5 (c_patterns L_card) (c_size L_card))).
Proof.
  apply (@Card_eq_equivalence example_value
           (OfGrid L_grid) 2%Z [] L_card
           (OfGrid L_grid) 5%Z [] (mkCard 5 (c_patterns L_card) (c_size L_card))
           (OfGrid L_grid) 2%Z [] L_card); reflexivity.
Defined.

(* ================================================================== *)
(** * More about Stage                                                 *)
(* ================================================================== *)

Module StageMore.
Import Np Mask NpFacts NpMore StageFacts.

(** ** [np.unique(rows, axis=0)] *)

Lemma row_ltb_total x y :
  row_ltb x y = false -> row_ltb y x = false -> x = y.
Proof.
  destruct x as [a b], y as [c d]. unfold row_ltb. cbn [fst snd].
  rewrite !orb_false_iff, !andb_false_iff, !Z.ltb_ge, !Z.eqb_neq.
  intros [H1 H2] [H3 H4]. f_equal; lia.
Qed.

Lemma insert_row_In x l y : In y (insert_row x l) <-> y = x \/ In y l.
Proof.
  induction l as [| z l IH]; cbn [insert_row].
  - cbn. intuition.
  - destruct (row_ltb x z) eqn:E1; [cbn; intuition |].
    destruct (row_ltb z x) eqn:E2.
    + cbn [In]. rewrite IH. intuition.
    + pose proof (row_ltb_total _ _ E1 E2) as ->. cbn [In]. intuition.
Qed.

Lemma insert_row_sorted x l :
  StronglySorted row_lt l -> StronglySorted row_lt (insert_row x l).
Proof.
  induction 1 as [| z l S IH Hz]; cbn [insert_row].
  - repeat constructor.
  - destruct (row_ltb x z) eqn:E1.
    + constructor; [now constructor |]. constructor; [exact E1 |].
      rewrite Forall_forall in *. intros y Hy.
      apply (@row_lt_trans x z y); [exact E1 | now apply Hz].
    + destruct (row_ltb z x) eqn:E2; [| now constructor].
      constructor; [assumption |]. rewrite Forall_forall in *.
      intros y Hy. apply insert_row_In in Hy as [-> | Hy]; [exact E2 | now apply Hz].
Qed.

Lemma unique_rows_In l y : In y (unique_rows l) <-> In y l.
Proof.
  unfold unique_rows. induction l as [| x l IH]; [reflexivity |].
  cbn [fold_right In]. rewrite insert_row_In, IH. intuition.
Qed.

Lemma unique_rows_sorted l : StronglySorted row_lt (unique_rows l).
Proof.
  unfold unique_rows. induction l as [| x l IH]; [constructor |].
  cbn [fold_right]. now apply insert_row_sorted.
Qed.

Lemma filter_sorted {A} (R : A -> A -> Prop) (f : A -> bool) l :
  StronglySorted R l -> StronglySorted R (filter f l).
Proof.
  induction 1 as [| x l S IH Hx]; cbn; [constructor |].
  destruct (f x); [| assumption]. constructor; [assumption |].
  rewrite Forall_forall in *. intros y Hy. apply filter_In in Hy as [Hy _].
  now apply Hx.
Qed.

(** ** Writing into a boolean grid *)

Lemma set_item_length {A} (x : A) : forall a i, length (set_item i x a) = length a.
Proof.
  induction a as [| y a IH]; intros [| i]; cbn; try reflexivity. now rewrite IH.
Qed.

Lemma set_item_nth {A} (d x : A) : forall a i k,
  i < length a ->
  nth k (set_item i x a) d = if Nat.eqb k i then x else nth k a d.
Proof.
  induction a as [| y a IH]; intros i k Hi; [cbn in Hi; lia |].
  destruct i as [| i], k as [| k]; cbn [set_item nth Nat.eqb]; try reflexivity.
  apply IH. cbn in Hi. lia.
Qed.

Section WithValues.
Variable value : Grid -> Z.
Variable grid : matrix.

Lemma invalid_rows_In k x : In x (invalid_rows k) -> x = (-1, -1)%Z.
Proof. unfold invalid_rows. apply repeat_spec. Qed.

Lemma in_bounds_not_invalid : ~ in_bounds grid (-1, -1)%Z.
Proof. unfold in_bounds. cbn. lia. Qed.

(** What [collect_ink_neighborhoods] keeps. *)
Lemma collect_ink_neighborhoods_In ink c :
  In c (collect_ink_neighborhoods value grid ink)
  <-> in_bounds grid c /\ item_at 0%Z grid c = value Empty
      /\ exists k, In k ink /\ neighbour8 k c.
Proof.
  unfold collect_ink_neighborhoods.
  rewrite within_grid_spec, unique_rows_In, in_flat_map. split.
  - intros [[k [Hk Hc]] Hb]. unfold ink_neighborhoods in Hc.
    apply in_app_iff in Hc as [Hc | Hc].
    + apply filter_In in Hc as [Hc He]. apply within_grid_spec in Hc as [Hc _].
      apply neighborhoods_spec in Hc. apply Z.eqb_eq in He. eauto.
    + apply invalid_rows_In in Hc. subst c. now apply in_bounds_not_invalid in Hb.
  - intros [Hb [He [k [Hk Hn]]]]. split; [| assumption]. exists k.
    split; [assumption |]. unfold ink_neighborhoods. apply in_app_iff. left.
    apply filter_In. split; [| now apply Z.eqb_eq].
    apply within_grid_spec. split; [now apply neighborhoods_spec | assumption].
Qed.

Lemma collect_sp_neighborhoods_In sp c :
  In c (collect_sp_neighborhoods value grid sp)
  <-> in_bounds grid c
      /\ (item_at 0%Z grid c = value Empty \/ item_at 0%Z grid c = value MyInk
          \/ item_at 0%Z grid c = value HisInk)
      /\ exists k, In k sp /\ neighbour8 k c.
Proof.
  unfold collect_sp_neighborhoods.
  rewrite within_grid_spec, unique_rows_In, in_flat_map. split.
  - intros [[k [Hk Hc]] Hb]. unfold sp_neighborhoods in Hc.
    apply in_app_iff in Hc as [Hc | Hc].
    + apply filter_In in Hc as [Hc He]. apply within_grid_spec in Hc as [Hc _].
      apply neighborhoods_spec in Hc. cbn zeta in He.
      rewrite !orb_true_iff, !Z.eqb_eq in He.
      split; [assumption |]. split; [tauto | eauto].
    + apply invalid_rows_In in Hc. subst c. now apply in_bounds_not_invalid in Hb.
  - intros [Hb [He [k [Hk Hn]]]]. split; [| assumption]. exists k.
    split; [assumption |]. unfold sp_neighborhoods. apply in_app_iff. left.
    apply filter_In. split.
    + apply within_grid_spec. split; [now apply neighborhoods_spec | assumption].
    + cbn zeta. rewrite !orb_true_iff, !Z.eqb_eq. tauto.
Qed.

Lemma collect_sorted ink :
  StronglySorted row_lt (collect_ink_neighborhoods value grid ink).
Proof. apply filter_sorted, unique_rows_sorted. Qed.

Lemma collect_sp_sorted sp :
  StronglySorted row_lt (collect_sp_neighborhoods value grid sp).
Proof. apply filter_sorted, unique_rows_sorted. Qed.

Lemma argwhere_or_cell_is u v c :
  In c (argwhere (fun x => Z.eqb x u || Z.eqb x v) grid)
  <-> cell_is grid u c \/ cell_is grid v c.
Proof.
  destruct c as [a b]. rewrite (argwhere_In 0%Z). unfold cell_is, item_at.
  cbn [fst snd]. rewrite orb_true_iff, !Z.eqb_eq. tauto.
Qed.

Lemma Stage_fields_all :
  let st := Stage_fields value grid in
  s_my_ink st
  = argwhere (fun x => Z.eqb x (value MyInk) || Z.eqb x (value MySpecial)) grid
  /\ s_his_ink st
     = argwhere (fun x => Z.eqb x (value HisInk) || Z.eqb x (value HisSpecial)) grid
  /\ s_my_neighborhoods st = collect_ink_neighborhoods value grid (s_my_ink st)
  /\ s_his_neighborhoods st = collect_ink_neighborhoods value grid (s_his_ink st)
  /\ s_my_sp_neighborhoods st = collect_sp_neighborhoods value grid (s_my_sp st)
  /\ s_his_sp_neighborhoods st = collect_sp_neighborhoods value grid (s_his_sp st)
  /\ s_fiery_grid st
     = set_true (set_true (map (map (fun _ => false)) grid) (s_my_fiery_sp st))
                (s_his_fiery_sp st)
  /\ s_size st
     = length (filter (fun x => negb (Z.eqb x (value Wall))) (concat grid)).
Proof.
  unfold Stage_fields.
  destruct (split_sp value grid (argwhere (fun x => Z.eqb x (value MySpecial)) grid)).
  destruct (split_sp value grid (argwhere (fun x => Z.eqb x (value HisSpecial)) grid)).
  cbn. repeat split; reflexivity.
Qed.

End WithValues.

Lemma Stage_init_inv (value : Grid -> Z) a l st :
  Stage_init value a = (l, Ok st) ->
  st = Stage_fields value (values_of value a) /\ first_cell a = ([], Ok tt).
Proof.
  unfold Stage_init. intros H.
  destruct (first_cell_cases a) as [Hf | Hf]; rewrite Hf in H; [| discriminate].
  cbn in H. inversion H. auto.
Qed.

End StageMore.

Import StageMore.

(** X11.  In every constructed Stage, for each player: [ink] lists exactly
    the cells holding the player's ink or special value and [sp] exactly
    the cells holding the player's special value, both in row-major order
    and each cell once; every cell of [sp] is a cell of [ink]. *)
Theorem Stage_ink_lists (value : Grid -> Z) a l st :
  Stage_init value a = (l, Ok st) ->
  ((forall c, In c (s_my_ink st)
              <-> cell_is (s_grid st) (value MyInk) c
                  \/ cell_is (s_grid st) (value MySpecial) c)
   /\ (forall c, In c (s_my_sp st)
                 <-> cell_is (s_grid st) (value MySpecial) c)
   /\ StronglySorted row_lt (s_my_ink st) /\ NoDup (s_my_ink st)
   /\ StronglySorted row_lt (s_my_sp st) /\ NoDup (s_my_sp st)
   /\ incl (s_my_sp st) (s_my_ink st))
  /\ ((forall c, In c (s_his_ink st)
                 <-> cell_is (s_grid st) (value HisInk) c
                     \/ cell_is (s_grid st) (value HisSpecial) c)
      /\ (forall c, In c (s_his_sp st)
                    <-> cell_is (s_grid st) (value HisSpecial) c)
      /\ StronglySorted row_lt (s_his_ink st) /\ NoDup (s_his_ink st)
      /\ StronglySorted row_lt (s_his_sp st) /\ NoDup (s_his_sp st)
      /\ incl (s_his_sp st) (s_his_ink st)).
Proof.
  intros H. apply Stage_init_inv in H as [-> _].
  set (g := values_of value a).
  destruct (Stage_fields_sp value g) as [Hg [Hm [Hh _]]].
  destruct (Stage_fields_all value g) as [Im [Ih _]].
  rewrite Hg, Hm, Hh, Im, Ih.
  split.
  - split; [intros c; apply argwhere_or_cell_is |].
    split; [intros c; apply argwhere_cell_is |].
    split; [apply (argwhere_sorted 0%Z) |].
    split; [apply (argwhere_NoDup 0%Z) |].
    split; [apply (argwhere_sorted 0%Z) |].
    split; [apply (argwhere_NoDup 0%Z) |].
    intros c Hc. apply argwhere_or_cell_is. right.
    apply argwhere_cell_is. exact Hc.
  - split; [intros c; apply argwhere_or_cell_is |].
    split; [intros c; apply argwhere_cell_is |].
    split; [apply (argwhere_sorted 0%Z) |].
    split; [apply (argwhere_NoDup 0%Z) |].
    split; [apply (argwhere_sorted 0%Z) |].
    split; [apply (argwhere_NoDup 0%Z) |].
    intros c Hc. apply argwhere_or_cell_is. right.
    apply argwhere_cell_is. exact Hc.
Qed.

Lemma Stage_ink_lists_witness :
  let st := Stage_fields example_value
              [[2; 1; 0]; [5; 3; 4]; [0; 0; 1]]%Z in
  ((forall c, In c (s_my_ink st)
              <-> cell_is (s_grid st) (example_value MyInk) c
                  \/ cell_is (s_grid st) (example_value MySpecial) c)
   /\ (forall c, In c (s_my_sp st)
                 <-> cell_is (s_grid st) (example_value MySpecial) c)
   /\ StronglySorted row_lt (s_my_ink st) /\ NoDup (s_my_ink st)
   /\ StronglySorted row_lt (s_my_sp st) /\ NoDup (s_my_sp st)
   /\ incl (s_my_sp st) (s_my_ink st))
  /\ ((forall c, In c (s_his_ink st)
                 <-> cell_is (s_grid st) (example_value HisInk) c
                     \/ cell_is (s_grid st) (example_value HisSpecial) c)
      /\ (forall c, In c (s_his_sp st)
                    <-> cell_is (s_grid st) (example_value HisSpecial) c)
      /\ StronglySorted row_lt (s_his_ink st) /\ NoDup (s_his_ink st)
      /\ StronglySorted row_lt (s_his_sp st) /\ NoDup (s_his_sp st)
      /\ incl (s_his_sp st) (s_his_ink st)).
Proof.
  apply (@Stage_ink_lists example_value
           (OfGrid [[MySpecial; MyInk; Empty];
                    [Wall; HisInk; HisSpecial];
                    [Empty; Empty; MyInk]]) []).
  reflexivity.
Defined.

(** X12.  In every constructed Stage, a player's [neighborhoods] lists
    exactly the in-bounds Empty cells that are 8-neighbours of a cell of
    the player's [ink]; the list is in row-major order, each cell once. *)
Theorem Stage_neighborhoods (value : Grid -> Z) a l st :
  Stage_init value a = (l, Ok st) ->
  (forall c, In c (s_my_neighborhoods st)
             <-> in_bounds (s_grid st) c
                 /\ Np.item_at 0%Z (s_grid st) c = value Empty
                 /\ exists k, In k (s_my_ink st) /\ neighbour8 k c)
  /\ StronglySorted row_lt (s_my_neighborhoods st)
  /\ (forall c, In c (s_his_neighborhoods st)
                <-> in_bounds (s_grid st) c
                    /\ Np.item_at 0%Z (s_grid st) c = value Empty
                    /\ exists k, In k (s_his_ink st) /\ neighbour8 k c)
  /\ StronglySorted row_lt (s_his_neighborhoods st).
Proof.
  intros H. apply Stage_init_inv in H as [-> _].
  set (g := values_of value a).
  destruct (Stage_fields_sp value g) as [Hg _].
  destruct (Stage_fields_all value g) as [_ [_ [Nm [Nh _]]]].
  rewrite Hg, Nm, Nh.
  split; [intros c; apply collect_ink_neighborhoods_In |].
  split; [apply collect_sorted |].
  split; [intros c; apply collect_ink_neighborhoods_In | apply collect_sorted].
Qed.

Lemma Stage_neighborhoods_witness :
  let st := Stage_fields example_value
              [[2; 1; 0]; [5; 3; 4]; [0; 0; 1]]%Z in
  (forall c, In c (s_my_neighborhoods st)
             <-> in_bounds (s_grid st) c
                 /\ Np.item_at 0%Z (s_grid st) c = example_value Empty
                 /\ exists k, In k (s_my_ink st) /\ neighbour8 k c)
  /\ StronglySorted row_lt (s_my_neighborhoods st)
  /\ (forall c, In c (s_his_neighborhoods st)
                <-> in_bounds (s_grid st) c
                    /\ Np.item_at 0%Z (s_grid st) c = example_value Empty
                    /\ exists k, In k (s_his_ink st) /\ neighbour8 k c)
  /\ StronglySorted row_lt (s_his_neighborhoods st).
Proof.
  apply (@Stage_neighborhoods example_value
           (OfGrid [[MySpecial; MyInk; Empty];
                    [Wall; HisInk; HisSpecial];
                    [Empty; Empty; MyInk]]) []).
  reflexivity.
Defined.

(** X13.  In every constructed Stage, a player's [sp_neighborhoods] lists
    exactly the in-bounds cells that hold Empty, MyInk or HisInk and are
    8-neighbours of a cell of the player's [sp]; the list is in row-major
    order, each cell once. *)
Theorem Stage_sp_neighborhoods (value : Grid -> Z) a l st :
  Stage_init value a = (l, Ok st) ->
  (forall c, In c (s_my_sp_neighborhoods st)
             <-> in_bounds (s_grid st) c
                 /\ (Np.item_at 0%Z (s_grid st) c = value Empty
                     \/ Np.item_at 0%Z (s_grid st) c = value MyInk
                     \/ Np.item_at 0%Z (s_grid st) c = value HisInk)
                 /\ exists k, In k (s_my_sp st) /\ neighbour8 k c)
  /\ StronglySorted row_lt (s_my_sp_neighborhoods st)
  /\ (forall c, In c (s_his_sp_neighborhoods st)
                <-> in_bounds (s_grid st) c
                    /\ (Np.item_at 0%Z (s_grid st) c = value Empty
                        \/ Np.item_at 0%Z (s_grid st) c = value MyInk
                        \/ Np.item_at 0%Z (s_grid st) c = value HisInk)
                    /\ exists k, In k (s_his_sp st) /\ neighbour8 k c)
  /\ StronglySorted row_lt (s_his_sp_neighborhoods st).
Proof.
  intros H. apply Stage_init_inv in H as [-> _].
  set (g := values_of value a).
  destruct (Stage_fields_sp value g) as [Hg _].
  destruct (Stage_fields_all value g) as [_ [_ [_ [_ [Nm [Nh _]]]]]].
  rewrite Hg, Nm, Nh.
  split; [intros c; apply collect_sp_neighborhoods_In |].
  split; [apply collect_sp_sorted |].
  split; [intros c; apply collect_sp_neighborhoods_In | apply collect_sp_sorted].
Qed.

Lemma Stage_sp_neighborhoods_witness :
  let st := Stage_fields example_value
              [[2; 1; 0]; [5; 3; 4]; [0; 0; 1]]%Z in
  (forall c, In c (s_my_sp_neighborhoods st)
             <-> in_bounds (s_grid st) c
                 /\ (Np.item_at 0%Z (s_grid st) c = example_value Empty
                     \/ Np.item_at 0%Z (s_grid st) c = example_value MyInk
                     \/ Np.item_at 0%Z (s_grid st) c = example_value HisInk)
                 /\ exists k, In k (s_my_sp st) /\ neighbour8 k c)
  /\ StronglySorted row_lt (s_my_sp_neighborhoods st)
  /\ (forall c, In c (s_his_sp_neighborhoods st)
                <-> in_bounds (s_grid st) c
                    /\ (Np.item_at 0%Z (s_grid st) c = example_value Empty
                        \/ Np.item_at 0%Z (s_grid st) c = example_value MyInk
                        \/ Np.item_at 0%Z (s_grid st) c = example_value HisInk)
                    /\ exists k, In k (s_his_sp st) /\ neighbour8 k c)
  /\ StronglySorted row_lt (s_his_sp_neighborhoods st).
Proof.
  apply (@Stage_sp_neighborhoods example_value
           (OfGrid [[MySpecial; MyInk; Empty];
                    [Wall; HisInk; HisSpecial];
                    [Empty; Empty; MyInk]]) []).
  reflexivity.
Defined.

Module StageMore2.
Import Np Mask NpFacts NpMore StageFacts StageMore.

Lemma set_item_Forall {A} (P : A -> Prop) (x : A) : forall a i,
  Forall P a -> P x -> Forall P (set_item i x a).
Proof.
  induction a as [| y a IH]; intros i F Px; [destruct i; constructor |].
  inversion F; subst. destruct i; cbn; constructor; auto.
Qed.

Lemma existsb_pair_In c idx :
  existsb (pair_eqb c) idx = true <-> In c idx.
Proof.
  rewrite existsb_exists. split.
  - intros [x [Hx E]]. apply PatternMore2.pair_eqb_iff in E. now subst.
  - intros H. exists c. split; [assumption | now apply PatternMore2.pair_eqb_iff].
Qed.

(** Writing [True] at a list of in-range indexes keeps the shape and
    changes exactly the cells listed. *)
Lemma set_true_spec h w : forall idx fg,
  has_shape h w fg ->
  (forall c, In c idx -> (0 <= fst c < Z.of_nat h)%Z /\ (0 <= snd c < Z.of_nat w)%Z) ->
  has_shape h w (set_true fg idx)
  /\ forall i j, i < h -> j < w ->
       item false (set_true fg idx) i j
       = item false fg i j || existsb (pair_eqb (Z.of_nat i, Z.of_nat j)) idx.
Proof.
  unfold set_true.
  induction idx as [| c idx IH]; intros fg S R.
  - cbn. split; [assumption |]. intros. now rewrite orb_false_r.
  - cbn [fold_left existsb].
    destruct (R c (or_introl eq_refl)) as [Rr Rc].
    set (r := Z.to_nat (fst c)). set (k := Z.to_nat (snd c)).
    set (fg' := set_item r (set_item k true (nth r fg [])) fg).
    assert (Hr : r < h) by (unfold r; lia).
    assert (Hk : k < w) by (unfold k; lia).
    pose proof S as [L F].
    assert (Lr : length (nth r fg []) = w) by (now apply (has_shape_row S)).
    assert (S' : has_shape h w fg').
    { split; [unfold fg'; now rewrite set_item_length |].
      unfold fg'. apply set_item_Forall; [assumption |].
      now rewrite set_item_length. }
    destruct (IH fg' S' (fun c' Hc' => R c' (or_intror Hc'))) as [S'' I''].
    split; [exact S'' |]. intros i j Hi Hj. rewrite (I'' i j Hi Hj).
    rewrite orb_assoc. f_equal.
    unfold fg', item. rewrite (set_item_nth [] _ fg) by lia.
    unfold pair_eqb. cbn [fst snd].
    destruct (Nat.eqb i r) eqn:Ei.
    + apply Nat.eqb_eq in Ei. subst i.
      rewrite (set_item_nth false) by lia.
      replace (Z.of_nat r =? fst c)%Z with true
        by (symmetry; apply Z.eqb_eq; unfold r; lia).
      destruct (Nat.eqb j k) eqn:Ej.
      * apply Nat.eqb_eq in Ej. subst j.
        replace (Z.of_nat k =? snd c)%Z with true
          by (symmetry; apply Z.eqb_eq; unfold k; lia).
        now rewrite orb_true_r.
      * apply Nat.eqb_neq in Ej.
        replace (Z.of_nat j =? snd c)%Z with false
          by (symmetry; apply Z.eqb_neq; unfold k in Ej; lia).
        now rewrite orb_false_r.
    + apply Nat.eqb_neq in Ei.
      replace (Z.of_nat i =? fst c)%Z with false
        by (symmetry; apply Z.eqb_neq; unfold r in Ei; lia).
      now rewrite orb_false_r.
Qed.

Lemma zeros_shape h w (g : matrix) :
  has_shape h w g -> has_shape h w (map (map (fun _ : Z => false)) g).
Proof.
  intros [L F]. split; [now rewrite length_map |].
  apply Forall_forall. intros r Hr. apply in_map_iff in Hr as [r' [<- Hr']].
  rewrite length_map. rewrite Forall_forall in F. now apply F.
Qed.

Lemma zeros_item h w (g : matrix) i j :
  has_shape h w g -> i < h -> j < w ->
  item false (map (map (fun _ : Z => false)) g) i j = false.
Proof.
  intros S Hi Hj. unfold item.
  rewrite (nth_map_in _ _ [] []) by (destruct S; lia).
  rewrite (nth_map_in _ _ 0%Z false) by (now rewrite (has_shape_row S Hi)).
  reflexivity.
Qed.

Lemma nil_of_no_member {A} (l : list A) : (forall x, ~ In x l) -> l = [].
Proof. destruct l as [| x l]; [reflexivity |]. intros H. destruct (H x). now left. Qed.

End StageMore2.

Import StageMore2.

(** X14.  In every Stage constructed from a rectangular grid,
    [fiery_grid] has the shape of the grid and is true exactly at the
    cells listed in [my_fiery_sp] or in [his_fiery_sp]. *)
Theorem Stage_fiery_grid (value : Grid -> Z) a l st :
  Np.rectangular (values_of value a) = true ->
  Stage_init value a = (l, Ok st) ->
  Np.has_shape (Np.height (s_grid st)) (Np.width (s_grid st)) (s_fiery_grid st)
  /\ forall i j, i < Np.height (s_grid st) -> j < Np.width (s_grid st) ->
       (Np.item false (s_fiery_grid st) i j = true
        <-> In (Z.of_nat i, Z.of_nat j) (s_my_fiery_sp st)
            \/ In (Z.of_nat i, Z.of_nat j) (s_his_fiery_sp st)).
Proof.
  intros R H. apply Stage_init_inv in H as [-> _].
  set (g := values_of value a) in *.
  apply NpFacts.rectangular_shape in R. fold (Np.height g) in R.
  destruct (Stage_fields_sp value g) as [Hg [Hm [Hh [Sm Sh]]]].
  destruct (Stage_fields_all value g) as [_ [_ [_ [_ [_ [_ [Fg _]]]]]]].
  pose proof (split_sp_fiery_split value g (s_my_sp (Stage_fields value g)))
    as [Fm _].
  pose proof (split_sp_fiery_split value g (s_his_sp (Stage_fields value g)))
    as [Fh _].
  rewrite <- Sm in Fm. rewrite <- Sh in Fh. cbn [fst snd] in Fm, Fh.
  rewrite Hg, Fg.
  assert (Rng : forall v c, cell_is g v c ->
                  (0 <= fst c < Z.of_nat (Np.height g))%Z
                  /\ (0 <= snd c < Z.of_nat (Np.width g))%Z).
  { intros v c [Hr [Hc _]]. split; [exact Hr |].
    rewrite (NpFacts.has_shape_row R) in Hc; [exact Hc |].
    unfold Np.height. lia. }
  assert (Rm : forall c, In c (s_my_fiery_sp (Stage_fields value g)) ->
                 (0 <= fst c < Z.of_nat (Np.height g))%Z
                 /\ (0 <= snd c < Z.of_nat (Np.width g))%Z).
  { intros c Hc. apply Fm in Hc as [Hc _]. rewrite Hm in Hc.
    apply StageFacts.argwhere_cell_is in Hc. eapply Rng, Hc. }
  assert (Rh : forall c, In c (s_his_fiery_sp (Stage_fields value g)) ->
                 (0 <= fst c < Z.of_nat (Np.height g))%Z
                 /\ (0 <= snd c < Z.of_nat (Np.width g))%Z).
  { intros c Hc. apply Fh in Hc as [Hc _]. rewrite Hh in Hc.
    apply StageFacts.argwhere_cell_is in Hc. eapply Rng, Hc. }
  destruct (set_true_spec _ (zeros_shape R) Rm) as [S1 I1].
  destruct (set_true_spec _ S1 Rh) as [S2 I2].
  split; [exact S2 |]. intros i j Hi Hj.
  rewrite (I2 i j Hi Hj), (I1 i j Hi Hj), (zeros_item R Hi Hj).
  cbn [orb]. rewrite orb_true_iff, !existsb_pair_In. reflexivity.
Qed.

Lemma Stage_fiery_grid_witness :
  let st := Stage_fields example_value
              [[2; 1; 0]; [5; 3; 4]; [0; 0; 1]]%Z in
  Np.has_shape (Np.height (s_grid st)) (Np.width (s_grid st)) (s_fiery_grid st)
  /\ forall i j, i < Np.height (s_grid st) -> j < Np.width (s_grid st) ->
       (Np.item false (s_fiery_grid st) i j = true
        <-> In (Z.of_nat i, Z.of_nat j) (s_my_fiery_sp st)
            \/ In (Z.of_nat i, Z.of_nat j) (s_his_fiery_sp st)).
Proof.
  apply (@Stage_fiery_grid example_value
           (OfGrid [[MySpecial; MyInk; Empty];
                    [Wall; HisInk; HisSpecial];
                    [Empty; Empty; MyInk]]) []);
    reflexivity.
Defined.

(** X15.  In every constructed Stage, a player without any ink or special
    cell has all the derived lists empty: [sp], [fiery_sp], [unfiery_sp],
    [neighborhoods] and [sp_neighborhoods]. *)
Theorem Stage_player_without_ink (value : Grid -> Z) a l st :
  Stage_init value a = (l, Ok st) ->
  (s_my_ink st = [] ->
   s_my_sp st = [] /\ s_my_fiery_sp st = [] /\ s_my_unfiery_sp st = []
   /\ s_my_neighborhoods st = [] /\ s_my_sp_neighborhoods st = [])
  /\ (s_his_ink st = [] ->
      s_his_sp st = [] /\ s_his_fiery_sp st = [] /\ s_his_unfiery_sp st = []
      /\ s_his_neighborhoods st = [] /\ s_his_sp_neighborhoods st = []).
Proof.
  intros H. apply Stage_init_inv in H as [-> _].
  set (g := values_of value a).
  destruct (Stage_fields_sp value g) as [Hg [Hm [Hh [Sm Sh]]]].
  destruct (Stage_fields_all value g) as [Im [Ih [Nm [Nh [Pm [Ph _]]]]]].
  set (st := Stage_fields value g) in *.
  assert (Sub_m : incl (s_my_sp st) (s_my_ink st)).
  { intros c Hc. rewrite Im. apply argwhere_or_cell_is. right.
    apply StageFacts.argwhere_cell_is. now rewrite <- Hm. }
  assert (Sub_h : incl (s_his_sp st) (s_his_ink st)).
  { intros c Hc. rewrite Ih. apply argwhere_or_cell_is. right.
    apply StageFacts.argwhere_cell_is. now rewrite <- Hh. }
  split; intros E.
  - assert (Es : s_my_sp st = [])
      by (apply nil_of_no_member; intros c Hc; apply Sub_m in Hc;
          rewrite E in Hc; destruct Hc).
    rewrite Es in Sm. cbn in Sm. injection Sm as E1 E2.
    split; [exact Es |]. split; [exact E1 |]. split; [exact E2 |].
    split; apply nil_of_no_member; intros c Hc.
    + rewrite Nm in Hc. apply collect_ink_neighborhoods_In in Hc
        as [_ [_ [k [Hk _]]]]. rewrite E in Hk. destruct Hk.
    + rewrite Pm in Hc. apply collect_sp_neighborhoods_In in Hc
        as [_ [_ [k [Hk _]]]]. rewrite Es in Hk. destruct Hk.
  - assert (Es : s_his_sp st = [])
      by (apply nil_of_no_member; intros c Hc; apply Sub_h in Hc;
          rewrite E in Hc; destruct Hc).
    rewrite Es in Sh. cbn in Sh. injection Sh as E1 E2.
    split; [exact Es |]. split; [exact E1 |]. split; [exact E2 |].
    split; apply nil_of_no_member; intros c Hc.
    + rewrite Nh in Hc. apply collect_ink_neighborhoods_In in Hc
        as [_ [_ [k [Hk _]]]]. rewrite E in Hk. destruct Hk.
    + rewrite Ph in Hc. apply collect_sp_neighborhoods_In in Hc
        as [_ [_ [k [Hk _]]]]. rewrite Es in Hk. destruct Hk.
Qed.

Lemma Stage_player_without_ink_witness :
  let st := Stage_fields example_value [[0; 3]; [5; 4]]%Z in
  (s_my_ink st = [] ->
   s_my_sp st = [] /\ s_my_fiery_sp st = [] /\ s_my_unfiery_sp st = []
   /\ s_my_neighborhoods st = [] /\ s_my_sp_neighborhoods st = [])
  /\ (s_his_ink st = [] ->
      s_his_sp st = [] /\ s_his_fiery_sp st = [] /\ s_his_unfiery_sp st = []
      /\ s_his_neighborhoods st = [] /\ s_his_sp_neighborhoods st = []).
Proof.
  apply (@Stage_player_without_ink example_value
           (OfGrid [[Empty; HisInk]; [Wall; HisSpecial]]) []).
  reflexivity.
Defined.

(* ================================================================== *)
(** * More about the manager                                           *)
(* ================================================================== *)

Module ManagerMore.
Import Manager ManagerFacts Session.

(** ** The rotation loop on a card that looks the same upside down *)

Section Symmetric.
Variable compare_pattern : Pattern -> Pattern -> bool.
Variable card : Card.
Hypothesis same : Pattern_eq (get_pattern card 0) (get_pattern card 2) = true.

Lemma current_rotate_symmetric r :
  r = 0%Z \/ r = 2%Z ->
  current_rotate compare_pattern (map (get_pattern card) [0; 1; 2; 3]%Z)
                 (get_pattern card r) = 0.
Proof.
  intros Hr. unfold current_rotate. cbn [map nth].
  assert (E : Pattern_eq (get_pattern card 0) (get_pattern card r) = true)
    by (destruct Hr as [-> | ->]; [apply PatternFacts.Pattern_eq_refl | exact same]).
  rewrite E. reflexivity.
Qed.

Lemma rotate_loop_symmetric fuel : forall r,
  r = 0%Z \/ r = 2%Z ->
  rotate_loop (fun quarter_turns : Z => quarter_turns) compare_pattern
              (turning_preview card) turning_send fuel 2
              (map (get_pattern card) [0; 1; 2; 3]%Z) r
  = Running.
Proof.
  induction fuel as [| n IH]; intros r Hr; [reflexivity |].
  cbn [rotate_loop turning_preview]. rewrite (current_rotate_symmetric Hr).
  change (rotate_steps 2 0) with (Some 2%Z). cbv iota.
  change (Z.eqb 2 0) with false. cbv iota.
  rewrite IH; [reflexivity |].
  unfold turning_send. destruct Hr as [-> | ->]; [now right | now left].
Qed.

End Symmetric.

(** ** Stats and the exit policy *)

Lemma threshold_Z (threshold : option Z) (x : Z) :
  match threshold with Some m => Z.leb m x | None => false end = true
  <-> exists m, threshold = Some m /\ (m <= x)%Z.
Proof.
  destruct threshold as [m |].
  - rewrite Z.leb_le. split; [intros H; now exists m |].
    intros [m' [E H]]. now inversion E.
  - split; [discriminate | intros [m [E _]]; discriminate].
Qed.

Lemma threshold_Q (threshold : option Z) (x : Q) :
  match threshold with Some m => Qle_bool (inject_Z m) x | None => false end
  = true
  <-> exists m, threshold = Some m /\ (inject_Z m <= x)%Q.
Proof.
  destruct threshold as [m |].
  - rewrite Qle_bool_iff. split; [intros H; now exists m |].
    intros [m' [E H]]. now inversion E.
  - split; [discriminate | intros [m [E _]]; discriminate].
Qed.

Lemma exit_true_iff (self : Exit) (stats : Stats) :
  exit self stats = true
  <-> (exists m, max_win self = Some m /\ (m <= win stats)%Z)
      \/ (exists m, max_battle self = Some m /\ (m <= battle stats)%Z)
      \/ (exists m, max_time self = Some m /\ (inject_Z m <= time stats)%Q).
Proof.
  rewrite <- threshold_Z, <- threshold_Z, <- threshold_Q. unfold exit.
  destruct (match max_win self with Some m => Z.leb m (win stats) | None => false end);
    [intuition |].
  destruct (match max_battle self with Some m => Z.leb m (battle stats) | None => false end);
    [intuition |].
  destruct (match max_time self with
            | Some m => Qle_bool (inject_Z m) (time stats) | None => false end);
    intuition discriminate.
Qed.

Lemma run_matches_win fuel closer clock : forall played stats stats' n,
  run_matches fuel closer clock played stats = Some (stats', n) ->
  win stats' = win stats
  /\ played < n /\ battle stats' = (battle stats + Z.of_nat (n - played))%Z
  /\ start_time stats' = start_time stats
  /\ exit closer stats' = true.
Proof.
  induction fuel as [| f IH]; intros played stats stats' n H; [discriminate |].
  cbn [run_matches] in H.
  destruct (exit closer (update_stats get_result (clock played) stats)) eqn:E.
  - inversion H; subst. split; [reflexivity |]. split; [lia |].
    split; [cbn [battle update_stats]; lia |]. split; [reflexivity | exact E].
  - apply IH in H as [W [P [B [T X]]]].
    cbn [win battle start_time update_stats get_result my_ink his_ink Z.ltb
         Z.compare] in W, B, T.
    split; [exact W |]. split; [lia |]. split; [lia |].
    split; [exact T | exact X].
Qed.

End ManagerMore.

Import Session ManagerMore.

(** X16.  How a call of the [__multi_detect] wrapper ends, for every
    detector of the modelled samples.  When it returns, it made between 1
    and [max_loop + 1] polls and returns the sample of its last poll, no
    earlier poll passed the test against its predecessor, and either
    nothing is logged and the last poll passed, or the warning is logged,
    all [max_loop + 1] polls were made and none passed.  When it raises
    [ValueError], the test of its last poll was an ndarray comparison
    without a truth value and no earlier poll passed.  Two bare ndarrays
    of one length, of two elements or more, as the first two samples make
    it raise at the second poll. *)
Theorem multi_detect_history
        (V : Type) (veq : V -> V -> bool)
        (detect_fn : nat -> Manager.sample V) (max_loop : nat) :
  match Manager.multi_detect veq detect_fn max_loop with
  | Manager.Returned d =>
      1 <= Manager.d_polls d <= S max_loop
      /\ Manager.d_value d = detect_fn (Manager.d_polls d - 1)
      /\ (forall j, 1 <= j < Manager.d_polls d - 1 ->
             Manager.settled veq (detect_fn (j - 1)) (detect_fn j)
             = Manager.Fail)
      /\ ((Manager.d_log d = [] /\ 2 <= Manager.d_polls d
           /\ Manager.settled veq (detect_fn (Manager.d_polls d - 2))
                               (detect_fn (Manager.d_polls d - 1))
              = Manager.Pass)
          \/ (Manager.d_log d = [MultiDetectExceeded]
              /\ Manager.d_polls d = S max_loop
              /\ forall j, 1 <= j <= max_loop ->
                   Manager.settled veq (detect_fn (j - 1)) (detect_fn j)
                   = Manager.Fail))
  | Manager.RaisedValueError n =>
      2 <= n <= S max_loop
      /\ Manager.settled veq (detect_fn (n - 2)) (detect_fn (n - 1))
         = Manager.Ambiguous
      /\ (forall j, 1 <= j < n - 1 ->
             Manager.settled veq (detect_fn (j - 1)) (detect_fn j)
             = Manager.Fail)
  | Manager.Outside n =>
      2 <= n <= S max_loop
      /\ Manager.settled veq (detect_fn (n - 2)) (detect_fn (n - 1))
         = Manager.Unmodelled
      /\ (forall j, 1 <= j < n - 1 ->
             Manager.settled veq (detect_fn (j - 1)) (detect_fn j)
             = Manager.Fail)
  end
  /\ (forall a b,
         detect_fn 0 = Manager.Plain (Manager.Ndarray a) ->
         detect_fn 1 = Manager.Plain (Manager.Ndarray b) ->
         length a = length b -> 2 <= length a -> 1 <= max_loop ->
         Manager.multi_detect veq detect_fn max_loop
         = Manager.RaisedValueError 2).
Proof.
  split.
  - pose proof (@detect_loop_history V veq detect_fn max_loop 1 (le_n 1)) as H.
    change (detect_fn (1 - 1)) with (detect_fn 0) in H.
    fold (Manager.multi_detect veq detect_fn max_loop) in H.
    destruct (Manager.multi_detect veq detect_fn max_loop) as [d | n | n].
    + destruct H as [B [Hv [Hn Hc]]].
      split; [lia |]. split; [exact Hv |]. split; [exact Hn |].
      destruct Hc as [[L [Lt P]] | [L [Eq P]]].
      * left. split; [exact L |]. split; [lia | exact P].
      * right. split; [exact L |]. split; [lia |].
        intros j Hj. apply P. lia.
    + destruct H as [B [Ha Hn]]. split; [lia |]. split; [exact Ha | exact Hn].
    + destruct H as [B [Ha Hn]]. split; [lia |]. split; [exact Ha | exact Hn].
  - intros a b H0 H1 L La Hm. destruct max_loop as [| m]; [lia |].
    now apply (@multi_detect_bare_ndarrays V veq detect_fn a b m).
Qed.

Lemma multi_detect_history_witness :
  Manager.multi_detect Z.eqb samples_bare default_max_loop
  = Manager.RaisedValueError 2.
Proof.
  destruct (@multi_detect_history Z Z.eqb samples_bare default_max_loop)
    as [_ H].
  apply (H [0; 0]%Z [1; 0]%Z);
    first [ reflexivity | cbn; lia | unfold default_max_loop; lia ].
Defined.

(** X17.  Against a game that turns the previewed card, for a card whose
    four patterns are pairwise different, the rotation loop reaches any
    target rotation 1..3 from any rotation shown: it sends nothing when
    the target is already shown, else exactly one rotate macro, for
    [(target - shown + 4) mod 4] quarter turns, and stops with the target
    shown. *)
Theorem rotate_card_converges
        (compare_pattern : Pattern -> Pattern -> bool) (card : Card)
        (target r : Z) (fuel : nat) :
  exact_rotations card = true ->
  (0 < target < 4)%Z -> (0 <= r < 4)%Z ->
  Manager.rotate_card (fun quarter_turns : Z => quarter_turns) compare_pattern
                      (turning_preview card) turning_send (2 + fuel)
                      target card r
  = Manager.Stopped (if Z.eqb r target then []
                     else [((target - r + 4) mod 4)%Z], target).
Proof.
  intros E Ht Hr.
  exact (@ManagerFacts.rotate_card_turning
           Z (fun quarter_turns => quarter_turns)
           (fun quarter_turns => quarter_turns) (fun n => eq_refl)
           compare_pattern card E target r fuel Ht Hr).
Qed.

Lemma rotate_card_converges_witness :
  Manager.rotate_card (fun quarter_turns : Z => quarter_turns)
                      (fun _ _ => false)
                      (turning_preview L_card) turning_send (2 + 0)
                      1%Z L_card 3%Z
  = Manager.Stopped (if Z.eqb 3 1 then [] else [((1 - 3 + 4) mod 4)%Z], 1%Z).
Proof.
  apply (@rotate_card_converges (fun _ _ => false) L_card 1%Z 3%Z 0);
    first [ reflexivity | lia ].
Defined.

(** X18.  Against the same game, for a card whose rotation-2 pattern
    equals its rotation-0 pattern, the rotation loop with target rotation
    2 never stops: line 210 takes the first exact match, index 0, also
    when rotation 2 is shown, so every iteration sends the macro for 2
    quarter turns again. *)
Theorem rotate_card_symmetric_never_stops
        (compare_pattern : Pattern -> Pattern -> bool) (card : Card)
        (fuel : nat) :
  Pattern_eq (get_pattern card 0) (get_pattern card 2) = true ->
  Manager.rotate_card (fun quarter_turns : Z => quarter_turns) compare_pattern
                      (turning_preview card) turning_send fuel 2%Z card 0%Z
  = Manager.Running.
Proof.
  intros E. unfold Manager.rotate_card. cbn [Z.gtb Z.compare].
  apply (@rotate_loop_symmetric compare_pattern card E fuel 0%Z). now left.
Qed.

Lemma rotate_card_symmetric_never_stops_witness :
  Manager.rotate_card (fun quarter_turns : Z => quarter_turns)
                      (fun _ _ => false)
                      (turning_preview domino_card) turning_send 50 2%Z
                      domino_card 0%Z
  = Manager.Running.
Proof.
  apply (@rotate_card_symmetric_never_stops (fun _ _ => false) domino_card 50).
  reflexivity.
Defined.

Module SessionFacts.
Import Session.

Lemma update_stats_get_result now stats :
  win (update_stats get_result now stats) = win stats
  /\ battle (update_stats get_result now stats) = (battle stats + 1)%Z
  /\ start_time (update_stats get_result now stats) = start_time stats.
Proof. repeat split. Qed.

Lemma run_matches_max_win fuel m clock : forall played stats,
  (win stats < m)%Z ->
  run_matches fuel (mkExit (Some m) None None) clock played stats = None.
Proof.
  induction fuel as [| f IH]; intros played stats Hw; [reflexivity |].
  cbn [run_matches].
  assert (E : exit (mkExit (Some m) None None)
                   (update_stats get_result (clock played) stats) = false).
  { unfold exit. cbn [max_win max_battle max_time].
    destruct (update_stats_get_result (clock played) stats) as [-> _].
    replace (Z.leb m (win stats)) with false
      by (symmetry; apply Z.leb_gt; exact Hw).
    reflexivity. }
  rewrite E. apply IH.
  now destruct (update_stats_get_result (clock played) stats) as [-> _].
Qed.






End SessionFacts.

Import SessionFacts.

(** X19.  [Exit.exit] answers True exactly when a threshold that is set
    has been reached; so an answer True stays True when wins, battles and
    time grow, and [Exit()], with no threshold set, never answers True. *)
Theorem Exit_exit_thresholds (self : Exit) (stats : Stats) :
  (exit self stats = true
   <-> (exists m, max_win self = Some m /\ (m <= win stats)%Z)
       \/ (exists m, max_battle self = Some m /\ (m <= battle stats)%Z)
       \/ (exists m, max_time self = Some m /\ (inject_Z m <= time stats)%Q))
  /\ (forall later,
         (win stats <= win later)%Z -> (battle stats <= battle later)%Z ->
         (time stats <= time later)%Q ->
         exit self stats = true -> exit self later = true)
  /\ exit Exit_default stats = false.
Proof.
  split; [apply exit_true_iff |]. split; [| reflexivity].
  intros later Hw Hb Ht. rewrite !exit_true_iff.
  intros [[m [E L]] | [[m [E L]] | [m [E L]]]].
  - left. exists m. split; [exact E | lia].
  - right. left. exists m. split; [exact E | lia].
  - right. right. exists m. split; [exact E |].
    eapply Qle_trans; eassumption.
Qed.

(** X20.  The match loop of [run] never counts a win: [__get_result]
    always returns [Result(0, 0)], so whenever the loop stops the win
    count is what it was and the battle count has grown by the number of
    matches played; and with only [max_win] set, above the current win
    count, the loop never stops. *)
Theorem run_never_counts_a_win
        (closer : Exit) (clock : nat -> Q) (played : nat) (stats : Stats) :
  (forall fuel stats' n,
      run_matches fuel closer clock played stats = Some (stats', n) ->
      win stats' = win stats
      /\ played < n
      /\ battle stats' = (battle stats + Z.of_nat (n - played))%Z
      /\ exit closer stats' = true)
  /\ (forall fuel m,
         (win stats < m)%Z ->
         run_matches fuel (mkExit (Some m) None None) clock played stats = None).
Proof.
  split.
  - intros fuel stats' n H.
    destruct (run_matches_win fuel closer clock played stats H)
      as [W [P [B [_ X]]]].
    auto.
  - intros fuel m Hw. now apply run_matches_max_win.
Qed.




(* ================================================================== *)
(** * The hand detector: slots, cells, cost pips                       *)
(* ================================================================== *)

Module HandsMore.
Import Np Mask NpFacts Detection DetectionFacts StageMore CardMore3.

Lemma exceeds_maximum a b : exceeds (maximum a b) = exceeds a || exceeds b.
Proof.
  unfold exceeds, maximum.
  destruct (Qle_bool a b) eqn:E.
  - destruct (Qle_bool b GRID_PIXEL_RATIO) eqn:Eb; cbn.
    + assert (H : Qle_bool a GRID_PIXEL_RATIO = true).
      { apply Qle_bool_iff. apply Qle_bool_iff in E, Eb.
        eapply Qle_trans; eassumption. }
      now rewrite H.
    + now rewrite orb_true_r.
  - destruct (Qle_bool a GRID_PIXEL_RATIO) eqn:Ea; cbn; [| reflexivity].
    assert (H : Qle_bool b GRID_PIXEL_RATIO = true).
    { apply Qle_bool_iff. apply Qle_bool_iff in Ea.
      assert (N : ~ (a <= b)%Q)
        by (intros H; apply Qle_bool_iff in H; congruence).
      apply Qnot_le_lt, Qlt_le_weak in N. eapply Qle_trans; eassumption. }
    now rewrite H.
Qed.

Lemma map_combine_map {A B C D} (f : A -> B) (g : A -> C) (h : B * C -> D) l :
  map h (combine (map f l) (map g l)) = map (fun x => h (f x, g x)) l.
Proof. induction l as [| x l IH]; cbn; [reflexivity | now rewrite IH]. Qed.

Lemma filter_map_length {A B} (f : A -> B) p l :
  length (filter p (map f l)) = length (filter (fun x => p (f x)) l).
Proof.
  induction l as [| x l IH]; cbn; [reflexivity |].
  destruct (p (f x)); cbn; now rewrite IH.
Qed.

Lemma reshape_rows_shape {A} n : forall rows (a : list A),
  length a = rows * n -> has_shape rows n (reshape_rows rows n a).
Proof.
  induction rows as [| rows IH]; intros a L.
  - split; [reflexivity | constructor].
  - cbn [reshape_rows].
    destruct (IH (skipn n a)) as [Hl Hf]; [rewrite length_skipn; lia |].
    split; [cbn; now rewrite Hl |].
    constructor; [rewrite length_firstn; lia | exact Hf].
Qed.

Lemma reshape_rows_concat {A} n : forall rows (a : list A),
  length a = rows * n -> concat (reshape_rows rows n a) = a.
Proof.
  induction rows as [| rows IH]; intros a L.
  - destruct a; [reflexivity | discriminate].
  - cbn [reshape_rows concat]. rewrite IH by (rewrite length_skipn; lia).
    apply firstn_skipn.
Qed.

Lemma has_shape_rectangular {A} h w (m : list (list A)) :
  has_shape h w m -> rectangular m = true.
Proof.
  intros [_ F]. unfold rectangular. apply forallb_forall. intros r Hr.
  apply Nat.eqb_eq. rewrite Forall_forall in F. rewrite (F r Hr).
  unfold width. destruct m as [| r0 m]; [destruct Hr |].
  cbn. symmetry. apply F. now left.
Qed.

Lemma mapM_Ok {A B} (f : A -> M B) : forall l,
  (forall x, In x l -> exists lg y, f x = (lg, Ok y)) ->
  exists lg ys,
    mapM f l = (lg, Ok ys) /\ length ys = length l
    /\ forall i d d', i < length l ->
         exists li, f (nth i l d) = (li, Ok (nth i ys d')).
Proof.
  induction l as [| x l IH]; intros H.
  - exists [], []. repeat split. intros i d d' Hi. cbn in Hi. lia.
  - destruct (H x (or_introl eq_refl)) as [lx [y Ex]].
    destruct (IH (fun z Hz => H z (or_intror Hz))) as [lg [ys [E [L N]]]].
    exists (lx ++ lg ++ []), (y :: ys). cbn [mapM]. rewrite Ex. cbn [bind].
    rewrite E. cbn. split; [reflexivity |]. split; [now rewrite L |].
    intros [| i] d d' Hi; [exists lx; exact Ex |].
    apply N. lia.
Qed.

Lemma mapM_Raise {A B} (f : A -> M B) : forall l x,
  In x l -> outcome (f x) = Raise IndexError ->
  outcome (mapM f l) = Raise IndexError.
Proof.
  induction l as [| y l IH]; intros x Hx Hr; [destruct Hx |].
  cbn [mapM]. destruct (f y) as [ly [v | []]] eqn:Ey; [| reflexivity].
  destruct Hx as [<- | Hx].
  - rewrite Ey in Hr. discriminate.
  - pose proof (IH x Hx Hr) as R. cbn [bind].
    destruct (mapM f l) as [lm [ys | e]]; cbn in R; [discriminate |].
    cbn. exact R.
Qed.

Lemma Card_init_sp_cost value a c l k :
  Card_init value a c = (l, Ok k) -> c_sp_cost k = c.
Proof.
  unfold Card_init. intros H.
  destruct (mapM _ _) as [lm [ps | e]]; cbn in H; [| discriminate].
  injection H as _ <-. reflexivity.
Qed.

Section WithFrame.
Variable value : Grid -> Z.
Variable frame : Type.
Variable in_range_count : frame -> Z * Z -> hsv -> hsv -> Z.
Variable hands_cursor : frame -> Z.
Variables HG HC FG FC : list (list (Z * Z)).
Variable img : frame.

Local Abbreviation cell_of := (classified in_range_count img value).


Lemma choose_rois_shape n normal focus c :
  has_shape 4 n normal -> has_shape 4 n focus ->
  has_shape 4 n (choose_rois normal focus c).
Proof.
  intros [Ln Fn] [Lf Ff]. unfold choose_rois.
  destruct ((0 <=? c)%Z && (c <? 4)%Z) eqn:E; [| now split].
  apply andb_true_iff in E as [E1 E2].
  apply Z.leb_le in E1. apply Z.ltb_lt in E2.
  split; [now rewrite set_item_length |].
  apply StageMore2.set_item_Forall; [exact Fn |].
  rewrite Forall_forall in Ff. apply Ff, nth_In. lia.
Qed.

Lemma classify_shape rois b1 b2 b3 b4 b5 b6 b7 b8 :
  shape_of (classify value
              (ratios_of in_range_count img rois b1 b2)
              (ratios_of in_range_count img rois b3 b4)
              (ratios_of in_range_count img rois b5 b6)
              (ratios_of in_range_count img rois b7 b8))
  = shape_of rois.
Proof.
  unfold classify.
  assert (Sm : forall lo up,
             shape_of (map (map exceeds) (ratios_of in_range_count img rois lo up))
             = shape_of rois)
    by (intros; now rewrite shape_of_map, ratios_of_shape).
  rewrite assign_where_shape; rewrite ?assign_where_shape;
    rewrite ?shape_of_map, ?ratios_of_shape; try reflexivity;
    rewrite ?assign_where_shape; rewrite ?shape_of_map, ?ratios_of_shape;
    try reflexivity;
    rewrite ?assign_where_shape; rewrite ?shape_of_map, ?ratios_of_shape;
    reflexivity.
Qed.

Lemma hands_grids_shape cursor :
  shape_of (hands_grids value in_range_count hands_cursor HG FG img cursor)
  = shape_of (grid_rois_of hands_cursor HG FG img cursor).
Proof. unfold hands_grids. apply classify_shape. Qed.

Lemma hands_grids_row cursor i :
  i < length (grid_rois_of hands_cursor HG FG img cursor) ->
  nth i (hands_grids value in_range_count hands_cursor HG FG img cursor) []
  = map cell_of (nth i (grid_rois_of hands_cursor HG FG img cursor) []).
Proof.
  intros Hi.
  pose proof (same_shape_row _ _ i (hands_grids_shape cursor)) as Lr.
  apply (nth_ext _ _ 0%Z 0%Z); [now rewrite length_map |].
  intros k Hk. rewrite Lr in Hk.
  pose proof (@hands_grids_item value frame in_range_count hands_cursor HG FG
                img cursor i k Hi Hk) as E.
  unfold item in E. cbn zeta in E. rewrite E.
  rewrite (nth_map_in _ _ (0, 0)%Z 0%Z) by exact Hk. reflexivity.
Qed.

Lemma hands_costs_eq cursor :
  hands_costs in_range_count hands_cursor HC FC img cursor
  = map (fun r => Z.of_nat (length (filter (pip_lit in_range_count img) r)))
        (cost_rois_of hands_cursor HC FC img cursor).
Proof.
  unfold hands_costs, ratios_of. cbn zeta.
  rewrite (map_combine_map
             (map (fun idx => grid_ratios in_range_count img idx
                                MY_SPECIAL_LIGHTER_COLOR_HSV_LOWER_BOUND
                                MY_SPECIAL_LIGHTER_COLOR_HSV_UPPER_BOUND))
             (map (fun idx => grid_ratios in_range_count img idx
                                MY_SPECIAL_DARKER_COLOR_HSV_LOWER_BOUND
                                MY_SPECIAL_DARKER_COLOR_HSV_UPPER_BOUND))).
  rewrite map_map. apply map_ext. intros r. cbn [fst snd]. f_equal.
  rewrite (map_combine_map _ _ (fun q : Q * Q => maximum (fst q) (snd q))).
  rewrite filter_map_length. f_equal. apply filter_ext. intros tl.
  cbn [fst snd]. apply exceeds_maximum.
Qed.

Lemma cell_of_is_my tl :
  any_band in_range_count img tl = true -> is_my value (cell_of tl) = true.
Proof.
  intros H. unfold is_my, classified.
  destruct (classify_cell_matched value _ _ _ _ H) as [-> | ->];
    rewrite Z.eqb_refl; [reflexivity | apply orb_true_r].
Qed.

Lemma cell_of_blank tl :
  any_band in_range_count img tl = false -> cell_of tl = 0%Z.
Proof.
  unfold any_band. intros H.
  apply orb_false_iff in H as [H H4]. apply orb_false_iff in H as [H H3].
  apply orb_false_iff in H as [H1 H2]. unfold classified.
  now rewrite H1, H2, H3, H4.
Qed.

(** The grid [grids[i]] of slot [i] after the reshape to (8, 8). *)
Lemma slot_grid cursor i :
  has_shape 4 64 (grid_rois_of hands_cursor HG FG img cursor) -> i < 4 ->
  let g := nth i (map (reshape_rows 8 8)
                      (hands_grids value in_range_count hands_cursor HG FG
                                   img cursor)) [] in
  rectangular g = true
  /\ concat g = map cell_of (nth i (grid_rois_of hands_cursor HG FG img cursor) []).
Proof.
  intros S Hi g. pose proof S as [L _].
  pose proof (same_shape_length _ _ (hands_grids_shape cursor)) as Lg.
  assert (Eg : g = reshape_rows 8 8
                     (map cell_of
                          (nth i (grid_rois_of hands_cursor HG FG img cursor) []))).
  { unfold g. rewrite (nth_map_in _ _ [] []) by lia.
    now rewrite hands_grids_row by lia. }
  assert (Lr : length (map cell_of
                         (nth i (grid_rois_of hands_cursor HG FG img cursor) []))
               = 8 * 8)
    by (rewrite length_map; apply (has_shape_row S Hi)).
  rewrite Eg. split.
  - apply (@has_shape_rectangular _ 8 8), reshape_rows_shape, Lr.
  - apply reshape_rows_concat, Lr.
Qed.

Lemma hands_outcome cursor :
  value MyInk <> value Empty -> value MySpecial <> value Empty ->
  value MyInk <> 0%Z -> value MySpecial <> 0%Z ->
  has_shape 4 64 (grid_rois_of hands_cursor HG FG img cursor) ->
  ((forall i, i < 4 ->
      exists tl, In tl (nth i (grid_rois_of hands_cursor HG FG img cursor) [])
                 /\ any_band in_range_count img tl = true) ->
   exists l cards,
     hands value in_range_count hands_cursor HG HC FG FC img cursor
     = (l, Ok cards)
     /\ length cards = 4
     /\ forall i, i < 4 ->
          c_sp_cost (nth i cards no_card)
          = nth i (hands_costs in_range_count hands_cursor HC FC img cursor) 0%Z)
  /\ ((exists i, i < 4
         /\ forall tl,
              In tl (nth i (grid_rois_of hands_cursor HG FG img cursor) []) ->
              any_band in_range_count img tl = false) ->
      outcome (hands value in_range_count hands_cursor HG HC FG FC img cursor)
      = Raise IndexError).
Proof.
  intros H1 H2 Z1 Z2 S. unfold hands. cbn zeta.
  set (grids := map (reshape_rows 8 8)
                    (hands_grids value in_range_count hands_cursor HG FG
                                 img cursor)).
  set (costs := hands_costs in_range_count hands_cursor HC FC img cursor).
  set (f := fun i => Card_init value (OfInt (nth i grids [])) (nth i costs 0%Z)).
  assert (I4 : forall i, In i [0; 1; 2; 3] <-> i < 4)
    by (intros i; cbn; lia).
  split.
  - intros Hall.
    destruct (@mapM_Ok _ _ f [0; 1; 2; 3]) as [l [cards [E [L N]]]].
    { intros i Hi. apply I4 in Hi.
      destruct (@slot_grid cursor i S Hi) as [R C]. fold grids in R, C.
      destruct (Hall i Hi) as [tl [Ht Hb]].
      destruct (@built_card_iff value (OfInt (nth i grids [])) (nth i costs 0%Z)
                  H1 H2 R) as [Hok _].
      destruct Hok as [lg [k [Ek _]]]; [| exists lg, k; exact Ek].
      exists (cell_of tl). split; [| now apply cell_of_is_my].
      cbn [values_of]. rewrite C. now apply in_map. }
    exists l, cards. split; [exact E |]. split; [exact L |].
    intros i Hi. destruct (N i 0 no_card) as [li Ei]; [cbn; lia |].
    assert (Ei' : nth i [0; 1; 2; 3] 0 = i)
      by (do 4 (destruct i as [| i]; [reflexivity |]); lia).
    rewrite Ei' in Ei. unfold f in Ei.
    apply (Card_init_sp_cost _ _ _ Ei).
  - intros [i [Hi Hnone]].
    apply (@mapM_Raise _ _ f [0; 1; 2; 3] i); [now apply I4 |].
    destruct (@slot_grid cursor i S Hi) as [R C]. fold grids in R, C.
    destruct (@built_card_iff value (OfInt (nth i grids [])) (nth i costs 0%Z)
                H1 H2 R) as [_ Hraise].
    apply Hraise. cbn [values_of]. rewrite C. intros x Hx.
    apply in_map_iff in Hx as [tl [<- Ht]].
    rewrite (cell_of_blank _ (Hnone tl Ht)). unfold is_my.
    apply orb_false_iff. split; apply Z.eqb_neq; congruence.
Qed.

End WithFrame.

End HandsMore.

Import HandsMore.

(** X23.  What [hands] leaves in a cell after the four masked assignments
    of lines 83-87, for every slot and cell of the ROI table in use: the
    band tested last wins, so special-darker gives MySpecial, else
    ink-darker gives MyInk, else special-lighter gives MySpecial, else
    ink-lighter gives MyInk, and a cell on which no band passes keeps 0;
    no other value is ever written. *)
Theorem hands_cell_precedence
        (value : Grid -> Z) (frame : Type)
        (in_range_count : frame -> Z * Z -> hsv -> hsv -> Z)
        (hands_cursor : frame -> Z) (HG FG : list (list (Z * Z)))
        (img : frame) (cursor : option Z) (i k : nat) (top_left : Z * Z)
        (cell : Z) :
  i < length (grid_rois_of hands_cursor HG FG img cursor) ->
  k < length (nth i (grid_rois_of hands_cursor HG FG img cursor) []) ->
  top_left = Np.item (0, 0)%Z (grid_rois_of hands_cursor HG FG img cursor) i k ->
  cell = Np.item 0%Z (hands_grids value in_range_count hands_cursor HG FG
                                  img cursor) i k ->
  (special_darker in_range_count img top_left = true -> cell = value MySpecial)
  /\ (special_darker in_range_count img top_left = false ->
      ink_darker in_range_count img top_left = true -> cell = value MyInk)
  /\ (special_darker in_range_count img top_left = false ->
      ink_darker in_range_count img top_left = false ->
      special_lighter in_range_count img top_left = true ->
      cell = value MySpecial)
  /\ (special_darker in_range_count img top_left = false ->
      ink_darker in_range_count img top_left = false ->
      special_lighter in_range_count img top_left = false ->
      ink_lighter in_range_count img top_left = true -> cell = value MyInk)
  /\ (any_band in_range_count img top_left = false -> cell = 0%Z)
  /\ (cell = 0%Z \/ cell = value MyInk \/ cell = value MySpecial).
Proof.
  intros Hi Hk -> ->.
  rewrite (@hands_grids_item value frame in_range_count hands_cursor HG FG
             img cursor i k Hi Hk).
  cbn zeta.
  set (tl := Np.item (0, 0)%Z (grid_rois_of hands_cursor HG FG img cursor) i k).
  change (exceeds (grid_ratios in_range_count img tl
                     MY_INK_LIGHTER_COLOR_HSV_LOWER_BOUND
                     MY_INK_LIGHTER_COLOR_HSV_UPPER_BOUND))
    with (ink_lighter in_range_count img tl).
  change (exceeds (grid_ratios in_range_count img tl
                     MY_SPECIAL_LIGHTER_COLOR_HSV_LOWER_BOUND
                     MY_SPECIAL_LIGHTER_COLOR_HSV_UPPER_BOUND))
    with (special_lighter in_range_count img tl).
  change (exceeds (grid_ratios in_range_count img tl
                     MY_INK_DARKER_COLOR_HSV_LOWER_BOUND
                     MY_INK_DARKER_COLOR_HSV_UPPER_BOUND))
    with (ink_darker in_range_count img tl).
  change (exceeds (grid_ratios in_range_count img tl
                     MY_SPECIAL_DARKER_COLOR_HSV_LOWER_BOUND
                     MY_SPECIAL_DARKER_COLOR_HSV_UPPER_BOUND))
    with (special_darker in_range_count img tl).
  unfold any_band, classify_cell.
  destruct (ink_lighter in_range_count img tl),
           (special_lighter in_range_count img tl),
           (ink_darker in_range_count img tl),
           (special_darker in_range_count img tl);
    cbn; repeat split; intros; try discriminate; auto.
Qed.

Lemma hands_cell_precedence_witness :
  Np.item 0%Z (hands_grids example_value example_count (fun _ => 0%Z)
                           (example_rois 0 64) (example_rois 100 64)
                           mixed_cell_frame (Some (-1)%Z)) 0 0
  = example_value MyInk.
Proof.
  destruct (@hands_cell_precedence example_value example_frame example_count
              (fun _ => 0%Z) (example_rois 0 64) (example_rois 100 64)
              mixed_cell_frame (Some (-1)%Z) 0 0 (0, 0)%Z
              (Np.item 0%Z (hands_grids example_value example_count
                                        (fun _ => 0%Z) (example_rois 0 64)
                                        (example_rois 100 64) mixed_cell_frame
                                        (Some (-1)%Z)) 0 0))
    as [_ [H _]].
  - vm_compute. lia.
  - vm_compute. lia.
  - reflexivity.
  - reflexivity.
  - apply H; reflexivity.
Defined.



(** X25.  The cost [hands] gives the Card of slot [i] is the number of
    pips of that slot on which the special-lighter or the special-darker
    band passes ([np.maximum] of the two ratios passes exactly when one of
    them does); it lies between 0 and the number of pips of the slot. *)
Theorem hands_costs_count
        (frame : Type) (in_range_count : frame -> Z * Z -> hsv -> hsv -> Z)
        (hands_cursor : frame -> Z) (HC FC : list (list (Z * Z)))
        (img : frame) (cursor : option Z) (i : nat) :
  i < length (cost_rois_of hands_cursor HC FC img cursor) ->
  length (hands_costs in_range_count hands_cursor HC FC img cursor)
  = length (cost_rois_of hands_cursor HC FC img cursor)
  /\ nth i (hands_costs in_range_count hands_cursor HC FC img cursor) 0%Z
     = Z.of_nat (length (filter (pip_lit in_range_count img)
                           (nth i (cost_rois_of hands_cursor HC FC img cursor)
                                [])))
  /\ (0 <= nth i (hands_costs in_range_count hands_cursor HC FC img cursor) 0
      <= Z.of_nat (length (nth i (cost_rois_of hands_cursor HC FC img cursor)
                               [])))%Z.
Proof.
  intros Hi. rewrite hands_costs_eq, length_map.
  split; [reflexivity |].
  rewrite (NpFacts.nth_map_in _ _ [] 0%Z) by exact Hi.
  split; [reflexivity |].
  pose proof (filter_length_le (pip_lit in_range_count img)
                (nth i (cost_rois_of hands_cursor HC FC img cursor) [])).
  lia.
Qed.

Lemma hands_costs_count_witness :
  length (hands_costs example_count (fun _ => 0%Z) (example_rois 200 6)
                      (example_rois 300 6) mixed_cell_frame (Some (-1)%Z))
  = length (cost_rois_of (fun _ : example_frame => 0%Z) (example_rois 200 6)
                         (example_rois 300 6) mixed_cell_frame (Some (-1)%Z))
  /\ nth 1 (hands_costs example_count (fun _ => 0%Z) (example_rois 200 6)
                        (example_rois 300 6) mixed_cell_frame (Some (-1)%Z)) 0%Z
     = Z.of_nat
         (length (filter (pip_lit example_count mixed_cell_frame)
                    (nth 1 (cost_rois_of (fun _ : example_frame => 0%Z)
                                         (example_rois 200 6)
                                         (example_rois 300 6)
                                         mixed_cell_frame (Some (-1)%Z)) [])))
  /\ (0 <= nth 1 (hands_costs example_count (fun _ => 0%Z) (example_rois 200 6)
                              (example_rois 300 6) mixed_cell_frame
                              (Some (-1)%Z)) 0
      <= Z.of_nat
           (length (nth 1 (cost_rois_of (fun _ : example_frame => 0%Z)
                                        (example_rois 200 6)
                                        (example_rois 300 6)
                                        mixed_cell_frame (Some (-1)%Z)) [])))%Z.
Proof.
  apply (@hands_costs_count example_frame example_count (fun _ => 0%Z)
           (example_rois 200 6) (example_rois 300 6) mixed_cell_frame
           (Some (-1)%Z) 1).
  vm_compute. lia.
Defined.

(** X26.  With ROI tables of shape (4, 64) in use, and MyInk's and
    MySpecial's values different from Empty's and from 0, [hands] returns
    its four Cards exactly when every slot has a cell on which some band
    passes, the Card of slot [i] carrying the cost counted for slot [i];
    when some slot has no such cell, [hands] raises [IndexError] from the
    Card constructor. *)
Theorem hands_succeeds_iff
        (value : Grid -> Z) (frame : Type)
        (in_range_count : frame -> Z * Z -> hsv -> hsv -> Z)
        (hands_cursor : frame -> Z) (HG HC FG FC : list (list (Z * Z)))
        (img : frame) (cursor : option Z) :
  value MyInk <> value Empty -> value MySpecial <> value Empty ->
  value MyInk <> 0%Z -> value MySpecial <> 0%Z ->
  Np.has_shape 4 64 (grid_rois_of hands_cursor HG FG img cursor) ->
  ((forall i, i < 4 ->
      exists tl, In tl (nth i (grid_rois_of hands_cursor HG FG img cursor) [])
                 /\ any_band in_range_count img tl = true) ->
   exists l cards,
     hands value in_range_count hands_cursor HG HC FG FC img cursor
     = (l, Ok cards)
     /\ length cards = 4
     /\ forall i, i < 4 ->
          c_sp_cost (nth i cards no_card)
          = nth i (hands_costs in_range_count hands_cursor HC FC img cursor) 0%Z)
  /\ ((exists i, i < 4
         /\ forall tl,
              In tl (nth i (grid_rois_of hands_cursor HG FG img cursor) []) ->
              any_band in_range_count img tl = false) ->
      outcome (hands value in_range_count hands_cursor HG HC FG FC img cursor)
      = Raise IndexError).
Proof.
  intros H1 H2 Z1 Z2 S.
  exact (@hands_outcome value frame in_range_count hands_cursor HG HC FG FC
           img cursor H1 H2 Z1 Z2 S).
Qed.

Lemma hands_succeeds_iff_witness :
  (exists l cards,
      hands example_value example_count (fun _ => 0%Z)
            (example_rois 0 64) (example_rois 200 6)
            (example_rois 100 64) (example_rois 300 6)
            full_hand_frame (Some 1%Z)
      = (l, Ok cards)
      /\ length cards = 4
      /\ forall i, i < 4 ->
           c_sp_cost (nth i cards no_card)
           = nth i (hands_costs example_count (fun _ => 0%Z)
                                (example_rois 200 6) (example_rois 300 6)
                                full_hand_frame (Some 1%Z)) 0%Z)
  /\ outcome (hands example_value example_count (fun _ => 0%Z)
                    (example_rois 0 64) (example_rois 200 6)
                    (example_rois 100 64) (example_rois 300 6)
                    mixed_cell_frame (Some 1%Z))
     = Raise IndexError.
Proof.
  split.
  - apply (@hands_succeeds_iff example_value example_frame example_count
             (fun _ => 0%Z) (example_rois 0 64) (example_rois 200 6)
             (example_rois 100 64) (example_rois 300 6)
             full_hand_frame (Some 1%Z));
      [discriminate | discriminate | discriminate | discriminate
      | split; [reflexivity | repeat constructor] |].
    intros i Hi.
    exists (hd (0, 0)%Z
               (nth i (grid_rois_of (fun _ : example_frame => 0%Z)
                                    (example_rois 0 64) (example_rois 100 64)
                                    full_hand_frame (Some 1%Z)) [])).
    do 4 (destruct i as [| i]; [split; [left; reflexivity | reflexivity] |]).
    lia.
  - apply (@hands_succeeds_iff example_value example_frame example_count
             (fun _ => 0%Z) (example_rois 0 64) (example_rois 200 6)
             (example_rois 100 64) (example_rois 300 6)
             mixed_cell_frame (Some 1%Z));
      [discriminate | discriminate | discriminate | discriminate
      | split; [reflexivity | repeat constructor] |].
    exists 2. split; [lia |]. intros tl Ht.
    assert (F : forallb (fun tl => negb (any_band example_count mixed_cell_frame tl))
                        (nth 2 (grid_rois_of (fun _ : example_frame => 0%Z)
                                             (example_rois 0 64)
                                             (example_rois 100 64)
                                             mixed_cell_frame (Some 1%Z)) [])
                = true) by (vm_compute; reflexivity).
    rewrite forallb_forall in F. apply negb_true_iff, F, Ht.
Defined.

(* ================================================================== *)
(** * Stage: size and equality; the closing loop                       *)
(* ================================================================== *)

Module StageMore3.
Import Np Mask NpFacts NpMore StageFacts StageMore.

Lemma filter_complement_length {A} (p : A -> bool) (l : list A) :
  length (filter (fun x => negb (p x)) l) + length (filter p l) = length l.
Proof.
  induction l as [| x l IH]; cbn; [reflexivity |].
  destruct (p x); cbn; lia.
Qed.

Lemma forallb_combine_eq {A} (eqb : A -> A -> bool) : forall a b,
  length a = length b ->
  (forall x y, In (x, y) (combine a b) -> (eqb x y = true <-> x = y)) ->
  (forallb (fun p => eqb (fst p) (snd p)) (combine a b) = true <-> a = b).
Proof.
  induction a as [| x a IH]; intros [| y b] L H; try discriminate.
  - cbn. tauto.
  - cbn [combine forallb fst snd]. rewrite andb_true_iff.
    rewrite (H x y) by (now left).
    rewrite IH; [| cbn in L; lia | intros u v Huv; apply H; now right].
    split; [intros [-> ->]; reflexivity | intros E; inversion E; auto].
Qed.

Lemma all_eq_same_length {A} (eqb : A -> A -> bool) a b :
  length a = length b ->
  (forall x y, In (x, y) (combine a b) -> (eqb x y = true <-> x = y)) ->
  (all_eq eqb a b = true <-> a = b).
Proof.
  intros L H. unfold all_eq. rewrite L, Nat.eqb_refl.
  now apply forallb_combine_eq.
Qed.

Lemma all_eq_same_shape h w (a b : matrix) :
  has_shape h w a -> has_shape h w b ->
  (all_eq (all_eq Z.eqb) a b = true <-> a = b).
Proof.
  intros [La Fa] [Lb Fb]. apply all_eq_same_length; [congruence |].
  intros x y Hxy. rewrite Forall_forall in Fa, Fb.
  apply all_eq_same_length.
  - rewrite (Fa x (in_combine_l _ _ _ _ Hxy)), (Fb y (in_combine_r _ _ _ _ Hxy)).
    reflexivity.
  - intros u v _. apply Z.eqb_eq.
Qed.

Lemma all_eq_one_cell x (r : list Z) :
  all_eq Z.eqb [x] r = true <-> forall y, In y r -> y = x.
Proof.
  unfold all_eq. destruct r as [| y [| z r]].
  - cbn. split; [intros _ y [] | reflexivity].
  - cbn. rewrite andb_true_r, Z.eqb_eq.
    split; [intros -> u [<- | []]; reflexivity | intros H; symmetry; apply H; now left].
  - cbn [length Nat.eqb]. rewrite forallb_forall.
    split; intros H u Hu; [symmetry | apply Z.eqb_eq; symmetry];
      [apply Z.eqb_eq |]; now apply H.
Qed.

Lemma all_eq_one_cell_grid x (b : matrix) :
  all_eq (all_eq Z.eqb) [[x]] b = true <-> forall y, In y (concat b) -> y = x.
Proof.
  assert (R : forallb (fun r => all_eq Z.eqb [x] r) b = true
              <-> forall y, In y (concat b) -> y = x).
  { rewrite forallb_forall. split.
    - intros H y Hy. apply in_concat in Hy as [r [Hr Hy]].
      exact (proj1 (all_eq_one_cell x r) (H r Hr) y Hy).
    - intros H r Hr. apply all_eq_one_cell. intros y Hy. apply H.
      apply in_concat. exists r. auto. }
  unfold all_eq at 1. destruct b as [| r [| r' b]].
  - cbn. split; [intros _ y [] | reflexivity].
  - cbn [length Nat.eqb combine forallb fst snd]. rewrite <- R. cbn [forallb].
    reflexivity.
  - cbn [length Nat.eqb]. exact R.
Qed.

Section Counting.
Variable value : Grid -> Z.
Hypothesis value_inj : forall a b, value a = value b -> a = b.

Lemma size_of_grid_cells (cells : list Grid) :
  length (filter (fun x => negb (Z.eqb x (value Wall))) (map value cells))
  = length (filter (fun x => Z.eqb x (value Empty)) (map value cells))
    + length (filter (fun x => Z.eqb x (value MyInk) || Z.eqb x (value MySpecial))
                     (map value cells))
    + length (filter (fun x => Z.eqb x (value HisInk) || Z.eqb x (value HisSpecial))
                     (map value cells)).
Proof.
  induction cells as [| g cells IH]; [reflexivity |].
  cbn [map filter].
  destruct g;
    repeat match goal with
      | |- context [Z.eqb (value ?a) (value ?b)] =>
          destruct (Z.eqb_spec (value a) (value b)) as [E | E];
          [ try (apply value_inj in E; discriminate E)
          | try (exfalso; apply E; reflexivity) ];
          try clear E
      end;
    cbn [negb orb length]; lia.
Qed.

End Counting.

Lemma div6_step c n :
  (0 <= c < 6)%Z -> (0 <= n)%Z ->
  ((if Z.eqb ((c + 1) mod 6) 0 then 1 else 0) + ((c + 1) mod 6 + n) / 6
   = (c + (n + 1)) / 6)%Z.
Proof.
  intros Hc Hn.
  destruct (Z.eqb_spec ((c + 1) mod 6) 0); Z.div_mod_to_equations; lia.
Qed.

Lemma flat_map_seq_shift {A} (f : nat -> list A) n : forall start,
  flat_map f (seq (S start) n) = flat_map (fun k => f (S k)) (seq start n).
Proof.
  induction n as [| n IH]; intros start; [reflexivity |].
  cbn [seq flat_map]. now rewrite IH.
Qed.

Section Closing.
Import Session.
Variable replay_cursor : nat -> Z.
Variable target : Z.

Lemma close_loop_never fuel : forall polls count,
  (forall k, replay_cursor k <> target) ->
  close_loop fuel replay_cursor target polls count = None.
Proof.
  induction fuel as [| f IH]; intros polls count H; [reflexivity |].
  cbn [close_loop].
  replace (Z.eqb (replay_cursor polls) target) with false
    by (symmetry; apply Z.eqb_neq, H).
  now rewrite IH.
Qed.

Lemma close_loop_reaches n : forall fuel polls count,
  n < fuel ->
  (forall k, k < n -> replay_cursor (polls + k) <> target) ->
  replay_cursor (polls + n) = target ->
  (0 <= count < 6)%Z ->
  exists events,
    close_loop fuel replay_cursor target polls count = Some events
    /\ filter (fun e => negb (Session.is_PressA e)) events
       = map (fun k => moved_event target (replay_cursor (polls + k))) (seq 0 n)
    /\ Z.of_nat (length (filter is_PressA events))
       = ((count + Z.of_nat n) / 6)%Z.
Proof.
  induction n as [| n IH]; intros fuel polls count Hf Hne Ht Hc;
    (destruct fuel as [| fuel]; [lia |]); cbn [close_loop].
  - rewrite Nat.add_0_r in Ht. rewrite Ht, Z.eqb_refl.
    exists []. repeat split. cbn. rewrite Z.add_0_r.
    symmetry. apply Z.div_small. lia.
  - pose proof (Hne 0 ltac:(lia)) as H0. rewrite Nat.add_0_r in H0.
    replace (Z.eqb (replay_cursor polls) target) with false
      by (symmetry; apply Z.eqb_neq, H0).
    destruct (IH fuel (S polls) ((count + 1) mod 6)%Z) as [rest [E [Hm Hp]]].
    + lia.
    + intros k Hk. replace (S polls + k) with (polls + S k) by lia.
      apply Hne. lia.
    + replace (S polls + n) with (polls + S n) by lia. exact Ht.
    + apply Z.mod_pos_bound. lia.
    + rewrite E. eexists. split; [reflexivity |].
      fold (moved_event target (replay_cursor polls)).
      assert (Hmoved : is_PressA (moved_event target (replay_cursor polls)) = false)
        by (unfold moved_event; destruct (negb _); reflexivity).
      split.
      * cbn [filter]. rewrite Hmoved. cbn [negb]. rewrite filter_app.
        replace (filter (fun e => negb (is_PressA e))
                        (if Z.eqb ((count + 1) mod 6) 0 then [PressA] else []))
          with (@nil close_event)
          by (destruct (Z.eqb ((count + 1) mod 6) 0); reflexivity).
        cbn [app]. rewrite Hm. cbn [seq map]. rewrite Nat.add_0_r. f_equal.
        rewrite <- seq_shift, map_map. apply map_ext. intros k.
        f_equal. f_equal. lia.
      * cbn [filter]. rewrite Hmoved. cbv iota.
        rewrite filter_app, length_app, Nat2Z.inj_add, Hp.
        assert (U : Z.of_nat
                      (length (filter is_PressA
                                 (if Z.eqb ((count + 1) mod 6) 0
                                  then [PressA] else [])))
                    = if Z.eqb ((count + 1) mod 6) 0 then 1%Z else 0%Z)
          by (destruct (Z.eqb ((count + 1) mod 6) 0); reflexivity).
        rewrite U, Nat2Z.inj_succ. unfold Z.succ.
        apply div6_step; lia.
Qed.

Lemma close_loop_events n : forall fuel polls count,
  n < fuel ->
  (forall k, k < n -> replay_cursor (polls + k) <> target) ->
  replay_cursor (polls + n) = target ->
  (0 <= count < 6)%Z ->
  close_loop fuel replay_cursor target polls count
  = Some (flat_map
            (fun k => moved_event target (replay_cursor (polls + k))
                      :: (if Z.eqb ((count + Z.of_nat k + 1) mod 6) 0
                          then [PressA] else []))
            (seq 0 n)).
Proof.
  induction n as [| n IH]; intros fuel polls count Hf Hne Ht Hc;
    (destruct fuel as [| fuel]; [lia |]); cbn [close_loop].
  - rewrite Nat.add_0_r in Ht. rewrite Ht, Z.eqb_refl. reflexivity.
  - pose proof (Hne 0 ltac:(lia)) as H0. rewrite Nat.add_0_r in H0.
    replace (Z.eqb (replay_cursor polls) target) with false
      by (symmetry; apply Z.eqb_neq, H0).
    rewrite (IH fuel (S polls) ((count + 1) mod 6)%Z);
      [| lia
       | intros k Hk; replace (S polls + k) with (polls + S k) by lia;
         apply Hne; lia
       | replace (S polls + n) with (polls + S n) by lia; exact Ht
       | apply Z.mod_pos_bound; lia].
    fold (moved_event target (replay_cursor polls)).
    change (seq 0 (S n)) with (0 :: seq 1 n). cbn [flat_map].
    rewrite Nat.add_0_r. change (Z.of_nat 0) with 0%Z. rewrite Z.add_0_r.
    cbn [app]. f_equal. f_equal. f_equal.
    rewrite flat_map_seq_shift.
    apply flat_map_ext. intros k.
    replace (S polls + k) with (polls + S k) by lia.
    f_equal.
    replace (((count + 1) mod 6 + Z.of_nat k + 1) mod 6)%Z
      with ((count + Z.of_nat (S k) + 1) mod 6)%Z; [reflexivity |].
    rewrite Nat2Z.inj_succ.
    replace ((count + 1) mod 6 + Z.of_nat k + 1)%Z
      with ((count + 1) mod 6 + (Z.of_nat k + 1))%Z by lia.
    rewrite Zplus_mod_idemp_l. f_equal. lia.
Qed.

End Closing.

End StageMore3.

Import StageMore3.

(** X27.  In a Stage built from an array of Grid members (whose values are
    pairwise different), [size] is the number of cells that are not Wall:
    the Empty cells together with both players' ink cells, so it is more
    than the number of Empty cells as soon as a player has ink. *)
Theorem Stage_size_counts (value : Grid -> Z) (g : list (list Grid)) l st :
  (forall a b, value a = value b -> a = b) ->
  Stage_init value (OfGrid g) = (l, Ok st) ->
  s_size st
  + length (filter (fun x => Z.eqb x (value Wall)) (concat (s_grid st)))
  = length (concat (s_grid st))
  /\ s_size st
     = length (filter (fun x => Z.eqb x (value Empty)) (concat (s_grid st)))
       + length (s_my_ink st) + length (s_his_ink st).
Proof.
  intros inj H. apply Stage_init_inv in H as [-> _].
  cbn [values_of].
  destruct (Stage_fields_sp value (vectorize value g)) as [Hg _].
  destruct (Stage_fields_all value (vectorize value g))
    as [Im [Ih [_ [_ [_ [_ [_ Hs]]]]]]].
  cbn zeta in Hg, Im, Ih, Hs. rewrite Hg, Im, Ih, Hs.
  split; [apply filter_complement_length |].
  rewrite !NpMore.argwhere_length.
  unfold vectorize. rewrite <- concat_map.
  apply (@size_of_grid_cells value inj).
Qed.

Lemma Stage_size_counts_witness :
  s_size (Stage_fields example_value
            (vectorize example_value [[MyInk; Empty]; [Wall; HisSpecial]]))
  + length (filter (fun x => Z.eqb x (example_value Wall))
              (concat (s_grid (Stage_fields example_value
                 (vectorize example_value [[MyInk; Empty]; [Wall; HisSpecial]])))))
  = length (concat (s_grid (Stage_fields example_value
              (vectorize example_value [[MyInk; Empty]; [Wall; HisSpecial]]))))
  /\ s_size (Stage_fields example_value
               (vectorize example_value [[MyInk; Empty]; [Wall; HisSpecial]]))
     = length (filter (fun x => Z.eqb x (example_value Empty))
                 (concat (s_grid (Stage_fields example_value
                    (vectorize example_value
                               [[MyInk; Empty]; [Wall; HisSpecial]])))))
       + length (s_my_ink (Stage_fields example_value
                   (vectorize example_value [[MyInk; Empty]; [Wall; HisSpecial]])))
       + length (s_his_ink (Stage_fields example_value
                   (vectorize example_value [[MyInk; Empty]; [Wall; HisSpecial]]))).
Proof.
  apply (@Stage_size_counts example_value [[MyInk; Empty]; [Wall; HisSpecial]] []
           (Stage_fields example_value
              (vectorize example_value [[MyInk; Empty]; [Wall; HisSpecial]]))).
  - intros a b; destruct a, b; intros E; try reflexivity; discriminate E.
  - reflexivity.
Defined.

(** X28.  [Stage.__eq__] on constructed Stages: between Stages of one
    shape it holds exactly when the grids are equal, and then the two
    Stages agree in every field; but it is not equality in general, since
    a Stage of the single cell [x] compares equal to every Stage all of
    whose cells are [x] (numpy broadcasts the comparison). *)
Theorem Stage_eq_same_shape (value : Grid -> Z) a1 l1 st1 a2 l2 st2 :
  Stage_init value a1 = (l1, Ok st1) ->
  Stage_init value a2 = (l2, Ok st2) ->
  (forall h w, Np.has_shape h w (s_grid st1) -> Np.has_shape h w (s_grid st2) ->
               (Stage_eq st1 st2 = true <-> s_grid st1 = s_grid st2)
               /\ (Stage_eq st1 st2 = true <-> st1 = st2))
  /\ (forall x, s_grid st1 = [[x]] ->
                (Stage_eq st1 st2 = true
                 <-> forall y, In y (concat (s_grid st2)) -> y = x)).
Proof.
  intros H1 H2.
  apply Stage_init_inv in H1 as [-> _]. apply Stage_init_inv in H2 as [-> _].
  destruct (Stage_fields_sp value (values_of value a1)) as [G1 _].
  destruct (Stage_fields_sp value (values_of value a2)) as [G2 _].
  cbn zeta in G1, G2. unfold Stage_eq. rewrite G1, G2. split.
  - intros h w S1 S2.
    pose proof (all_eq_same_shape S1 S2) as E. split; [exact E |].
    rewrite E. split; [intros ->; reflexivity |].
    intros Es. rewrite <- G1, <- G2. now rewrite Es.
  - intros x ->. apply all_eq_one_cell_grid.
Qed.

Lemma Stage_eq_same_shape_witness :
  (forall h w,
      Np.has_shape h w (s_grid (Stage_fields example_value [[1; 0]]%Z)) ->
      Np.has_shape h w (s_grid (Stage_fields example_value [[1; 1]]%Z)) ->
      (Stage_eq (Stage_fields example_value [[1; 0]]%Z)
                (Stage_fields example_value [[1; 1]]%Z) = true
       <-> s_grid (Stage_fields example_value [[1; 0]]%Z)
           = s_grid (Stage_fields example_value [[1; 1]]%Z))
      /\ (Stage_eq (Stage_fields example_value [[1; 0]]%Z)
                   (Stage_fields example_value [[1; 1]]%Z) = true
          <-> Stage_fields example_value [[1; 0]]%Z
              = Stage_fields example_value [[1; 1]]%Z))
  /\ (forall x, s_grid (Stage_fields example_value [[1; 0]]%Z) = [[x]] ->
                (Stage_eq (Stage_fields example_value [[1; 0]]%Z)
                          (Stage_fields example_value [[1; 1]]%Z) = true
                 <-> forall y,
                     In y (concat (s_grid (Stage_fields example_value
                                                        [[1; 1]]%Z))) ->
                     y = x)).
Proof.
  apply (@Stage_eq_same_shape example_value
           (OfInt [[1; 0]]%Z) [] (Stage_fields example_value [[1; 0]]%Z)
           (OfInt [[1; 1]]%Z) [] (Stage_fields example_value [[1; 1]]%Z));
    reflexivity.
Defined.

(** X29.  [__close] aims at replay-cursor position 0 when closing and 1
    otherwise.  When the first [n] stabilised readings miss the target and
    the next one hits it, the console sees exactly this, in order: A
    twice; for each missed reading in turn a move macro towards the
    target, or a sleep when the reading was -1, followed by one extra A
    when it was the sixth, twelfth, ... miss; then A twice.  The extra
    presses are [n / 6] in number.  While no reading hits the target the
    loop goes on. *)
Theorem close_presses (replay_cursor : nat -> Z) (closing : bool) :
  (forall n fuel,
      n < fuel ->
      (forall k, k < n -> replay_cursor k <> (if closing then 0 else 1)%Z) ->
      replay_cursor n = (if closing then 0 else 1)%Z ->
      Session.close fuel replay_cursor closing
      = Some ([Session.PressA; Session.PressA]
              ++ Session.close_events (if closing then 0 else 1)%Z
                                      replay_cursor n
              ++ [Session.PressA; Session.PressA])
      /\ filter (fun e => negb (Session.is_PressA e))
                (Session.close_events (if closing then 0 else 1)%Z
                                      replay_cursor n)
         = map (fun k => Session.moved_event (if closing then 0 else 1)%Z
                                             (replay_cursor k))
               (seq 0 n)
      /\ length (filter Session.is_PressA
                    (Session.close_events (if closing then 0 else 1)%Z
                                          replay_cursor n))
         = n / 6)
  /\ ((forall k, replay_cursor k <> (if closing then 0 else 1)%Z) ->
      forall fuel, Session.close fuel replay_cursor closing = None).
Proof.
  split.
  - intros n fuel Hf Hne Ht.
    pose proof (@close_loop_events replay_cursor (if closing then 0 else 1)%Z
                  n fuel 0 0%Z Hf Hne Ht ltac:(lia)) as X.
    destruct (@close_loop_reaches replay_cursor (if closing then 0 else 1)%Z
                n fuel 0 0%Z Hf Hne Ht) as [events [E [Hm Hp]]]; [lia |].
    assert (Ev : events
                 = Session.close_events (if closing then 0 else 1)%Z
                                        replay_cursor n).
    { rewrite X in E. injection E as <-. unfold Session.close_events.
      apply flat_map_ext. intros k. reflexivity. }
    subst events. unfold Session.close. cbn zeta. rewrite E.
    split; [reflexivity |]. split; [exact Hm |].
    rewrite Z.add_0_l in Hp. apply Nat2Z.inj.
    rewrite Hp, Nat2Z.inj_div. reflexivity.
  - intros Hne fuel. unfold Session.close. cbn zeta.
    now rewrite (@close_loop_never replay_cursor (if closing then 0 else 1)%Z
                   fuel 0 0%Z Hne).
Qed.

Lemma close_presses_witness :
  Session.close 10 (fun k => if Nat.ltb k 7 then (-1)%Z else 1%Z) false
  = Some [Session.PressA; Session.PressA;
          Session.Sleep; Session.Sleep; Session.Sleep; Session.Sleep;
          Session.Sleep; Session.Sleep; Session.PressA; Session.Sleep;
          Session.PressA; Session.PressA].
Proof.
  destruct (proj1 (@close_presses
                     (fun k => if Nat.ltb k 7 then (-1)%Z else 1%Z) false)
                  7 10) as [E _].
  - lia.
  - intros k Hk. replace (Nat.ltb k 7) with true
      by (symmetry; apply Nat.ltb_lt; exact Hk).
    discriminate.
  - reflexivity.
  - rewrite E. reflexivity.
Defined.
